(** * The date-range analytics engine of [index.tsx]

    A shallow embedding of the three functions that carry the logic of the
    station-inspection dashboard:

    - [rocToGregorian]               (index.tsx, lines 355-368),
    - [calculateYearlyDistrictStats] (index.tsx, lines 408-444),
    - [renderCompletionVisuals]      (index.tsx, lines 578-605, the part that
      computes [completionData]; the DOM rendering that follows is not
      modelled),

    together with the pieces of the JavaScript language they rest on:
    strings as sequences of UTF-16 code units, [String.prototype.split],
    [parseInt], the [Date] constructor, property lookup on an ordinary
    object (own properties, then [Object.prototype]), [Object.keys],
    [Array.prototype.sort] and IEEE-754 arithmetic on numbers. *)

From Stdlib Require Import ZArith NArith Ascii String Floats.
From stdpp Require Import gmap list sorting.

Local Open Scope Z_scope.

(** ** JavaScript strings

    A JavaScript string is a finite sequence of 16-bit code units.  It is
    modelled as a [list N]; [str] turns an ASCII literal into its code
    units (one unit per character). *)

Abbreviation jsstring := (list N) (only parsing).

Definition str (s : string) : jsstring :=
  N_of_ascii <$> list_ascii_of_string s.

(** The two separators of the regular expression [/[\/\-]/]:
    U+002F SOLIDUS and U+002D HYPHEN-MINUS. *)
Definition is_separator (c : N) : bool :=
  ((c =? 47) || (c =? 45))%N.

(** [s.split(/[\/\-]/)]: the substrings between the separators, empty
    substrings included.  The result is never the empty array. *)
Fixpoint split (s : jsstring) : list jsstring :=
  match s with
  | [] => [[]]
  | c :: s' =>
      if is_separator c then [] :: split s'
      else match split s' with
           | seg :: segs => (c :: seg) :: segs
           | [] => [[c]]
           end
  end.

(** ** [parseInt(string, 10)] (ECMA-262, 19.2.5)

    - leading white space and line terminators are skipped,
    - one sign is accepted,
    - the longest prefix of decimal digits is read, and whatever follows
      it is ignored,
    - the result is NaN when that prefix is empty.

    The result is a JavaScript number; [None] stands for NaN and [Some z]
    for the number of mathematical value [z].  (Beyond 2^53 the engine
    rounds [z] to a double, and it does not tell -0 from 0; every use of
    [parseInt] below feeds the [Date] constructor, for which neither makes
    a difference: such magnitudes are outside the range of time values.) *)

(** WhiteSpace and LineTerminator code units (ECMA-262, 12.2 and 12.3). *)
Definition is_white_space (c : N) : bool :=
  ((9 <=? c) && (c <=? 13)          (* TAB, LF, VT, FF, CR *)
   || (c =? 32)                     (* SPACE *)
   || (c =? 160)                    (* NO-BREAK SPACE *)
   || (c =? 5760)                   (* U+1680 *)
   || (8192 <=? c) && (c <=? 8202)  (* U+2000 .. U+200A *)
   || (c =? 8232) || (c =? 8233)    (* LINE and PARAGRAPH SEPARATOR *)
   || (c =? 8239)                   (* U+202F *)
   || (c =? 8287)                   (* U+205F *)
   || (c =? 12288)                  (* U+3000 IDEOGRAPHIC SPACE *)
   || (c =? 65279))%N.              (* U+FEFF *)

Fixpoint trim_start (s : jsstring) : jsstring :=
  match s with
  | c :: s' => if is_white_space c then trim_start s' else s
  | [] => []
  end.

Definition is_digit (c : N) : bool := ((48 <=? c) && (c <=? 57))%N.

Definition digit_value (c : N) : Z := Z.of_N c - 48.

(** The longest prefix of decimal digits. *)
Fixpoint digits_prefix (s : jsstring) : jsstring :=
  match s with
  | c :: s' => if is_digit c then c :: digits_prefix s' else []
  | [] => []
  end.

(** The value of a sequence of digits, most significant first. *)
Definition digits_value (ds : jsstring) : Z :=
  fold_left (fun acc c => 10 * acc + digit_value c) ds 0.

Definition parseInt (s : jsstring) : option Z :=
  let s1 := trim_start s in
  let sign :=
    match s1 with
    | c :: _ => if (c =? 45)%N then -1 else 1      (* "-" *)
    | [] => 1
    end in
  let s2 :=
    match s1 with
    | c :: r => if ((c =? 45) || (c =? 43))%N then r else s1   (* "-", "+" *)
    | [] => s1
    end in
  match digits_prefix s2 with
  | [] => None
  | ds => Some (sign * digits_value ds)
  end.

(** ** [Date] (ECMA-262, 21.4.1)

    A [Date] object is modelled by its time value: milliseconds since the
    epoch in UTC, or NaN ([None]) for an invalid date. *)

Record Date := mkDate { valueOf : option Z }.

Definition msPerDay : Z := 86400000.

Definition DayFromYear (y : Z) : Z :=
  365 * (y - 1970) + (y - 1969) / 4 - (y - 1901) / 100 + (y - 1601) / 400.

Definition InLeapYear (y : Z) : bool :=
  if negb (y mod 4 =? 0) then false
  else if negb (y mod 100 =? 0) then true
  else if negb (y mod 400 =? 0) then false
  else true.

(** Number of days of the year that precede the first day of month [mn]
    (0 = January). *)
Definition DaysBeforeMonth (leap : bool) (mn : Z) : Z :=
  let l := if leap then 1 else 0 in
  match mn with
  | 0 => 0
  | 1 => 31
  | 2 => 59 + l
  | 3 => 90 + l
  | 4 => 120 + l
  | 5 => 151 + l
  | 6 => 181 + l
  | 7 => 212 + l
  | 8 => 243 + l
  | 9 => 273 + l
  | 10 => 304 + l
  | _ => 334 + l
  end.

(** [MakeDay(year, month, date)]: months outside 0..11 carry into the
    year, days outside the month carry into the neighbouring months. *)
Definition MakeDay (year month date : Z) : Z :=
  let ym := year + month / 12 in
  let mn := month mod 12 in
  DayFromYear ym + DaysBeforeMonth (InLeapYear ym) mn + date - 1.

Definition MakeDate (day time : Z) : Z := day * msPerDay + time.

Definition TimeClip (t : Z) : option Z :=
  if Z.abs t >? 8640000000000000 then None else Some t.

(** [a >= b] and [a <= b] on [Date] objects compare the time values as
    numbers; a comparison with NaN is false. *)
Definition date_ge (a b : Date) : bool :=
  match valueOf a, valueOf b with
  | Some x, Some y => y <=? x
  | _, _ => false
  end.

Definition date_le (a b : Date) : bool :=
  match valueOf a, valueOf b with
  | Some x, Some y => x <=? y
  | _, _ => false
  end.

(** ** Values read from a record

    A field of a parsed record holds a string, or [null], or is missing
    ([undefined]). *)
Inductive value :=
  | JSUndefined
  | JSNull
  | JSString (s : jsstring).

(** ToBoolean: [undefined], [null] and the empty string are falsy. *)
Definition truthy (v : value) : bool :=
  match v with
  | JSString (_ :: _) => true
  | _ => false
  end.

(** ** Records and district statistics *)

(** A [StationData] object.  Of its eight fields the engine reads two:
    the district and the date of the current inspection. *)
Record StationData := mkStation {
  轄區 : value;
  本次檢查 : value
}.

(** One entry of [DistrictStats].  The counters are JavaScript numbers
    that only ever hold integers: they start at 0 and grow by 1 per
    record, and an array has fewer than 2^32 elements, so they stay far
    below 2^53 and the arithmetic on them is exact. *)
Record counts := mkCounts { countA : Z; countB : Z; countC : Z }.

#[global] Instance counts_eq_dec : EqDecision counts.
Proof. solve_decision. Defined.

(** [DistrictStats]: the own properties of the object [stats]. *)
Abbreviation DistrictStats := (gmap (list N) counts) (only parsing).

(** *** Property lookup on [stats]

    [stats] is created by the literal [{}], so its prototype is
    [Object.prototype], and [stats[key]] falls back on it when [stats] has
    no own property [key].  These are the property names that
    [Object.prototype] carries in a browser; each holds a function,
    except [__proto__], an accessor that returns [Object.prototype]
    itself. *)
Definition Object_prototype_keys : list jsstring :=
  [ str "constructor"; str "hasOwnProperty"; str "isPrototypeOf";
    str "propertyIsEnumerable"; str "toLocaleString"; str "toString";
    str "valueOf"; str "__defineGetter__"; str "__defineSetter__";
    str "__lookupGetter__"; str "__lookupSetter__"; str "__proto__" ].

(** The part of [Object.prototype] that the engine can change: whether it
    has acquired an enumerable property [countA] (resp. [countB]); the
    only value the engine can store there is NaN. *)
Record prototype := mkPrototype { has_countA : bool; has_countB : bool }.

#[global] Instance prototype_eq_dec : EqDecision prototype.
Proof. solve_decision. Defined.

Definition pristine : prototype := mkPrototype false false.

(** The outcome of evaluating [stats[key]]; [V] is what an own property
    of [stats] holds. *)
Inductive property (V : Type) :=
  | Own (v : V)      (* an own property: a triple stored by the engine *)
  | Builtin          (* a member of Object.prototype: an object, truthy *)
  | InheritedNaN     (* countA or countB left on Object.prototype *)
  | Undefined.
Arguments Own {V} v.
Arguments Builtin {V}.
Arguments InheritedNaN {V}.
Arguments Undefined {V}.

Definition Get {V : Type} (stats : gmap (list N) V) (op : prototype)
    (key : jsstring) : property V :=
  match stats !! key with
  | Some v => Own v
  | None =>
      if bool_decide (key ∈ Object_prototype_keys) then Builtin
      else if bool_decide (key = str "countA") && has_countA op then InheritedNaN
      else if bool_decide (key = str "countB") && has_countB op then InheritedNaN
      else Undefined
  end.

Definition property_truthy {V : Type} (p : property V) : bool :=
  match p with
  | Own _ | Builtin => true
  | InheritedNaN | Undefined => false
  end.

(** The property key that a field value denotes (ToPropertyKey). *)
Definition property_key (v : value) : jsstring :=
  match v with
  | JSString s => s
  | JSUndefined => str "undefined"
  | JSNull => str "null"
  end.

(** Completion of a piece of code: it returns, or it throws a TypeError. *)
Inductive result (A : Type) :=
  | Returns (a : A)
  | TypeError.
Arguments Returns {A} a.
Arguments TypeError {A}.

Inductive counter := CountA | CountB.

Definition bump (f : counter) (c : counts) : counts :=
  match f with
  | CountA => mkCounts (countA c + 1) (countB c) (countC c)
  | CountB => mkCounts (countA c) (countB c + 1) (countC c)
  end.

Definition pollute (f : counter) (op : prototype) : prototype :=
  match f with
  | CountA => mkPrototype true (has_countB op)
  | CountB => mkPrototype (has_countA op) true
  end.

(** ** The engine *)

Section Host.

(** The host's time zone rule: [UTC t] is the UTC time value of the local
    time [t] (ECMA-262, 21.4.1.26).  It is fixed by the machine the page
    runs on, not by the program. *)
Variable UTC : Z -> Z.

(** Whether the script runs as strict-mode code (it does when it is
    loaded as a module).  It decides what an assignment to a property of a
    primitive value does: a TypeError in strict mode, nothing otherwise. *)
Variable strict : bool.

(** [new Date(year, month, date)] on numbers: a year in 0..99 stands for
    1900 + year; the time of day is local midnight. *)
Definition new_Date (year month date : Z) : Date :=
  let yr := if (0 <=? year) && (year <=? 99) then 1900 + year else year in
  mkDate (TimeClip (UTC (MakeDate (MakeDay yr month date) 0))).

(** ** [rocToGregorian] (index.tsx, 355-368); [None] is [null]. *)
Definition rocToGregorian (rocDateStr : value) : option Date :=
  match rocDateStr with
  | JSString ((_ :: _) as s) =>
      match split s with
      | [p0; p1; p2] =>
          let rocYear := parseInt p0 in
          let month := parseInt p1 in
          let day := parseInt p2 in
          match rocYear, month, day with
          | Some rocYear, Some month, Some day =>
              let gregorianYear := rocYear + 1911 in
              Some (new_Date gregorianYear (month - 1) day)
          | _, _, _ => None     (* isNaN(rocYear) || isNaN(month) || isNaN(day) *)
          end
      | _ => None
      end
  | _ => None
  end.

(** [stats[key].countA++] and [stats[key].countB++].
    - On an own triple the counter grows by one.
    - On a member of [Object.prototype] the property is created on that
      member with the value NaN ([undefined + 1]); [stats] is not
      changed.  For the key [__proto__] that member is [Object.prototype]
      itself, which thereby acquires an enumerable property.
    - NaN is a primitive: the assignment fails.
    - [undefined] has no properties: TypeError. *)
Definition increment (f : counter) (key : jsstring)
    (stats : DistrictStats) (op : prototype) : result DistrictStats * prototype :=
  match Get stats op key with
  | Own c => (Returns (<[key := bump f c]> stats), op)
  | Builtin =>
      (Returns stats, if bool_decide (key = str "__proto__") then pollute f op else op)
  | InheritedNaN => (if strict then TypeError else Returns stats, op)
  | Undefined => (TypeError, op)
  end.

Section Windows.

Variables startA endA startB endB : Date.

(** The callback of [data.forEach] (index.tsx, 417-436). *)
Definition classify (item : StationData)
    (stats : DistrictStats) (op : prototype) : result DistrictStats * prototype :=
  let district := 轄區 item in
  if negb (truthy district) then (Returns stats, op)
  else
    let key := property_key district in
    let stats :=
      if negb (property_truthy (Get stats op key))
      then <[key := mkCounts 0 0 0]> stats
      else stats in
    match rocToGregorian (本次檢查 item) with
    | None => (Returns stats, op)
    | Some itemDate =>
        if date_ge itemDate startA && date_le itemDate endA
        then increment CountA key stats op
        else if date_ge itemDate startB && date_le itemDate endB
        then increment CountB key stats op
        else (Returns stats, op)
    end.

(** [data.forEach(...)]: the callback runs on each element in order; an
    exception ends the iteration. *)
Fixpoint forEach (data : list StationData)
    (stats : DistrictStats) (op : prototype) : result DistrictStats * prototype :=
  match data with
  | [] => (Returns stats, op)
  | item :: data' =>
      match classify item stats op with
      | (Returns stats', op') => forEach data' stats' op'
      | (TypeError, op') => (TypeError, op')
      end
  end.

(** The keys that [for (const district in stats)] visits besides the own
    keys of [stats]: the enumerable properties of [Object.prototype] that
    no own property shadows. *)
Definition inherited_enumerable {V : Type} (stats : gmap (list N) V)
    (op : prototype) : list jsstring :=
  filter (fun k => stats !! k = None)
    ((if has_countA op then [str "countA"] else []) ++
     (if has_countB op then [str "countB"] else [])).

Definition recompute (c : counts) : counts :=
  mkCounts (countA c) (countB c) (countA c + countB c).

(** The loop [for (const district in stats) stats[district].countC = ...]
    (index.tsx, 439-441).  On an own key it stores the sum in the triple.
    On an inherited key [stats[district]] is NaN and the assignment to its
    property fails.  The order of the visits does not matter: either every
    own triple is recomputed, or the function throws and returns
    nothing. *)
Definition for_in (stats : DistrictStats) (op : prototype)
  : result DistrictStats :=
  if strict && negb (bool_decide (inherited_enumerable stats op = []))
  then TypeError
  else Returns (recompute <$> stats).

(** [calculateYearlyDistrictStats] (index.tsx, 408-444).  Besides its
    result the function yields the state in which it leaves
    [Object.prototype]. *)
Definition calculateYearlyDistrictStats (data : list StationData)
    (op : prototype) : result DistrictStats * prototype :=
  match forEach data ∅ op with
  | (Returns stats, op') => (for_in stats op', op')
  | (TypeError, op') => (TypeError, op')
  end.

End Windows.

End Host.

(** ** The completion pass *)

(** The JavaScript number (an IEEE-754 double) of an integer, rounded to
    nearest; exact below 2^53. *)
Definition number (z : Z) : float :=
  SF2Prim (binary_normalize 53 1024 z 0 false).

(** ToBoolean on a number: 0, -0 and NaN are falsy. *)
Definition number_truthy (x : float) : bool :=
  negb (PrimFloat.is_zero x || PrimFloat.is_nan x).

(** [x < y] on strings: the order of the code units at the first place
    where the strings differ; a proper prefix comes first. *)
Fixpoint string_ltb (a b : jsstring) : bool :=
  match a, b with
  | _, [] => false
  | [], _ :: _ => true
  | x :: a', y :: b' =>
      if (x <? y)%N then true
      else if (y <? x)%N then false
      else string_ltb a' b'
  end.

(** The order that [Array.prototype.sort] uses without a comparator. *)
Definition string_le (a b : jsstring) : Prop := string_ltb b a = false.

#[global] Instance string_le_dec : RelDecision string_le.
Proof. intros a b. unfold string_le. apply _. Defined.

(** [Object.keys(stats)]: the own keys of [stats], in the order in which
    the engine lists them.  [sort] below makes that order immaterial. *)
Definition Object_keys (stats : DistrictStats) : list jsstring :=
  (map_to_list stats).*1.

(** [keys.sort()].  The keys of an object are pairwise distinct strings, on
    which the default order is total, so every sorting algorithm yields the
    same array. *)
Definition sort (keys : list jsstring) : list jsstring :=
  merge_sort string_le keys.

Record CompletionEntry := mkEntry { key : jsstring; percentage : float }.

(** The label of the aggregate entry, the three code units U+7E3D U+8F44
    U+5340. *)
Definition aggregate_label : jsstring := [32317; 36676; 21312]%N.

(** The callback of [sortedDistricts.forEach] (index.tsx, 588-598); the
    state is [completionData], [totalC] and [totalTarget]. *)
Definition accumulate (stats : DistrictStats) (targets : gmap (list N) float)
    (acc : list CompletionEntry * float * float) (district : jsstring)
  : list CompletionEntry * float * float :=
  let '(completionData, totalC, totalTarget) := acc in
  match targets !! district, stats !! district with
  | Some target, Some c =>
      if number_truthy target && (0 <? target)%float
      then (completionData ++
              [mkEntry district (number (countC c) / target * 100)%float],
            (totalC + number (countC c))%float,
            (totalTarget + target)%float)
      else acc
  | _, _ => acc
  end.

(** [renderCompletionVisuals] (index.tsx, 578-605): the array
    [completionData] that the function then draws. *)
Definition renderCompletionVisuals (stats : DistrictStats)
    (targets : gmap (list N) float) : list CompletionEntry :=
  let sortedDistricts := sort (Object_keys stats) in
  let '(completionData, totalC, totalTarget) :=
    fold_left (accumulate stats targets) sortedDistricts ([], 0%float, 0%float) in
  if (0 <? totalTarget)%float
  then completionData ++
         [mkEntry aggregate_label (totalC / totalTarget * 100)%float]
  else completionData.

(** * The rest of the dashboard

    The functions of [index.tsx] around the engine: the district filter,
    the keyword list, the filters of [handleAnalysis], the table of yearly
    statistics and its target inputs, the bar charts, and the CSV export.
    What they build in the DOM is modelled by the data it is built
    from. *)

#[global] Instance value_eq_dec : EqDecision value.
Proof. solve_decision. Defined.

#[global] Instance StationData_eq_dec : EqDecision StationData.
Proof. solve_decision. Defined.

(** ** [Set] (ECMA-262, 24.2)

    A [Set] keeps its elements in the order of their first insertion. *)
Definition Set_add {A} `{EqDecision A} (s : list A) (x : A) : list A :=
  if decide (x ∈ s) then s else s ++ [x].

Definition Set_delete {A} `{EqDecision A} (s : list A) (x : A) : list A :=
  filter (fun y => y <> x) s.

(** [new Set(iterable)] *)
Definition new_Set {A} `{EqDecision A} (l : list A) : list A :=
  fold_left Set_add l [].

(** ** [populateDistrictFilter] (index.tsx, 194-204): the values of the
    options it creates, in order. *)
Definition populateDistrictFilter (data : list StationData) : list value :=
  let districts := new_Set (filter (fun v => truthy v = true) (轄區 <$> data)) in
  districts.

(** ** Keywords *)

(** [defaultKeywords] (index.tsx, 28), as code units. *)
Definition defaultKeywords : list jsstring :=
  [ [26356; 25563]; [39686; 33067]; [38500; 37885];
    [28431; 27700]; [30772; 35010]; [35010; 32299] ]%N.

(** The class [[,\uFF0C\s]] of the regular expression in
    [handleAddKeyword]: comma, fullwidth comma, white space. *)
Definition is_keyword_separator (c : N) : bool :=
  ((c =? 44) || (c =? 65292))%N || is_white_space c.

(** [s.split(/[,\uFF0C\s]+/)]: the substrings between the maximal runs
    of separators; [in_run] tells that the code unit before was a
    separator.  A string that begins (ends) with a separator has an empty
    first (last) substring. *)
Fixpoint split_runs (in_run : bool) (s : jsstring) : list jsstring :=
  match s with
  | [] => [[]]
  | c :: s' =>
      if is_keyword_separator c
      then if in_run then split_runs true s' else [] :: split_runs true s'
      else match split_runs false s' with
           | tok :: toks => (c :: tok) :: toks
           | [] => [[c]]
           end
  end.

(** [String.prototype.trim]: white space is removed at both ends. *)
Definition trim (s : jsstring) : jsstring :=
  reverse (trim_start (reverse (trim_start s))).

(** [handleAddKeyword] (index.tsx, 372-380): the new value of
    [currentKeywords], given the text of the input field. *)
Definition handleAddKeyword (input : jsstring) (currentKeywords : list jsstring)
  : list jsstring :=
  let newKeywords :=
    filter (fun k => k <> []) (trim <$> split_runs false input) in
  if bool_decide (0 < length newKeywords)%nat
  then fold_left Set_add newKeywords currentKeywords
  else currentKeywords.

(** [handleRemoveKeyword] (index.tsx, 382-385). *)
Definition handleRemoveKeyword (keywordToRemove : jsstring)
    (currentKeywords : list jsstring) : list jsstring :=
  Set_delete currentKeywords keywordToRemove.

(** ** [handleAnalysis] *)

(** What the field [檢查與改善] of a parsed record can hold.  The
    interface [StationData] declares a string; [JSON.parse] yields whatever
    the file holds, and [processJsonData] does not look at the field. *)
Inductive remark :=
  | Remark (v : value)                     (* a string, [null], or no such field *)
  | RemarkArray (strings : list jsstring)  (* an array; [strings] are those of its
                                              elements that are strings *)
  | RemarkOther.                           (* a number, a boolean, or an object
                                              that is not an array *)

#[global] Instance remark_eq_dec : EqDecision remark.
Proof. solve_decision. Defined.

(** A record with the one further field that [handleAnalysis] reads. *)
Record Station := mkFullStation {
  fields : StationData;
  檢查與改善 : remark
}.

#[global] Instance Station_eq_dec : EqDecision Station.
Proof. solve_decision. Defined.

(** [s.includes(sub)]: [sub] occurs in [s]. *)
Fixpoint starts_with (sub s : jsstring) : bool :=
  match sub, s with
  | [], _ => true
  | _ :: _, [] => false
  | x :: sub', y :: s' => (x =? y)%N && starts_with sub' s'
  end.

Fixpoint includes (s sub : jsstring) : bool :=
  starts_with sub s ||
  match s with
  | [] => false
  | _ :: s' => includes s' sub
  end.

(** [item["檢查與改善"]?.includes(keyword)], as a truth value.
    - [undefined] and [null] end the optional chain with [undefined].
    - A string has the method [String.prototype.includes].
    - An array has the method [Array.prototype.includes]: the keyword is
      one of its elements.
    - A number, a boolean and an object that is not an array have no
      method [includes]: the call throws a TypeError. *)
Definition remark_includes (r : remark) (keyword : jsstring) : result bool :=
  match r with
  | Remark (JSString s) => Returns (includes s keyword)
  | Remark _ => Returns false
  | RemarkArray strings => Returns (bool_decide (keyword ∈ strings))
  | RemarkOther => TypeError
  end.

(** [array.some(f)]: the iteration ends at the first element on which [f]
    is truthy, and at the first on which it throws. *)
Fixpoint Array_some {A : Type} (f : A -> result bool) (l : list A) : result bool :=
  match l with
  | [] => Returns false
  | x :: l' =>
      match f x with
      | TypeError => TypeError
      | Returns true => Returns true
      | Returns false => Array_some f l'
      end
  end.

(** [array.filter(f)]: [f] runs on each element in order; an exception
    ends the iteration, and no array is returned. *)
Fixpoint Array_filter {A : Type} (f : A -> result bool) (l : list A)
  : result (list A) :=
  match l with
  | [] => Returns []
  | x :: l' =>
      match f x with
      | TypeError => TypeError
      | Returns keep =>
          match Array_filter f l' with
          | TypeError => TypeError
          | Returns kept => Returns (if keep then x :: kept else kept)
          end
      end
  end.

(** The callback of [allFilteredStationsData.filter] (index.tsx, 245-247):
    [Array.from(currentKeywords).some(keyword =>
       item["檢查與改善"]?.includes(keyword))]. *)
Definition mentions_keyword (currentKeywords : list jsstring) (item : Station)
  : result bool :=
  Array_some (remark_includes (檢查與改善 item)) currentKeywords.

(** [selectedDistricts.includes(item["轄區"])] *)
Definition district_selected (selectedDistricts : list jsstring) (item : Station) : bool :=
  match 轄區 (fields item) with
  | JSString s => bool_decide (s ∈ selectedDistricts)
  | _ => false
  end.

(** The global state of the page. *)
Record App := mkApp {
  allData : list Station;
  specialStationsData : list Station;
  allFilteredStationsData : list Station;
  currentYearlyStats : gmap (list N) counts;
  currentKeywords : list jsstring
}.

(** What [handleAnalysis] does after its computations.  [Rendered] stands
    for the call [renderResults(...)] on the three values; the drawing
    that the call does on the page is not modelled. *)
Inductive analysis :=
  | AskForData                   (* no data loaded: a prompt *)
  | NoDateRange                  (* getSelectedDateRange() returned null *)
  | NothingFound                 (* a notice, and clearResults() *)
  | Rendered (allData specialData : list Station)
             (yearlyStats : gmap (list N) counts)   (* renderResults(...) *)
  | AnalysisError.               (* an exception of the pass or of the keyword
                                    filter, caught and reported *)

Section Analysis.

Variable UTC : Z -> Z.
Variable strict : bool.

(** The callback of [allData.filter] (index.tsx, 230-233). *)
Definition in_date_range (start end_ : Date) (item : Station) : bool :=
  match rocToGregorian UTC (本次檢查 (fields item)) with
  | Some itemDate => date_ge itemDate start && date_le itemDate end_
  | None => false
  end.

(** [handleAnalysis] (index.tsx, 209-258).  [dateRange] is what
    [getSelectedDateRange()] returns, [selectedDistricts] what
    [getSelectedDistricts()] returns; [startOfYear] and [endOfRangeA] are
    the two dates that the function derives from the clock and from
    [dateRange.start] with the methods of [Date].  The function stores
    [currentYearlyStats] as soon as the pass has returned (line 226) and
    [allFilteredStationsData] as soon as the records are filtered (line
    235); an exception that the filter of line 245 throws leaves both
    stored, and [specialStationsData] as it was. *)
Definition handleAnalysis (app : App) (dateRange : option (Date * Date))
    (selectedDistricts : list jsstring) (startOfYear endOfRangeA : Date)
    (op : prototype) : analysis * App * prototype :=
  if bool_decide (length (allData app) = 0%nat) then (AskForData, app, op)
  else
    match dateRange with
    | None => (NoDateRange, app, op)
    | Some (start, end_) =>
        match calculateYearlyDistrictStats UTC strict startOfYear endOfRangeA
                start end_ (fields <$> allData app) op with
        | (TypeError, op') => (AnalysisError, app, op')
        | (Returns yearlyStats, op') =>
            let dateFilteredData := filter (fun item => in_date_range start end_ item = true) (allData app) in
            let allFiltered :=
              if bool_decide (length selectedDistricts = 0%nat)
              then dateFilteredData
              else filter (fun item => district_selected selectedDistricts item = true)
                          dateFilteredData in
            if bool_decide (length allFiltered = 0%nat)
               && bool_decide (length (Object_keys yearlyStats) = 0%nat)
            then (NothingFound,
                  mkApp (allData app) (specialStationsData app) allFiltered
                        yearlyStats (currentKeywords app),
                  op')
            else
              match Array_filter (mentions_keyword (currentKeywords app)) allFiltered with
              | TypeError =>
                  (AnalysisError,
                   mkApp (allData app) (specialStationsData app) allFiltered
                         yearlyStats (currentKeywords app),
                   op')
              | Returns special =>
                  (Rendered allFiltered special yearlyStats,
                   mkApp (allData app) special allFiltered yearlyStats
                         (currentKeywords app),
                   op')
              end
        end
    end.

End Analysis.

(** ** [renderYearlyStats] (index.tsx, 494-548) *)

(** What the function puts in its container: a notice, or a table with a
    row per district, each with an input for the target of the district,
    and a footer with the totals. *)
Inductive yearly_table :=
  | NoStatistics
  | Table (rows : list (list N * counts)) (totalA totalB totalC : Z).

Definition renderYearlyStats (stats : gmap (list N) counts) : yearly_table :=
  let sortedDistricts := sort (Object_keys stats) in
  if bool_decide (length sortedDistricts = 0%nat) then NoStatistics
  else
    let '(rows, totalA, totalB, totalC) :=
      fold_left
        (fun '(rows, totalA, totalB, totalC) district =>
           match stats !! district with
           | Some districtStats =>
               (rows ++ [(district, districtStats)],
                totalA + countA districtStats,
                totalB + countB districtStats,
                totalC + countC districtStats)
           | None => (rows, totalA, totalB, totalC)
           end)
        sortedDistricts ([], 0, 0, 0) in
    Table rows totalA totalB totalC.

(** ** [handleTargetInputChange] (index.tsx, 553-572) *)



Section Targets.

(** [Number(string)] (ECMA-262, 7.1.4.1.1), not modelled. *)
Variable Number : jsstring -> float.


End Targets.

(** ** [renderBarChart] (index.tsx, 456-491) *)

(** The label of the records without a value, the two code units U+672A
    U+77E5. *)
Definition unknown_label : jsstring := [26410; 30693]%N.

(** [String(item[property] || ...)]: the key under which a record is
    counted. *)
Definition chart_key (v : value) : jsstring :=
  match v with
  | JSString ((_ :: _) as s) => s
  | _ => unknown_label
  end.

(** What a property of [counts] holds: a number, or the text that the
    first [+ 1] made of a member of [Object.prototype]. *)
Inductive tallied :=
  | Count (n : Z)
  | Text (s : jsstring).

(** The own properties of [counts], in the order of their creation. *)
Fixpoint get_own (acc : list (jsstring * tallied)) (key : jsstring)
  : option tallied :=
  match acc with
  | [] => None
  | (k, t) :: acc' => if decide (k = key) then Some t else get_own acc' key
  end.

Fixpoint set_own (acc : list (jsstring * tallied)) (key : jsstring)
    (t : tallied) : list (jsstring * tallied) :=
  match acc with
  | [] => [(key, t)]
  | (k, t0) :: acc' =>
      if decide (k = key) then (k, t) :: acc' else (k, t0) :: set_own acc' key t
  end.

Section BarChart.

(** [String(x)] for a member [x] of [Object.prototype]; the text is left
    to the host. *)
Variable String_builtin : jsstring -> jsstring.

(** [acc[key] = (acc[key] || 0) + 1].  A key that [acc] does not own is
    looked up in [Object.prototype]: a member found there is an object,
    and [+ 1] appends the digit 1 to its text.  The assignment creates
    the property, except for [__proto__], whose setter ignores a
    string. *)
Definition add_one (key : jsstring) (acc : list (jsstring * tallied))
  : list (jsstring * tallied) :=
  match get_own acc key with
  | Some (Count n) => set_own acc key (Count (n + 1))
  | Some (Text s) => set_own acc key (Text (s ++ [49%N]))
  | None =>
      if bool_decide (key ∈ Object_prototype_keys)
      then if bool_decide (key = str "__proto__") then acc
           else set_own acc key (Text (String_builtin key ++ [49%N]))
      else set_own acc key (Count 1)
  end.

End BarChart.

(** An array index (ECMA-262, 6.1.7): the canonical decimal expansion of
    an integer from 0 to 2^32 - 2. *)
Definition array_index (s : jsstring) : option Z :=
  match s with
  | [] => None
  | c :: s' =>
      if forallb is_digit s
         && (negb (c =? 48)%N || bool_decide (s' = []))
         && (digits_value s <? 2 ^ 32 - 1)
      then Some (digits_value s)
      else None
  end.

Definition index_le {A} (a b : Z * A) : Prop := a.1 <= b.1.

#[global] Instance index_le_dec {A} : RelDecision (@index_le A).
Proof. intros a b. unfold index_le. apply _. Defined.

(** [Object.entries]: the properties whose key is an array index come
    first, in ascending order of the index, the others follow in the
    order of their creation. *)
Definition Object_entries {A} (props : list (jsstring * A)) : list (jsstring * A) :=
  let indexed :=
    omap (fun p => (fun i => (i, p)) <$> array_index p.1) props in
  (merge_sort index_le indexed).*2
  ++ filter (fun p => array_index p.1 = None) props.

(** [entries.sort(([, a], [, b]) => b - a)]: descending counts.  The sort
    is stable (ECMA-262, 23.1.3.30), which determines the result: entries
    with equal counts keep their order. *)
Fixpoint insert_bar (x : jsstring * Z) (l : list (jsstring * Z))
  : list (jsstring * Z) :=
  match l with
  | [] => [x]
  | y :: l' => if x.2 <? y.2 then y :: insert_bar x l' else x :: l
  end.

Definition sort_by_count (l : list (jsstring * Z)) : list (jsstring * Z) :=
  foldr insert_bar [] l.

(** What [renderBarChart] puts in its container: a notice, or a bar per
    key with its count, and the count that the widths are relative to.
    When [counts] holds a text, [Math.max] gives NaN and the comparator
    of the sort gives NaN as well; the order of the bars is then left to
    the host, and so is this outcome. *)
Inductive bar_chart :=
  | NoChartData
  | Bars (bars : list (jsstring * Z)) (maxValue : Z)
  | HostDefinedChart.

Definition numeric (p : jsstring * tallied) : option (jsstring * Z) :=
  match p.2 with
  | Count n => Some (p.1, n)
  | Text _ => None
  end.

Section BarChartRender.

Variable String_builtin : jsstring -> jsstring.

Definition renderBarChart {A} (data : list A) (property : A -> value) : bar_chart :=
  let counts :=
    fold_left (fun acc item => add_one String_builtin (chart_key (property item)) acc)
              data [] in
  match mapM numeric counts with
  | None => HostDefinedChart
  | Some counts =>
      let maxValue := foldr Z.max 0 counts.*2 in
      if bool_decide (maxValue = 0) then NoChartData
      else Bars (sort_by_count (Object_entries counts)) maxValue
  end.

End BarChartRender.

(** ** [convertToCSV] (index.tsx, 719-733) *)

(** [array.join(sep)] on an array of strings. *)
Fixpoint join (sep : jsstring) (l : list jsstring) : jsstring :=
  match l with
  | [] => []
  | [x] => x
  | x :: l' => x ++ sep ++ join sep l'
  end.

(** The [value.replace] of index.tsx, 727: every quotation mark (code
    unit 34) is doubled. *)
Definition double_quotes (v : jsstring) : jsstring :=
  flat_map (fun c => if (c =? 34)%N then [34; 34]%N else [c]) v.

(** The text of a cell (index.tsx, 725-729): a value that includes a
    comma (code unit 44) is put in quotation marks. *)
Definition quoted (v : jsstring) : jsstring :=
  if bool_decide (44%N ∈ v) then [34%N] ++ double_quotes v ++ [34%N] else v.

(** A parsed record as [convertToCSV] sees it: its own properties in the
    order of [Object.keys].  A property holds [null] ([None]) or a value
    of JSON: a string, a number, a boolean, an array or an object. *)
Definition json_object (V : Type) := list (jsstring * option V).

Section ExportModel.

Context {V : Type}.

(** [String(v)] for a value of JSON: a string is its own text, a number
    its decimal expansion, and so on. *)
Variable String_value : V -> jsstring.

(** [String(x)] for a member [x] of [Object.prototype]; the text is left
    to the host. *)
Variable String_builtin : jsstring -> jsstring.

(** [String(row[header] ?? '')] *)
Definition cell (op : prototype) (row : json_object V) (header : jsstring)
  : jsstring :=
  match Get (list_to_map row : gmap (list N) (option V)) op header with
  | Own (Some v) => String_value v
  | Own None => []
  | Builtin => String_builtin header
  | InheritedNaN => str "NaN"
  | Undefined => []
  end.

(** The function itself. *)
Definition convertToCSV (data : list (json_object V)) (op : prototype) : jsstring :=
  match data with
  | [] => []
  | first :: _ =>
      let headers := first.*1 in
      let headerRow := join [44%N] headers in
      let rows :=
        (fun row => join [44%N] ((fun header => quoted (cell op row header)) <$> headers))
          <$> data in
      join [13; 10]%N (headerRow :: rows)
  end.

End ExportModel.

(** ** The local time of a [Date] (ECMA-262, 21.4.1.3 to 21.4.1.13) *)

Definition Day (t : Z) : Z := t / msPerDay.

Definition TimeWithinDay (t : Z) : Z := t mod msPerDay.

(** The day of the week, 0 for Sunday; 1 January 1970 was a Thursday. *)
Definition WeekDay (t : Z) : Z := (Day t + 4) mod 7.

(** [YearFromTime(t)]: the largest year [y] such that [DayFromYear y] is
    not after the day of [t].  The search starts from a year that is not
    after it and takes a step per year. *)
Fixpoint year_search (fuel : nat) (d y : Z) : Z :=
  match fuel with
  | O => y
  | S fuel' => if DayFromYear (y + 1) <=? d then year_search fuel' d (y + 1) else y
  end.

Definition YearFromTime (t : Z) : Z :=
  let d := Day t in
  let q := if 0 <=? d then d / 366 else d / 365 in
  year_search (Z.to_nat (Z.abs q / 365 + 3)) d (1970 + q).

Definition DayWithinYear (t : Z) : Z := Day t - DayFromYear (YearFromTime t).

Definition MonthFromTime (t : Z) : Z :=
  let d := DayWithinYear t in
  let l := if InLeapYear (YearFromTime t) then 1 else 0 in
  if d <? 31 then 0
  else if d <? 59 + l then 1
  else if d <? 90 + l then 2
  else if d <? 120 + l then 3
  else if d <? 151 + l then 4
  else if d <? 181 + l then 5
  else if d <? 212 + l then 6
  else if d <? 243 + l then 7
  else if d <? 273 + l then 8
  else if d <? 304 + l then 9
  else if d <? 334 + l then 10
  else 11.

Definition DateFromTime (t : Z) : Z :=
  DayWithinYear t
  - DaysBeforeMonth (InLeapYear (YearFromTime t)) (MonthFromTime t) + 1.

Definition MakeTime (hour min sec ms : Z) : Z :=
  hour * 3600000 + min * 60000 + sec * 1000 + ms.

(** ** The methods of [Date] that the filters use *)

Section DateMethods.

(** The host's time zone rule in both directions: [LocalTime t] is the
    local time of the UTC time value [t] (ECMA-262, 21.4.1.25), [UTC t]
    the UTC time value of the local time [t]. *)
Variable UTC : Z -> Z.
Variable LocalTime : Z -> Z.

(** [getFullYear()], [getMonth()], [getDate()], [getDay()]: NaN ([None])
    on an invalid date. *)
Definition getFullYear (d : Date) : option Z :=
  (fun t => YearFromTime (LocalTime t)) <$> valueOf d.

Definition getMonth (d : Date) : option Z :=
  (fun t => MonthFromTime (LocalTime t)) <$> valueOf d.

Definition getDate (d : Date) : option Z :=
  (fun t => DateFromTime (LocalTime t)) <$> valueOf d.

Definition getDay (d : Date) : option Z :=
  (fun t => WeekDay (LocalTime t)) <$> valueOf d.

(** [d.setDate(date)]: the new value of [d]. *)
Definition setDate (d : Date) (date : option Z) : Date :=
  match valueOf d, date with
  | Some t, Some dt =>
      let t := LocalTime t in
      let newDate :=
        MakeDate (MakeDay (YearFromTime t) (MonthFromTime t) dt) (TimeWithinDay t) in
      mkDate (TimeClip (UTC newDate))
  | _, _ => mkDate None
  end.

(** [d.setHours(hour, min, sec, ms)]: the new value of [d]. *)
Definition setHours (d : Date) (hour min sec ms : Z) : Date :=
  match valueOf d with
  | Some t =>
      let t := LocalTime t in
      mkDate (TimeClip (UTC (MakeDate (Day t) (MakeTime hour min sec ms))))
  | None => mkDate None
  end.

(** [new Date(year, month, date)] on the results of getters: a NaN among
    the arguments gives an invalid date. *)
Definition new_Date_of (year month date : option Z) : Date :=
  match year, month, date with
  | Some y, Some m, Some d => new_Date UTC y m d
  | _, _, _ => mkDate None
  end.

(** [a - b] and [a > b] on numbers that may be NaN. *)
Definition subtract (a b : option Z) : option Z :=
  match a, b with
  | Some x, Some y => Some (x - y)
  | _, _ => None
  end.

Definition date_gt (a b : Date) : bool :=
  match valueOf a, valueOf b with
  | Some x, Some y => y <? x
  | _, _ => false
  end.

(** ** [new Date(string)] on the value of a date input

    The value of an [<input type="date">] is empty or a date of the form
    YYYY-MM-DD, which [Date.parse] reads as the start of that day in UTC
    (ECMA-262, 21.4.1.32).  What [Date.parse] makes of another string is
    left to the host. *)
Variable Date_parse_other : jsstring -> option Z.

Definition DaysInMonth (year month : Z) : Z :=
  MakeDay year month 1 - MakeDay year (month - 1) 1.

Definition Date_parse (s : jsstring) : option Z :=
  match s with
  | [y1; y2; y3; y4; h1; m1; m2; h2; d1; d2] =>
      let year := digits_value [y1; y2; y3; y4] in
      let month := digits_value [m1; m2] in
      let day := digits_value [d1; d2] in
      if forallb is_digit [y1; y2; y3; y4; m1; m2; d1; d2]
         && (h1 =? 45)%N && (h2 =? 45)%N
         && (1 <=? month) && (month <=? 12)
         && (1 <=? day) && (day <=? DaysInMonth year month)
      then Some (MakeDate (MakeDay year (month - 1) day) 0)
      else Date_parse_other s
  | _ => Date_parse_other s
  end.

Definition new_Date_string (s : jsstring) : Date :=
  mkDate (match Date_parse s with Some t => TimeClip t | None => None end).

(** ** [getSelectedDateRange] (index.tsx, 289-334)

    [selectedFilter] is the value of the checked radio button, if one is
    checked; [now] is the time at which the function reads the clock, and
    [later] the time of the second reading, where there is one;
    [startDateStr] and [endDateStr] are the values of the two date
    inputs. *)
Definition getSelectedDateRange (selectedFilter : option jsstring)
    (now later : Z) (startDateStr endDateStr : jsstring) : option (Date * Date) :=
  let now := mkDate (TimeClip now) in
  let later := mkDate (TimeClip later) in
  match selectedFilter with
  | Some filter =>
      if decide (filter = str "week") then
        let startOfWeek := now in
        let startOfWeek := setDate startOfWeek (subtract (getDate now) (getDay now)) in
        let startOfWeek := setHours startOfWeek 0 0 0 0 in
        Some (startOfWeek, later)
      else if decide (filter = str "month") then
        let startOfMonth := new_Date_of (getFullYear now) (getMonth now) (Some 1) in
        Some (startOfMonth, later)
      else if decide (filter = str "month-last") then
        let startOfLastMonth :=
          new_Date_of (getFullYear now) (subtract (getMonth now) (Some 1)) (Some 1) in
        let endOfLastMonth := new_Date_of (getFullYear now) (getMonth now) (Some 0) in
        let endOfLastMonth := setHours endOfLastMonth 23 59 59 999 in
        Some (startOfLastMonth, endOfLastMonth)
      else if decide (filter = str "year") then
        let startOfYear := new_Date_of (getFullYear now) (Some 0) (Some 1) in
        Some (startOfYear, later)
      else if decide (filter = str "custom") then
        if bool_decide (startDateStr = []) || bool_decide (endDateStr = []) then None
        else
          let start := new_Date_string startDateStr in
          let end_ := new_Date_string endDateStr in
          let start := setHours start 0 0 0 0 in
          let end_ := setHours end_ 23 59 59 999 in
          if date_gt start end_ then None
          else Some (start, end_)
      else None
  | None => None
  end.

(** ** The windows of [handleAnalysis] (index.tsx, 220-224)

    [startOfYear] and [endOfRangeA], from the time [now] at which the
    function reads the clock and the start of the selected range. *)
Definition analysis_windows (now : Z) (start : Date) : Date * Date :=
  let now := mkDate (TimeClip now) in
  let startOfYear := new_Date_of (getFullYear now) (Some 0) (Some 1) in
  let endOfRangeA := mkDate (valueOf start) in
  let endOfRangeA := setDate endOfRangeA (subtract (getDate endOfRangeA) (Some 1)) in
  let endOfRangeA := setHours endOfRangeA 23 59 59 999 in
  (startOfYear, endOfRangeA).

End DateMethods.

(** * Properties of the calendar converter *)

(** ** [split] *)

Lemma split_not_nil (s : jsstring) : split s ≠ [].
Proof.
  destruct s as [|c s]; simpl; [done|].
  destruct (is_separator c); [done|].
  by destruct (split s).
Qed.

(** No segment contains a separator. *)
Lemma split_no_separator (s : jsstring) :
  Forall (Forall (fun c => is_separator c = false)) (split s).
Proof.
  induction s as [|c s IH]; simpl.
  - by repeat constructor.
  - destruct (is_separator c) eqn:Hc.
    + by constructor.
    + destruct (split s) as [|seg segs]; [by repeat constructor|].
      apply Forall_cons in IH as [Hseg Hsegs].
      constructor; [by constructor | done].
Qed.

(** A string without separator is its own single segment. *)
Lemma split_no_separator_id (s : jsstring) :
  Forall (fun c => is_separator c = false) s -> split s = [s].
Proof.
  induction 1 as [|c s Hc _ IH]; simpl; [done|].
  by rewrite Hc, IH.
Qed.

(** Cutting at a separator. *)
Lemma split_app (p s : jsstring) (c : N) :
  Forall (fun c => is_separator c = false) p ->
  is_separator c = true ->
  split (p ++ c :: s) = p :: split s.
Proof.
  intros Hp Hc. induction Hp as [|x p Hx _ IH]; simpl.
  - by rewrite Hc.
  - by rewrite Hx, IH.
Qed.

(** ** [parseInt] *)

Lemma trim_start_suffix (s : jsstring) : trim_start s `suffix_of` s.
Proof.
  induction s as [|c s IH]; simpl; [done|].
  destruct (is_white_space c); [by apply suffix_cons_r | done].
Qed.

Lemma is_digit_value (c : N) : is_digit c = true -> 0 <= digit_value c <= 9.
Proof.
  unfold is_digit, digit_value.
  intros [H1 H2]%andb_true_iff.
  apply N.leb_le in H1, H2. lia.
Qed.

Lemma digits_value_nonneg (ds : jsstring) (acc : Z) :
  Forall (fun c => is_digit c = true) ds -> 0 <= acc ->
  0 <= fold_left (fun acc c => 10 * acc + digit_value c) ds acc.
Proof.
  intros Hds. revert acc.
  induction Hds as [|c ds Hc _ IH]; simpl; intros acc Hacc; [done|].
  apply IH. apply is_digit_value in Hc. lia.
Qed.

Lemma digits_prefix_digits (s : jsstring) :
  Forall (fun c => is_digit c = true) (digits_prefix s).
Proof.
  induction s as [|c s IH]; simpl; [constructor|].
  destruct (is_digit c) eqn:Hc; by constructor.
Qed.

(** What [parseInt] reads: the string after the white space and the
    sign. *)
Definition unsigned_part (s : jsstring) : jsstring :=
  match trim_start s with
  | c :: r => if ((c =? 45) || (c =? 43))%N then r else c :: r
  | [] => []
  end.

(** [parseInt] yields NaN exactly when no digit stands there. *)
Lemma parseInt_None (s : jsstring) :
  parseInt s = None <-> digits_prefix (unsigned_part s) = [].
Proof.
  unfold parseInt, unsigned_part.
  destruct (trim_start s) as [|c r]; simpl; [done|].
  destruct ((c =? 45) || (c =? 43))%N; by destruct (digits_prefix _).
Qed.

(** A segment cut out by [split] holds no minus sign, so its number is
    not negative. *)
Lemma parseInt_nonneg (p : jsstring) (z : Z) :
  Forall (fun c => is_separator c = false) p ->
  parseInt p = Some z -> 0 <= z.
Proof.
  intros Hp. unfold parseInt.
  pose proof (trim_start_suffix p) as [pre Hpre].
  destruct (trim_start p) as [|c r] eqn:Htrim; simpl; [done|].
  assert (Hc : (c =? 45)%N = false).
  { rewrite Hpre in Hp. apply Forall_app in Hp as [_ Hp].
    apply Forall_cons in Hp as [Hc _].
    unfold is_separator in Hc. by apply orb_false_iff in Hc as [_ ?]. }
  rewrite Hc. simpl.
  match goal with |- context [digits_prefix ?x] =>
    pose proof (digits_prefix_digits x) as Hd; destruct (digits_prefix x) as [|d ds] eqn:Hds end;
    [done|].
  intros [= <-]. unfold digits_value.
  pose proof (digits_value_nonneg (d :: ds) 0 Hd). lia.
Qed.

Lemma digits_prefix_app (ds rest : jsstring) :
  Forall (fun c => is_digit c = true) ds ->
  match rest with c :: _ => is_digit c = false | [] => True end ->
  digits_prefix (ds ++ rest) = ds.
Proof.
  intros Hds Hrest. induction Hds as [|c ds Hc _ IH]; simpl.
  - destruct rest as [|c rest]; simpl; [done|]. by rewrite Hrest.
  - by rewrite Hc, IH.
Qed.

Lemma is_digit_not_space_nor_sign (c : N) :
  is_digit c = true ->
  is_white_space c = false /\ ((c =? 45) || (c =? 43))%N = false.
Proof.
  unfold is_digit, is_white_space.
  intros [H1 H2]%andb_true_iff. apply N.leb_le in H1, H2.
  split.
  - repeat (apply orb_false_iff; split);
      first [ apply N.eqb_neq; lia
            | apply andb_false_iff; rewrite !N.leb_gt; lia ].
  - apply orb_false_iff; split; apply N.eqb_neq; lia.
Qed.

(** On a segment that begins with digits, [parseInt] reads those digits
    and ignores the rest. *)
Lemma parseInt_leading_digits (ds rest : jsstring) :
  ds <> [] ->
  Forall (fun c => is_digit c = true) ds ->
  match rest with c :: _ => is_digit c = false | [] => True end ->
  parseInt (ds ++ rest) = Some (digits_value ds).
Proof.
  intros Hne Hds Hrest.
  destruct ds as [|d ds]; [done|].
  destruct (is_digit_not_space_nor_sign d (Forall_inv Hds)) as [Hws Hsign].
  pose proof Hsign as [Hminus _]%orb_false_iff.
  unfold parseInt. cbn [app trim_start]. rewrite Hws, Hsign, Hminus.
  change (d :: ds ++ rest) with ((d :: ds) ++ rest).
  rewrite digits_prefix_app by done.
  f_equal. lia.
Qed.

Section Converter.
Variable UTC : Z -> Z.

Lemma rocToGregorian_segments (s p0 p1 p2 : jsstring) (y m d : Z) :
  split s = [p0; p1; p2] ->
  parseInt p0 = Some y -> parseInt p1 = Some m -> parseInt p2 = Some d ->
  rocToGregorian UTC (JSString s) = Some (new_Date UTC (y + 1911) (m - 1) d).
Proof.
  intros Hs H0 H1 H2. unfold rocToGregorian.
  destruct s as [|c s]; [done|].
  by rewrite Hs, H0, H1, H2.
Qed.

Lemma rocToGregorian_None_iff (s : jsstring) :
  rocToGregorian UTC (JSString s) = None <->
  length (split s) <> 3%nat \/ Exists (fun p => parseInt p = None) (split s).
Proof.
  unfold rocToGregorian.
  destruct s as [|c s].
  { simpl. split; [intros _; left; lia | done]. }
  destruct (split (c :: s)) as [|p0 [|p1 [|p2 [|p3 ps]]]]; simpl;
    try (split; [intros _; left; lia | done]).
  rewrite !Exists_cons, Exists_nil.
  destruct (parseInt p0), (parseInt p1), (parseInt p2); intuition congruence.
Qed.

Lemma MakeDay_rollover (year month date : Z) :
  MakeDay year month date =
  MakeDay (year + month / 12) (month mod 12) 1 + (date - 1).
Proof.
  unfold MakeDay.
  rewrite Z.mod_mod by lia.
  rewrite (Z.div_small (month mod 12) 12) by (apply Z.mod_pos_bound; lia).
  rewrite Z.add_0_r. lia.
Qed.

Lemma new_Date_full_year (year month date : Z) :
  100 <= year ->
  valueOf (new_Date UTC year month date) =
  TimeClip (UTC (MakeDate (MakeDay year month date) 0)).
Proof.
  intros Hy. unfold new_Date.
  replace (year <=? 99) with false by (symmetry; apply Z.leb_gt; lia).
  by rewrite andb_false_r.
Qed.


(** C2.  A string of three segments on which [parseInt] succeeds resolves
    to the date that [new Date] builds from the first number plus 1911 as
    the year, the second minus one as the 0-indexed month and the third as
    the day; its time value is that of local midnight of that day.  Month
    and day are not checked against a range: the constructor carries a
    month beyond 11 into the year and counts the day from the first of
    the month.  "113/05/20" is 20 May 2024, and "113-13-01" is
    1 January 2025. *)
Theorem C2_rocToGregorian_resolves :
  (forall (s p0 p1 p2 : jsstring) (y m d : Z),
      split s = [p0; p1; p2] ->
      parseInt p0 = Some y -> parseInt p1 = Some m -> parseInt p2 = Some d ->
      rocToGregorian UTC (JSString s) = Some (new_Date UTC (y + 1911) (m - 1) d)
      /\ valueOf (new_Date UTC (y + 1911) (m - 1) d) =
         TimeClip (UTC (MakeDate (MakeDay (y + 1911) (m - 1) d) 0)))
  /\ (forall year month date : Z,
         MakeDay year month date =
         MakeDay (year + month / 12) (month mod 12) 1 + (date - 1))
  /\ rocToGregorian UTC (JSString (str "113/05/20")) = Some (new_Date UTC 2024 4 20)
  /\ rocToGregorian UTC (JSString (str "113-13-01")) = Some (new_Date UTC 2025 0 1).
Proof.
  split; [|split; [|split]].
  - intros s p0 p1 p2 y m d Hs H0 H1 H2.
    split; [by apply (rocToGregorian_segments s p0 p1 p2)|].
    apply new_Date_full_year.
    pose proof (split_no_separator s) as Hsep.
    rewrite Hs in Hsep. apply Forall_cons in Hsep as [Hp0 _].
    pose proof (parseInt_nonneg p0 y Hp0 H0). lia.
  - apply MakeDay_rollover.
  - reflexivity.
  - reflexivity.
Qed.


(** C10.  "113a/05/20" resolves to the date of "113/05/20": of a segment
    that begins with digits [parseInt] reads the digits and ignores what
    follows.  On a string the converter returns [null] only when the
    number of segments is not three or [parseInt] yields NaN on a
    segment, which is when no digit follows the segment's leading white
    space and sign. *)
Theorem C10_leading_digits_are_parsed :
  rocToGregorian UTC (JSString (str "113a/05/20")) = Some (new_Date UTC 2024 4 20)
  /\ (forall ds rest : jsstring,
         ds <> [] -> Forall (fun c => is_digit c = true) ds ->
         match rest with c :: _ => is_digit c = false | [] => True end ->
         parseInt (ds ++ rest) = Some (digits_value ds))
  /\ (forall s : jsstring,
         rocToGregorian UTC (JSString s) = None <->
         length (split s) <> 3%nat \/ Exists (fun p => parseInt p = None) (split s))
  /\ (forall p : jsstring,
         parseInt p = None <->
         match unsigned_part p with c :: _ => is_digit c = false | [] => True end).
Proof.
  split; [reflexivity|].
  split; [apply parseInt_leading_digits|].
  split; [apply rocToGregorian_None_iff|].
  intros p. rewrite parseInt_None.
  destruct (unsigned_part p) as [|c r]; simpl; [done|].
  destruct (is_digit c); split; done.
Qed.

End Converter.

(** A host in the UTC time zone. *)
Definition utc0 (t : Z) : Z := t.



Lemma C2_witness :
  rocToGregorian utc0 (JSString (str "113/02/30")) = Some (new_Date utc0 2024 1 30)
  /\ valueOf (new_Date utc0 2024 1 30) = Some (19783 * msPerDay).
Proof.
  destruct (C2_rocToGregorian_resolves utc0) as [H _].
  apply (H (str "113/02/30") (str "113") (str "02") (str "30") 113 2 30);
    reflexivity.
Defined.



(** * Properties of the classification pass *)

Section Aggregator.

Variable UTC : Z -> Z.
Variable strict : bool.
Variables startA endA startB endB : Date.

(** The district under which a record is counted, if any. *)
Definition district_of (item : StationData) : option jsstring :=
  if truthy (轄區 item) then Some (property_key (轄區 item)) else None.

(** The window to which the callback assigns a record. *)
Inductive window := InA | InB | Outside.

#[global] Instance window_eq_dec : EqDecision window.
Proof. solve_decision. Defined.

Definition window_of (item : StationData) : window :=
  match rocToGregorian UTC (本次檢查 item) with
  | None => Outside
  | Some itemDate =>
      if date_ge itemDate startA && date_le itemDate endA then InA
      else if date_ge itemDate startB && date_le itemDate endB then InB
      else Outside
  end.

Definition bump_window (w : window) (c : counts) : counts :=
  match w with
  | InA => bump CountA c
  | InB => bump CountB c
  | Outside => c
  end.

(** What one record does to the entry of district [d]. *)
Definition record (d : jsstring) (item : StationData) (oc : option counts)
  : option counts :=
  if bool_decide (district_of item = Some d)
  then Some (bump_window (window_of item) (default (mkCounts 0 0 0) oc))
  else oc.

(** What one record does to [Object.prototype]. *)
Definition taint (item : StationData) (op : prototype) : prototype :=
  if bool_decide (district_of item = Some (str "__proto__"))
  then match window_of item with
       | InA => pollute CountA op
       | InB => pollute CountB op
       | Outside => op
       end
  else op.

(** No own property of [stats] bears a name of [Object.prototype]. *)
Definition clean (stats : gmap (list N) counts) : Prop :=
  forall k, k ∈ Object_prototype_keys -> stats !! k = None.

Lemma Get_clean (stats : gmap (list N) counts) (op : prototype) (k : jsstring) :
  clean stats -> k ∈ Object_prototype_keys -> Get stats op k = Builtin.
Proof.
  intros Hclean Hk. unfold Get. rewrite (Hclean k Hk).
  by rewrite bool_decide_eq_true_2.
Qed.

Lemma Get_ordinary (stats : gmap (list N) counts) (op : prototype) (k : jsstring) :
  k ∉ Object_prototype_keys ->
  property_truthy (Get stats op k) = bool_decide (is_Some (stats !! k)).
Proof.
  intros Hk. unfold Get.
  destruct (stats !! k) as [c|] eqn:Hc.
  - symmetry. by apply bool_decide_eq_true_2.
  - rewrite (bool_decide_eq_false_2 (k ∈ _)) by done.
    transitivity false; [by repeat case_match|].
    symmetry. apply bool_decide_eq_false_2. by intros [? ?].
Qed.

Lemma clean_insert (stats : gmap (list N) counts) (k : jsstring) (c : counts) :
  k ∉ Object_prototype_keys -> clean stats -> clean (<[k := c]> stats).
Proof.
  intros Hk Hclean k' Hk'. rewrite lookup_insert_ne; [by apply Hclean|].
  by intros ->.
Qed.

Lemma increment_own (f : counter) (k : jsstring) (stats : gmap (list N) counts)
    (op : prototype) (c : counts) :
  stats !! k = Some c ->
  increment strict f k stats op = (Returns (<[k := bump f c]> stats), op).
Proof. intros Hc. unfold increment, Get. by rewrite Hc. Qed.

Lemma increment_builtin (f : counter) (k : jsstring) (stats : gmap (list N) counts)
    (op : prototype) :
  clean stats -> k ∈ Object_prototype_keys ->
  increment strict f k stats op =
    (Returns stats, if bool_decide (k = str "__proto__") then pollute f op else op).
Proof. intros Hclean Hk. unfold increment. by rewrite Get_clean. Qed.

Lemma classify_spec (item : StationData) (stats : gmap (list N) counts) (op : prototype) :
  clean stats ->
  exists stats',
    classify UTC strict startA endA startB endB item stats op
      = (Returns stats', taint item op)
    /\ clean stats'
    /\ (forall d, d ∉ Object_prototype_keys ->
                  stats' !! d = record d item (stats !! d)).
Proof.
  intros Hclean. unfold classify, taint, record, district_of, window_of.
  destruct (truthy (轄區 item)) eqn:Htruthy; simpl; cycle 1.
  { exists stats. split; [|split]; try done. }
  set (key := property_key (轄區 item)).
  destruct (decide (key ∈ Object_prototype_keys)) as [Hkey|Hkey].
  - (* the district bears the name of a member of Object.prototype *)
    rewrite (Get_clean stats op key) by done. simpl.
    exists stats. split; [|split; [done|]].
    + destruct (rocToGregorian UTC (本次檢查 item)) as [itemDate|].
      2:{ by case_bool_decide. }
      destruct (date_ge itemDate startA && date_le itemDate endA).
      { rewrite increment_builtin by done.
        f_equal. destruct (decide (key = str "__proto__")) as [He|Hne].
        - by rewrite !bool_decide_eq_true_2 by congruence.
        - by rewrite !bool_decide_eq_false_2 by congruence. }
      destruct (date_ge itemDate startB && date_le itemDate endB).
      { rewrite increment_builtin by done.
        f_equal. destruct (decide (key = str "__proto__")) as [He|Hne].
        - by rewrite !bool_decide_eq_true_2 by congruence.
        - by rewrite !bool_decide_eq_false_2 by congruence. }
      by case_bool_decide.
    + intros d Hd. rewrite bool_decide_eq_false_2; [done|].
      intros [= ->]. done.
  - (* an ordinary district *)
    assert (Hinit : exists stats1,
      (if negb (property_truthy (Get stats op key))
       then <[key := mkCounts 0 0 0]> stats else stats) = stats1
      /\ stats1 !! key = Some (default (mkCounts 0 0 0) (stats !! key))
      /\ clean stats1
      /\ forall d, d <> key -> stats1 !! d = stats !! d).
    { rewrite Get_ordinary by done.
      destruct (stats !! key) as [c|] eqn:Hc.
      - rewrite bool_decide_eq_true_2 by eauto. by exists stats.
      - rewrite bool_decide_eq_false_2 by (by intros [? ?]).
        exists (<[key := mkCounts 0 0 0]> stats).
        split; [done|]. rewrite lookup_insert_eq.
        split; [done|]. split; [by apply clean_insert|].
        intros d Hd. by rewrite lookup_insert_ne. }
    destruct Hinit as (stats1 & -> & Hkey1 & Hclean1 & Hother).
    rewrite (bool_decide_eq_false_2 (Some key = Some (str "__proto__"))); cycle 1.
    { intros [= He]. apply Hkey. rewrite He. set_solver. }
    assert (Hlookup : forall w (stats' : gmap (list N) counts),
      stats' !! key = Some (bump_window w (default (mkCounts 0 0 0) (stats !! key))) ->
      (forall d, d <> key -> stats' !! d = stats !! d) ->
      forall d, d ∉ Object_prototype_keys ->
        stats' !! d =
        if bool_decide (Some key = Some d)
        then Some (bump_window w (default (mkCounts 0 0 0) (stats !! d)))
        else stats !! d).
    { intros w stats' H1 H2 d Hd. case_bool_decide as He.
      - injection He as <-. done.
      - apply H2. congruence. }
    destruct (rocToGregorian UTC (本次檢查 item)) as [itemDate|]; cycle 1.
    { exists stats1. split; [done|]. split; [done|]. by apply (Hlookup Outside). }
    destruct (date_ge itemDate startA && date_le itemDate endA).
    { rewrite (increment_own _ _ _ _ _ Hkey1). eexists. split; [done|].
      split; [by apply clean_insert|].
      apply (Hlookup InA); [by rewrite lookup_insert_eq|].
      intros d Hd. rewrite lookup_insert_ne by done. by apply Hother. }
    destruct (date_ge itemDate startB && date_le itemDate endB).
    { rewrite (increment_own _ _ _ _ _ Hkey1). eexists. split; [done|].
      split; [by apply clean_insert|].
      apply (Hlookup InB); [by rewrite lookup_insert_eq|].
      intros d Hd. rewrite lookup_insert_ne by done. by apply Hother. }
    exists stats1. split; [done|]. split; [done|]. by apply (Hlookup Outside).
Qed.

(** The effect of a sequence of records. *)
Definition records (d : jsstring) (data : list StationData) (oc : option counts)
  : option counts :=
  fold_left (fun oc item => record d item oc) data oc.

Definition taints (data : list StationData) (op : prototype) : prototype :=
  fold_left (fun op item => taint item op) data op.

(** The iteration never throws; it leaves in [stats] what the records of
    each district add up to, and no entry for a district that bears the
    name of a member of [Object.prototype]. *)
Lemma forEach_spec (data : list StationData) (stats : gmap (list N) counts)
    (op : prototype) :
  clean stats ->
  exists stats',
    forEach UTC strict startA endA startB endB data stats op
      = (Returns stats', taints data op)
    /\ clean stats'
    /\ (forall d, d ∉ Object_prototype_keys ->
                  stats' !! d = records d data (stats !! d)).
Proof.
  revert stats op.
  induction data as [|item data IH]; intros stats op Hclean; simpl.
  - by exists stats.
  - destruct (classify_spec item stats op Hclean) as (stats1 & -> & Hclean1 & H1).
    destruct (IH stats1 (taint item op) Hclean1) as (stats' & -> & Hclean' & H').
    exists stats'. split; [done|]. split; [done|].
    intros d Hd. by rewrite (H' d Hd), (H1 d Hd).
Qed.


(** ** Counting *)

(** The number of records of district [d] that fall in window [w]. *)
Definition tally (w : window) (d : jsstring) (data : list StationData) : Z :=
  Z.of_nat (length (filter
    (fun item => district_of item = Some d /\ window_of item = w) data)).

(** Some record names district [d]. *)
Definition mentioned (d : jsstring) (data : list StationData) : Prop :=
  Exists (fun item => district_of item = Some d) data.

Lemma mentioned_cons (d : jsstring) (item : StationData) (data : list StationData) :
  mentioned d (item :: data) <-> district_of item = Some d \/ mentioned d data.
Proof. apply Exists_cons. Qed.

Lemma tally_nil (w : window) (d : jsstring) : tally w d [] = 0.
Proof. done. Qed.

Lemma tally_cons (w : window) (d : jsstring) (item : StationData)
    (data : list StationData) :
  tally w d (item :: data) =
  (if bool_decide (district_of item = Some d /\ window_of item = w) then 1 else 0)
  + tally w d data.
Proof.
  unfold tally. rewrite filter_cons.
  case_bool_decide; case_decide; try done; simpl length; lia.
Qed.

Lemma tally_app (w : window) (d : jsstring) (l1 l2 : list StationData) :
  tally w d (l1 ++ l2) = tally w d l1 + tally w d l2.
Proof. unfold tally. rewrite filter_app, length_app. lia. Qed.

Lemma tally_nonneg (w : window) (d : jsstring) (data : list StationData) :
  0 <= tally w d data.
Proof. unfold tally. lia. Qed.

Lemma tally_not_mentioned (w : window) (d : jsstring) (data : list StationData) :
  ~ mentioned d data -> tally w d data = 0.
Proof.
  unfold mentioned. induction data as [|item data IH]; intros Hm; [done|].
  rewrite tally_cons, IH.
  - rewrite bool_decide_eq_false_2; [done|].
    intros [Hd _]. apply Hm. by apply Exists_cons_hd.
  - intros H. apply Hm. by apply Exists_cons_tl.
Qed.

Lemma tally_zero (w : window) (d : jsstring) (data : list StationData) :
  Forall (fun item => district_of item = Some d -> window_of item <> w) data ->
  tally w d data = 0.
Proof.
  induction 1 as [|item data Hitem _ IH]; [done|].
  rewrite tally_cons, IH.
  rewrite bool_decide_eq_false_2; [done|].
  intros [H1 H2]. by apply Hitem.
Qed.

#[global] Instance mentioned_dec (d : jsstring) (data : list StationData) :
  Decision (mentioned d data).
Proof. unfold mentioned. apply _. Defined.

Lemma records_cons (d : jsstring) (item : StationData) (data : list StationData)
    (oc : option counts) :
  records d (item :: data) oc = records d data (record d item oc).
Proof. done. Qed.

Lemma records_Some (d : jsstring) (data : list StationData) (c : counts) :
  records d data (Some c) =
  Some (mkCounts (countA c + tally InA d data) (countB c + tally InB d data)
                 (countC c)).
Proof.
  revert c. induction data as [|item data IH]; intros c.
  - rewrite !tally_nil, !Z.add_0_r. by destruct c.
  - rewrite records_cons, !tally_cons. unfold record.
    destruct (decide (district_of item = Some d)) as [Hd|Hd].
    + rewrite bool_decide_eq_true_2 by done. rewrite IH.
      destruct (window_of item); simpl; f_equal; f_equal;
        repeat case_bool_decide; naive_solver lia.
    + rewrite bool_decide_eq_false_2 by done. rewrite IH.
      rewrite !bool_decide_eq_false_2 by naive_solver.
      f_equal.
Qed.

Lemma records_None (d : jsstring) (data : list StationData) :
  records d data None =
  if decide (mentioned d data)
  then Some (mkCounts (tally InA d data) (tally InB d data) 0)
  else None.
Proof.
  induction data as [|item data IH].
  - rewrite decide_False; [done|]. by intros H%Exists_nil.
  - rewrite records_cons, !tally_cons. unfold record.
    destruct (decide (district_of item = Some d)) as [Hd|Hd].
    + rewrite bool_decide_eq_true_2 by done.
      rewrite decide_True by (apply mentioned_cons; by left).
      rewrite records_Some.
      destruct (window_of item); simpl; f_equal; f_equal;
        repeat case_bool_decide; naive_solver lia.
    + rewrite bool_decide_eq_false_2 by done. rewrite IH.
      rewrite !bool_decide_eq_false_2 by naive_solver.
      destruct (decide (mentioned d data)) as [Hm|Hm].
      * by rewrite decide_True by (apply mentioned_cons; by right).
      * rewrite decide_False; [done|].
        rewrite mentioned_cons. by intros [?|?].
Qed.


(** ** The whole pass *)

Lemma taints_cons (item : StationData) (data : list StationData) (op : prototype) :
  taints (item :: data) op = taints data (taint item op).
Proof. done. Qed.

(** [Object.prototype] is polluted by the records of the district
    [__proto__] that fall in a window, and by nothing else. *)
Lemma taints_spec (data : list StationData) (op : prototype) :
  taints data op =
  mkPrototype
    (has_countA op || bool_decide (0 < tally InA (str "__proto__") data))
    (has_countB op || bool_decide (0 < tally InB (str "__proto__") data)).
Proof.
  revert op. induction data as [|item data IH]; intros op.
  - rewrite !tally_nil. destruct op as [[] []]; done.
  - rewrite taints_cons, IH, !tally_cons. unfold taint.
    pose proof (tally_nonneg InA (str "__proto__") data).
    pose proof (tally_nonneg InB (str "__proto__") data).
    destruct (decide (district_of item = Some (str "__proto__"))) as [Hd|Hd].
    + rewrite (bool_decide_eq_true_2 _ Hd).
      destruct (window_of item), op as [a b]; simpl; f_equal;
        repeat case_bool_decide; try naive_solver lia;
        try (destruct a; done); try (destruct b; done);
        rewrite ?orb_true_r; done.
    + rewrite (bool_decide_eq_false_2 _ Hd).
      rewrite !(bool_decide_eq_false_2 (_ /\ _)) by naive_solver.
      done.
Qed.

Lemma taints_idempotent (data : list StationData) (op : prototype) :
  taints data (taints data op) = taints data op.
Proof.
  rewrite (taints_spec data (taints data op)), (taints_spec data op). simpl.
  f_equal; by rewrite <- orb_assoc, orb_diag.
Qed.

Lemma clean_empty : clean ∅.
Proof. intros k _. apply lookup_empty. Qed.

(** The function as a whole: the iteration returns, then the final loop
    runs on what it has built. *)
Lemma calculate_spec (data : list StationData) (op : prototype) :
  exists stats,
    forEach UTC strict startA endA startB endB data ∅ op
      = (Returns stats, taints data op)
    /\ calculateYearlyDistrictStats UTC strict startA endA startB endB data op
      = (for_in strict stats (taints data op), taints data op)
    /\ forall d,
         stats !! d =
         if decide (d ∉ Object_prototype_keys /\ mentioned d data)
         then Some (mkCounts (tally InA d data) (tally InB d data) 0)
         else None.
Proof.
  destruct (forEach_spec data ∅ op clean_empty) as (stats & Hloop & Hclean & Hstats).
  exists stats. split; [done|]. split.
  - unfold calculateYearlyDistrictStats. by rewrite Hloop.
  - intros d. destruct (decide (d ∈ Object_prototype_keys)) as [Hd|Hd].
    + rewrite (Hclean d Hd). rewrite decide_False; [done|]. by intros [? _].
    + rewrite (Hstats d Hd), lookup_empty, records_None.
      destruct (decide (mentioned d data)).
      * by rewrite decide_True.
      * rewrite decide_False; [done|]. by intros [_ ?].
Qed.

Lemma for_in_Returns (stats s : gmap (list N) counts) (op : prototype) :
  for_in strict stats op = Returns s -> s = (recompute <$> stats).
Proof. unfold for_in. case_match; [done|]. by intros [= <-]. Qed.

(** The entry that the result holds for a district. *)
Lemma stats_entry (data : list StationData) (op op' : prototype)
    (s : gmap (list N) counts) (d : jsstring) :
  calculateYearlyDistrictStats UTC strict startA endA startB endB data op
    = (Returns s, op') ->
  s !! d =
  if decide (d ∉ Object_prototype_keys /\ mentioned d data)
  then Some (mkCounts (tally InA d data) (tally InB d data)
                      (tally InA d data + tally InB d data))
  else None.
Proof.
  destruct (calculate_spec data op) as (stats & _ & -> & Hstats).
  intros [= Hs _]. apply for_in_Returns in Hs as ->.
  rewrite lookup_fmap, Hstats. by case_decide.
Qed.


(** The counters reported for a district; 0 for a district that the
    result does not list. *)
Definition countA_of (s : gmap (list N) counts) (d : jsstring) : Z :=
  default 0 (countA <$> s !! d).
Definition countB_of (s : gmap (list N) counts) (d : jsstring) : Z :=
  default 0 (countB <$> s !! d).

Lemma counters_of (data : list StationData) (op op' : prototype)
    (s : gmap (list N) counts) (d : jsstring) :
  calculateYearlyDistrictStats UTC strict startA endA startB endB data op
    = (Returns s, op') ->
  d ∉ Object_prototype_keys ->
  countA_of s d = tally InA d data /\ countB_of s d = tally InB d data.
Proof.
  intros Hs Hd. unfold countA_of, countB_of. rewrite (stats_entry _ _ _ _ d Hs).
  destruct (decide (mentioned d data)) as [Hm|Hm].
  - by rewrite decide_True.
  - rewrite decide_False by (by intros [_ ?]).
    by rewrite !tally_not_mentioned.
Qed.

Lemma counters_of_builtin (data : list StationData) (op op' : prototype)
    (s : gmap (list N) counts) (d : jsstring) :
  calculateYearlyDistrictStats UTC strict startA endA startB endB data op
    = (Returns s, op') ->
  d ∈ Object_prototype_keys ->
  s !! d = None.
Proof.
  intros Hs Hd. rewrite (stats_entry _ _ _ _ d Hs).
  rewrite decide_False; [done|]. by intros [? _].
Qed.


(** C1.  In the statistics that the pass returns, every district has
    countC = countA + countB.  The iteration over the records leaves
    countC at 0 in every entry; the sums are stored by the loop over the
    result that follows it. *)
Theorem C1_countC_is_countA_plus_countB (data : list StationData)
    (op op' : prototype) (s : gmap (list N) counts) :
  calculateYearlyDistrictStats UTC strict startA endA startB endB data op
    = (Returns s, op') ->
  (forall d c, s !! d = Some c -> countC c = countA c + countB c)
  /\ exists stats,
       forEach UTC strict startA endA startB endB data ∅ op = (Returns stats, op')
       /\ (forall d c, stats !! d = Some c -> countC c = 0)
       /\ s = (recompute <$> stats).
Proof.
  intros Hs. split.
  - intros d c. rewrite (stats_entry _ _ _ _ d Hs).
    case_decide; [|done]. by intros [= <-].
  - destruct (calculate_spec data op) as (stats & Hloop & Hcalc & Hstats).
    rewrite Hcalc in Hs. injection Hs as Hs <-.
    exists stats. split; [done|]. split.
    + intros d c. rewrite Hstats. case_decide; [|done]. by intros [= <-].
    + by apply for_in_Returns in Hs.
Qed.

(** What a record adds to the result when it is put into the list.  Under
    an ordinary name its district is listed, with the counter of the
    record's window higher by one.  Under the name of a member of
    [Object.prototype] the record changes nothing: it is counted
    nowhere. *)
Lemma counters_with_record (pre post : list StationData) (item : StationData)
    (op op1 op0 : prototype) (s1 s0 : gmap (list N) counts) (d : jsstring) :
  calculateYearlyDistrictStats UTC strict startA endA startB endB
    (pre ++ item :: post) op = (Returns s1, op1) ->
  calculateYearlyDistrictStats UTC strict startA endA startB endB
    (pre ++ post) op = (Returns s0, op0) ->
  district_of item = Some d ->
  (d ∉ Object_prototype_keys ->
     is_Some (s1 !! d)
     /\ countA_of s1 d = countA_of s0 d + (if decide (window_of item = InA) then 1 else 0)
     /\ countB_of s1 d = countB_of s0 d + (if decide (window_of item = InB) then 1 else 0))
  /\ (d ∈ Object_prototype_keys -> s1 = s0).
Proof.
  intros Hs1 Hs0 Hd. split.
  - intros Hord. split.
    { rewrite (stats_entry _ _ _ _ d Hs1). rewrite decide_True; [by eexists|].
      split; [done|]. unfold mentioned. rewrite Exists_app, Exists_cons. tauto. }
    destruct (counters_of _ _ _ _ d Hs1 Hord) as [-> ->].
    destruct (counters_of _ _ _ _ d Hs0 Hord) as [-> ->].
    rewrite !tally_app, !tally_cons.
    split; case_decide as Hw.
    + rewrite bool_decide_eq_true_2 by done. lia.
    + rewrite bool_decide_eq_false_2 by (by intros [_ ?]). lia.
    + rewrite bool_decide_eq_true_2 by done. lia.
    + rewrite bool_decide_eq_false_2 by (by intros [_ ?]). lia.
  - intros Hin. apply map_eq. intros d'.
    rewrite (stats_entry _ _ _ _ d' Hs1), (stats_entry _ _ _ _ d' Hs0).
    destruct (decide (d' = d)) as [->|Hne].
    + rewrite !decide_False; [done| |]; by intros [? _].
    + assert (Hm : mentioned d' (pre ++ item :: post) <-> mentioned d' (pre ++ post)).
      { unfold mentioned. rewrite !Exists_app, Exists_cons.
        split; [|tauto]. intros [?|[?|?]]; [tauto| |tauto]. congruence. }
      rewrite !tally_app, !tally_cons.
      rewrite !bool_decide_eq_false_2 by (intros [? _]; congruence).
      repeat case_decide; try done; tauto.
Qed.

(** A record called "toString" is counted nowhere, whatever its date and
    wherever the windows lie: [stats["toString"]] is the function that
    [stats] inherits, no triple is made for the name, and the pass returns
    the empty statistics. *)
Lemma calculate_on_toString (date : value) :
  calculateYearlyDistrictStats UTC strict startA endA startB endB
    [mkStation (JSString (str "toString")) date] pristine
  = (Returns ∅, pristine).
Proof.
  destruct (calculate_spec [mkStation (JSString (str "toString")) date] pristine)
    as (stats & _ & -> & Hstats).
  assert (Hempty : stats = ∅).
  { apply map_eq. intros d. rewrite Hstats, lookup_empty.
    case_decide as H; [|done]. destruct H as [Hd Hm].
    apply Exists_cons in Hm as [Hm|Hm%Exists_nil]; [|done].
    injection Hm as <-. exfalso. apply Hd. set_solver. }
  subst stats.
  assert (Hop : taints [mkStation (JSString (str "toString")) date] pristine = pristine).
  { assert (Hm : ~ mentioned (str "__proto__")
                     [mkStation (JSString (str "toString")) date]).
    { intros [Hm|Hm%Exists_nil]%Exists_cons; [|done]. by injection Hm. }
    by rewrite taints_spec, !tally_not_mentioned. }
  rewrite Hop. unfold for_in. simpl. rewrite andb_false_r.
  by rewrite fmap_empty.
Qed.

(** C4.  A record whose date lies in window A and in window B is never
    counted under B: compared with the same pass without the record,
    countB is the same for every district, and so is the entry of every
    district but the record's.  Under an ordinary name the record is
    counted under A: its district is listed and its countA is higher by
    one.  Under the name of a member of [Object.prototype] it is counted
    under neither window: the pass returns what it returns without the
    record, and on a record called "toString" alone it returns the empty
    statistics, wherever the windows lie. *)
Theorem C4_window_A_takes_priority :
  (forall (pre post : list StationData) (item : StationData) (itemDate : Date)
          (op op1 op0 : prototype) (s1 s0 : gmap (list N) counts),
      rocToGregorian UTC (本次檢查 item) = Some itemDate ->
      date_ge itemDate startA = true -> date_le itemDate endA = true ->
      date_ge itemDate startB = true -> date_le itemDate endB = true ->
      calculateYearlyDistrictStats UTC strict startA endA startB endB
        (pre ++ item :: post) op = (Returns s1, op1) ->
      calculateYearlyDistrictStats UTC strict startA endA startB endB
        (pre ++ post) op = (Returns s0, op0) ->
      (forall d, countB_of s1 d = countB_of s0 d)
      /\ (forall d, district_of item = Some d -> d ∉ Object_prototype_keys ->
                    is_Some (s1 !! d) /\ countA_of s1 d = countA_of s0 d + 1)
      /\ (forall d, district_of item = Some d -> d ∈ Object_prototype_keys ->
                    s1 = s0)
      /\ (forall d, district_of item <> Some d -> s1 !! d = s0 !! d))
  /\ (forall date : value,
        calculateYearlyDistrictStats UTC strict startA endA startB endB
          [mkStation (JSString (str "toString")) date] pristine
        = (Returns ∅, pristine)).
Proof.
  split.
  - intros pre post item itemDate op op1 op0 s1 s0 Hdate HA1 HA2 _ _ Hs1 Hs0.
    assert (Hw : window_of item = InA).
    { unfold window_of. by rewrite Hdate, HA1, HA2. }
    assert (HB : forall d, tally InB d (pre ++ item :: post) = tally InB d (pre ++ post)).
    { intros d. rewrite !tally_app, tally_cons, Hw.
      rewrite bool_decide_eq_false_2 by (by intros [_ ?]). lia. }
    split; [|split; [|split]].
    + intros d. destruct (decide (d ∈ Object_prototype_keys)) as [Hd|Hd].
      * unfold countB_of.
        by rewrite (counters_of_builtin _ _ _ _ _ Hs1 Hd),
                   (counters_of_builtin _ _ _ _ _ Hs0 Hd).
      * destruct (counters_of _ _ _ _ d Hs1 Hd) as [_ ->].
        destruct (counters_of _ _ _ _ d Hs0 Hd) as [_ ->]. apply HB.
    + intros d Hd Hord.
      destruct (counters_with_record _ _ _ _ _ _ _ _ d Hs1 Hs0 Hd) as [H _].
      destruct (H Hord) as (Hin & HA & _). split; [done|].
      rewrite HA. by rewrite decide_True.
    + intros d Hd Hin.
      destruct (counters_with_record _ _ _ _ _ _ _ _ d Hs1 Hs0 Hd) as [_ H].
      by apply H.
    + intros d Hd.
      rewrite (stats_entry _ _ _ _ d Hs1), (stats_entry _ _ _ _ d Hs0).
      assert (Hm : mentioned d (pre ++ item :: post) <-> mentioned d (pre ++ post)).
      { unfold mentioned. rewrite !Exists_app, Exists_cons. naive_solver. }
      rewrite !tally_app, !tally_cons.
      rewrite !bool_decide_eq_false_2 by (by intros [? _]).
      repeat case_decide; try done; naive_solver.
  - apply calculate_on_toString.
Qed.

(** C5.  The bounds of a window belong to it.  Under an ordinary name, a
    record dated at the end of window A, or at its start, is listed and
    counted under A; a record dated after the end of window A (the next
    day, say) is not counted under A, and it is counted under B exactly
    when its date lies between the bounds of window B, these included.
    Under the name of a member of [Object.prototype] a record is counted
    nowhere, whatever its date: the pass returns what it returns without
    the record, and on a record called "toString" alone it returns the
    empty statistics. *)
Theorem C5_window_bounds_are_inclusive :
  (forall (pre post : list StationData) (item : StationData) (itemDate : Date)
          (op op1 op0 : prototype) (s1 s0 : gmap (list N) counts) (d : jsstring),
      rocToGregorian UTC (本次檢查 item) = Some itemDate ->
      calculateYearlyDistrictStats UTC strict startA endA startB endB
        (pre ++ item :: post) op = (Returns s1, op1) ->
      calculateYearlyDistrictStats UTC strict startA endA startB endB
        (pre ++ post) op = (Returns s0, op0) ->
      district_of item = Some d ->
      (d ∉ Object_prototype_keys ->
         is_Some (s1 !! d)
         /\ (valueOf itemDate = valueOf endA -> date_ge itemDate startA = true ->
             countA_of s1 d = countA_of s0 d + 1 /\ countB_of s1 d = countB_of s0 d)
         /\ (valueOf itemDate = valueOf startA -> date_le itemDate endA = true ->
             countA_of s1 d = countA_of s0 d + 1 /\ countB_of s1 d = countB_of s0 d)
         /\ (forall t e, valueOf itemDate = Some t -> valueOf endA = Some e -> e < t ->
             countA_of s1 d = countA_of s0 d
             /\ countB_of s1 d = countB_of s0 d +
                  (if date_ge itemDate startB && date_le itemDate endB then 1 else 0)))
      /\ (d ∈ Object_prototype_keys -> s1 = s0))
  /\ (forall date : value,
        calculateYearlyDistrictStats UTC strict startA endA startB endB
          [mkStation (JSString (str "toString")) date] pristine
        = (Returns ∅, pristine)).
Proof.
  split.
  - intros pre post item itemDate op op1 op0 s1 s0 d Hdate Hs1 Hs0 Hd.
    destruct (counters_with_record _ _ _ _ _ _ _ _ d Hs1 Hs0 Hd) as [Hord Hin].
    split; [|done]. intros Hd'. destruct (Hord Hd') as (Hlisted & -> & ->).
    split; [done|]. unfold window_of. rewrite Hdate.
    split; [|split].
    + intros Hend Hge.
      assert (Hle : date_le itemDate endA = true).
      { unfold date_ge, date_le in *. rewrite <- Hend.
        destruct (valueOf itemDate); [|done]. apply Z.leb_refl. }
      rewrite Hge, Hle. simpl. lia.
    + intros Hstart Hle.
      assert (Hge : date_ge itemDate startA = true).
      { unfold date_ge, date_le in *. rewrite <- Hstart.
        destruct (valueOf itemDate); [|done]. apply Z.leb_refl. }
      rewrite Hge, Hle. simpl. lia.
    + intros t e Ht He Hlt.
      assert (Hle : date_le itemDate endA = false).
      { unfold date_le. rewrite Ht, He. apply Z.leb_gt. lia. }
      rewrite Hle, andb_false_r.
      destruct (date_ge itemDate startB && date_le itemDate endB); simpl; lia.
  - apply calculate_on_toString.
Qed.

(** C6.  The result lists a district exactly when some record names it
    with a truthy value and the name is not one that [stats] inherits from
    [Object.prototype]; a listed district none of whose records falls in a
    window has the triple (0, 0, 0).  A district called "toString" is
    never listed: [stats["toString"]] is the inherited function, which is
    truthy, so no triple is created for it. *)
Theorem C6_districts_listed :
  (forall data op op' s d,
      calculateYearlyDistrictStats UTC strict startA endA startB endB data op
        = (Returns s, op') ->
      (is_Some (s !! d) <-> mentioned d data /\ d ∉ Object_prototype_keys)
      /\ (is_Some (s !! d) ->
          Forall (fun item => district_of item = Some d -> window_of item = Outside) data ->
          s !! d = Some (mkCounts 0 0 0)))
  /\ calculateYearlyDistrictStats UTC strict startA endA startB endB
       [mkStation (JSString (str "toString")) (JSString (str "113/05/20"))] pristine
     = (Returns ∅, pristine).
Proof.
  split.
  - intros data op op' s d Hs. rewrite (stats_entry _ _ _ _ d Hs). split.
    + case_decide as H.
      * split; [intros _; by destruct H | by eauto].
      * split; [by intros [??] | intros [??]; by destruct H].
    + case_decide as H; [|by intros [??]]. intros _ Hall.
      assert (Hz : forall w, w <> Outside -> tally w d data = 0).
      { intros w Hw. apply tally_zero.
        eapply Forall_impl; [exact Hall|].
        intros item Hitem H1 H2. apply Hw. rewrite <- H2. by apply Hitem. }
      by rewrite !Hz.
  - destruct (calculate_spec
      [mkStation (JSString (str "toString")) (JSString (str "113/05/20"))] pristine)
      as (stats & _ & -> & Hstats).
    assert (Hempty : stats = ∅).
    { apply map_eq. intros d. rewrite Hstats, lookup_empty.
      case_decide as H; [|done]. destruct H as [Hd Hm].
      apply Exists_cons in Hm as [Hm|Hm%Exists_nil]; [|done].
      injection Hm as <-. exfalso. apply Hd. set_solver. }
    subst stats. unfold for_in. simpl. rewrite andb_false_r.
    by rewrite fmap_empty.
Qed.

(** Calling the function again, on the same arguments and in the state in
    which the first call has left [Object.prototype], gives the same
    outcome and leaves that state as it is. *)
Lemma calculate_twice (data : list StationData) (op : prototype) :
  let '(r1, op1) :=
    calculateYearlyDistrictStats UTC strict startA endA startB endB data op in
  let '(r2, op2) :=
    calculateYearlyDistrictStats UTC strict startA endA startB endB data op1 in
  r1 = r2 /\ op2 = op1.
Proof.
  destruct (calculate_spec data op) as (stats1 & _ & -> & H1).
  destruct (calculate_spec data (taints data op)) as (stats2 & _ & -> & H2).
  rewrite taints_idempotent. split; [|done].
  f_equal. apply map_eq. intros d. by rewrite H1, H2.
Qed.

End Aggregator.

(** * Properties of the completion pass *)

(** ** The order of strings *)

Lemma string_ltb_irrefl (a : jsstring) : string_ltb a a = false.
Proof.
  induction a as [|x a IH]; simpl; [done|].
  by rewrite N.ltb_irrefl.
Qed.

Lemma string_ltb_asym (a b : jsstring) :
  string_ltb a b = true -> string_ltb b a = false.
Proof.
  revert b. induction a as [|x a IH]; intros [|y b]; simpl; try done.
  destruct (x <? y)%N eqn:Hxy, (y <? x)%N eqn:Hyx; try done.
  - apply N.ltb_lt in Hxy, Hyx. lia.
  - apply IH.
Qed.

Lemma string_ltb_trichotomy (a b : jsstring) :
  string_ltb a b = false -> string_ltb b a = false -> a = b.
Proof.
  revert b. induction a as [|x a IH]; intros [|y b]; simpl; try done.
  destruct (x <? y)%N eqn:Hxy, (y <? x)%N eqn:Hyx; try done.
  apply N.ltb_ge in Hxy, Hyx. intros Ha Hb.
  f_equal; [lia | by apply IH].
Qed.

Lemma string_ltb_trans (a b c : jsstring) :
  string_ltb a b = true -> string_ltb b c = true -> string_ltb a c = true.
Proof.
  revert b c. induction a as [|x a IH]; intros [|y b] [|z c]; simpl; try done.
  destruct (x <? y)%N eqn:Hxy, (y <? x)%N eqn:Hyx,
           (y <? z)%N eqn:Hyz, (z <? y)%N eqn:Hzy; try done;
    rewrite ?N.ltb_lt, ?N.ltb_ge in *; intros Hab Hbc.
  all: try (replace (x <? z)%N with true by (symmetry; apply N.ltb_lt; lia); done).
  assert (x = z) as -> by lia. assert (y = z) as -> by lia.
  rewrite N.ltb_irrefl. by eapply IH.
Qed.

#[global] Instance string_le_total : Total string_le.
Proof.
  intros a b. unfold string_le.
  destruct (string_ltb b a) eqn:Hba; [|by left].
  right. by apply string_ltb_asym.
Qed.

#[global] Instance string_le_antisym : AntiSymm (=) string_le.
Proof. intros a b Hab Hba. by apply string_ltb_trichotomy. Qed.

#[global] Instance string_le_trans : Transitive string_le.
Proof.
  intros a b c Hab Hbc. unfold string_le in *.
  destruct (string_ltb c a) eqn:Hca; [|done].
  destruct (string_ltb a b) eqn:H1.
  - by rewrite (string_ltb_trans c a b) in Hbc.
  - assert (a = b) as -> by (by apply string_ltb_trichotomy). congruence.
Qed.

(** [sort] yields the own keys of the object in increasing order, each
    once, whatever the order in which [Object.keys] lists them. *)
Lemma sort_Permutation (keys : list jsstring) : sort keys ≡ₚ keys.
Proof. apply merge_sort_Permutation. Qed.

Lemma sort_sorted (keys : list jsstring) : StronglySorted string_le (sort keys).
Proof. apply StronglySorted_merge_sort; apply _. Qed.

Lemma sort_unique (keys keys' : list jsstring) :
  keys ≡ₚ keys' -> sort keys = sort keys'.
Proof.
  intros Hp. apply (StronglySorted_unique string_le); try apply sort_sorted.
  by rewrite !sort_Permutation.
Qed.

Lemma elem_of_sorted_keys (stats : gmap (list N) counts) (d : jsstring) :
  d ∈ sort (Object_keys stats) <-> is_Some (stats !! d).
Proof.
  rewrite sort_Permutation. unfold Object_keys.
  rewrite list_elem_of_fmap. split.
  - intros [[k c] [-> Hin]]. apply elem_of_map_to_list in Hin. by exists c.
  - intros [c Hc]. exists (d, c). split; [done|]. by apply elem_of_map_to_list.
Qed.

Lemma sorted_keys_strict (stats : gmap (list N) counts) :
  StronglySorted (fun a b => string_ltb a b = true) (sort (Object_keys stats)).
Proof.
  assert (Hnd : NoDup (sort (Object_keys stats))).
  { rewrite sort_Permutation. apply NoDup_fst_map_to_list. }
  pose proof (sort_sorted (Object_keys stats)) as Hs.
  induction Hs as [|a l Hs IH Hall]; [constructor|].
  apply NoDup_cons in Hnd as [Ha Hnd].
  constructor; [by apply IH|].
  apply Forall_forall. intros b Hb.
  rewrite Forall_forall in Hall. specialize (Hall b Hb). unfold string_le in Hall.
  destruct (string_ltb a b) eqn:Hab; [done|].
  assert (a = b) as -> by (by apply string_ltb_trichotomy). done.
Qed.

Lemma StronglySorted_filter {A} (R : relation A) (P : A -> Prop)
    `{forall x, Decision (P x)} (l : list A) :
  StronglySorted R l -> StronglySorted R (filter P l).
Proof.
  induction 1 as [|x l Hs IH Hall]; [constructor|].
  rewrite filter_cons. case_decide; [|done].
  constructor; [done|].
  apply Forall_forall. intros y [_ Hy]%list_elem_of_filter.
  rewrite Forall_forall in Hall. by apply Hall.
Qed.

(** ** Numbers *)

(** A number that is greater than 0 is truthy. *)
Lemma positive_truthy (t : float) : (0 <? t)%float = true -> number_truthy t = true.
Proof.
  unfold number_truthy, is_zero, is_nan.
  rewrite FloatAxioms.ltb_spec, !FloatAxioms.eqb_spec.
  change (Prim2SF 0) with (S754_zero false).
  change (Prim2SF zero) with (S754_zero false).
  destruct (Prim2SF t) as [[]| [] | | [] m e]; simpl; try done.
  all: unfold SFeqb, SFcompare; simpl. 
  all: try rewrite Z.compare_refl; try rewrite Pos.compare_refl; simpl; try done.
Qed.

(** ** The completion pass *)

(** The state of [renderCompletionVisuals] after its loop over the sorted
    districts: [completionData], [totalC], [totalTarget]. *)
Definition completion_loop (stats : gmap (list N) counts)
    (targets : gmap (list N) float) : list CompletionEntry * float * float :=
  fold_left (accumulate stats targets) (sort (Object_keys stats))
            ([], 0%float, 0%float).

Lemma renderCompletionVisuals_unfold (stats : gmap (list N) counts)
    (targets : gmap (list N) float) :
  renderCompletionVisuals stats targets =
  let '(completionData, totalC, totalTarget) := completion_loop stats targets in
  completionData ++
    (if (0 <? totalTarget)%float
     then [mkEntry aggregate_label (totalC / totalTarget * 100)%float]
     else []).
Proof.
  unfold renderCompletionVisuals, completion_loop.
  destruct (fold_left _ _ _) as [[cd tc] tt].
  destruct (0 <? tt)%float; [done|]. by rewrite app_nil_r.
Qed.

(** A district qualifies when [targets] holds a number greater than 0 for
    it. *)
Definition qualifies (targets : gmap (list N) float) (d : jsstring) : bool :=
  match targets !! d with
  | Some target => (0 <? target)%float
  | None => false
  end.

Definition countC_of (stats : gmap (list N) counts) (d : jsstring) : float :=
  number (default 0 (countC <$> stats !! d)).

Definition target_of (targets : gmap (list N) float) (d : jsstring) : float :=
  default 0%float (targets !! d).

(** A sum of numbers, taken from left to right as the loop does. *)
Definition float_sum (xs : list float) : float :=
  fold_left PrimFloat.add xs 0%float.

Definition completion_entry (stats : gmap (list N) counts)
    (targets : gmap (list N) float) (d : jsstring) : CompletionEntry :=
  mkEntry d (countC_of stats d / target_of targets d * 100)%float.

Lemma accumulate_fold (stats : gmap (list N) counts) (targets : gmap (list N) float)
    (ds : list jsstring) (cd : list CompletionEntry) (tc tt : float) :
  Forall (fun d => is_Some (stats !! d)) ds ->
  fold_left (accumulate stats targets) ds (cd, tc, tt) =
  (cd ++ (completion_entry stats targets <$> filter (fun d => qualifies targets d = true) ds),
   fold_left PrimFloat.add (countC_of stats <$> filter (fun d => qualifies targets d = true) ds) tc,
   fold_left PrimFloat.add (target_of targets <$> filter (fun d => qualifies targets d = true) ds) tt).
Proof.
  intros Hds. revert cd tc tt.
  induction Hds as [|d ds [c Hc] _ IH]; intros cd tc tt; simpl.
  - by rewrite app_nil_r.
  - rewrite filter_cons. rewrite Hc.
    destruct (qualifies targets d) eqn:Hq; unfold qualifies in Hq.
    + destruct (targets !! d) as [t|] eqn:Ht; [|done].
      rewrite (positive_truthy t Hq), Hq. simpl.
      rewrite IH, <- app_assoc. simpl.
      unfold completion_entry at 2, countC_of at 2 4, target_of at 2 4.
      by rewrite Hc, Ht.
    + rewrite decide_False by done.
      destruct (targets !! d) as [t|] eqn:Ht; [|apply IH].
      rewrite Hq, andb_false_r. apply IH.
Qed.

(** The districts that get an entry, in the order of the output. *)
Definition qualifying (stats : gmap (list N) counts)
    (targets : gmap (list N) float) : list jsstring :=
  filter (fun d => qualifies targets d = true) (sort (Object_keys stats)).

Lemma completion_loop_spec (stats : gmap (list N) counts)
    (targets : gmap (list N) float) :
  completion_loop stats targets =
  (completion_entry stats targets <$> qualifying stats targets,
   float_sum (countC_of stats <$> qualifying stats targets),
   float_sum (target_of targets <$> qualifying stats targets)).
Proof.
  unfold completion_loop. rewrite accumulate_fold; [done|].
  apply Forall_forall. intros d. by rewrite elem_of_sorted_keys.
Qed.

Lemma elem_of_qualifying (stats : gmap (list N) counts)
    (targets : gmap (list N) float) (d : jsstring) :
  d ∈ qualifying stats targets <->
  is_Some (stats !! d) /\ exists t, targets !! d = Some t /\ (0 <? t)%float = true.
Proof.
  unfold qualifying. rewrite list_elem_of_filter, elem_of_sorted_keys.
  unfold qualifies. destruct (targets !! d) as [t|]; naive_solver.
Qed.

(** C7.  The entries that the loop of the completion pass produces are
    those of the districts whose target is a number greater than 0, each
    with the percentage countC / target * 100 in floating-point
    arithmetic.  A district whose target is absent, zero, negative or NaN
    gets no entry, so no division by such a target takes place.  With 40
    counted for "North" and a target of 50 the output is the entry
    ("North", 80) followed by the aggregate entry with 80; with a target
    of 0 the output is empty. *)
Theorem C7_percentage_per_district :
  (forall (stats : gmap (list N) counts) (targets : gmap (list N) float),
      let completionData := (completion_loop stats targets).1.1 in
      (forall d c t,
          stats !! d = Some c -> targets !! d = Some t -> (0 <? t)%float = true ->
          mkEntry d (number (countC c) / t * 100)%float ∈ completionData)
      /\ (forall e, e ∈ completionData ->
            exists c t,
              stats !! key e = Some c /\ targets !! key e = Some t
              /\ (0 <? t)%float = true
              /\ percentage e = (number (countC c) / t * 100)%float)
      /\ (forall d, qualifies targets d = false ->
            forall e, e ∈ completionData -> key e <> d)
      /\ exists aggregate,
           renderCompletionVisuals stats targets = completionData ++ aggregate
           /\ forall e, e ∈ aggregate -> key e = aggregate_label)
  /\ (forall a b : Z,
        renderCompletionVisuals {[ str "North" := mkCounts a b 40 ]}
                                {[ str "North" := 50%float ]}
        = [mkEntry (str "North") 80%float; mkEntry aggregate_label 80%float])
  /\ (forall a b : Z,
        renderCompletionVisuals {[ str "North" := mkCounts a b 40 ]}
                                {[ str "North" := 0%float ]}
        = []).
Proof.
  split; [|split; intros a b; vm_compute; reflexivity].
  intros stats targets. rewrite renderCompletionVisuals_unfold.
  rewrite completion_loop_spec. simpl.
  split; [|split; [|split]].
  - intros d c t Hc Ht Hpos.
    apply list_elem_of_fmap. exists d. split.
    + unfold completion_entry, countC_of, target_of. by rewrite Hc, Ht.
    + apply elem_of_qualifying. eauto.
  - intros e [d [-> Hd]]%list_elem_of_fmap.
    apply elem_of_qualifying in Hd as [[c Hc] (t & Ht & Hpos)].
    exists c, t. simpl. unfold countC_of, target_of. by rewrite Hc, Ht.
  - intros d Hq e [d' [-> Hd']]%list_elem_of_fmap. simpl. intros ->.
    apply elem_of_qualifying in Hd' as [_ (t & Ht & Hpos)].
    unfold qualifies in Hq. rewrite Ht in Hq. congruence.
  - eexists. split; [done|].
    intros e. case_match; [|by intros ?%elem_of_nil].
    by intros ->%list_elem_of_singleton.
Qed.

(** C8 as amended.  The output of the completion pass is the entries of
    the qualifying districts, in increasing order of their names,
    followed by one aggregate entry when the sum of their targets is
    greater than 0, and by nothing otherwise.  The aggregate entry has the
    percentage (sum of countC / sum of targets) * 100, the sums being
    taken over the qualifying districts, and the fixed label
    [aggregate_label]; that label differs from the label of every other
    entry when no district bears it as its name. *)
Theorem C8_aggregate_entry_is_last (stats : gmap (list N) counts)
    (targets : gmap (list N) float) :
  let ds := qualifying stats targets in
  let totalC := float_sum (countC_of stats <$> ds) in
  let totalTarget := float_sum (target_of targets <$> ds) in
  renderCompletionVisuals stats targets =
    (completion_entry stats targets <$> ds) ++
    (if (0 <? totalTarget)%float
     then [mkEntry aggregate_label (totalC / totalTarget * 100)%float]
     else [])
  /\ StronglySorted (fun a b => string_ltb a b = true) ds
  /\ (forall d, d ∈ ds <-> is_Some (stats !! d) /\ qualifies targets d = true)
  /\ (stats !! aggregate_label = None ->
      forall d, d ∈ ds -> key (completion_entry stats targets d) <> aggregate_label).
Proof.
  intros ds totalC totalTarget. split; [|split; [|split]].
  - rewrite renderCompletionVisuals_unfold, completion_loop_spec. done.
  - unfold ds, qualifying. apply StronglySorted_filter, sorted_keys_strict.
  - intros d. unfold ds, qualifying.
    by rewrite list_elem_of_filter, elem_of_sorted_keys, (comm and).
  - intros Hnone d Hd. simpl. intros ->.
    apply elem_of_qualifying in Hd as [[c Hc] _]. congruence.
Qed.

(** * Instances *)

(** A record with the given district and inspection date. *)
Definition station (district date : string) : StationData :=
  mkStation (JSString (str district)) (JSString (str date)).

(** Windows on a host in the UTC time zone: A from 1 January 2024 to
    20 May 2024, B from 21 May 2024 to 30 June 2024, and a window that
    overlaps A, from 1 May 2024 to 30 June 2024. *)
Definition jan01 : Date := new_Date utc0 2024 0 1.
Definition may20 : Date := new_Date utc0 2024 4 20.
Definition may21 : Date := new_Date utc0 2024 4 21.
Definition jun30 : Date := new_Date utc0 2024 5 30.
Definition may01 : Date := new_Date utc0 2024 4 1.

Lemma C1_witness :
  let s : gmap (list N) counts :=
    <[str "North" := mkCounts 1 1 2]> (<[str "South" := mkCounts 0 0 0]> ∅) in
  calculateYearlyDistrictStats utc0 true jan01 may20 may21 jun30
    [station "North" "113/05/20"; station "North" "113/05/21";
     station "South" "abc"; station "" "113/05/20"] pristine
  = (Returns s, pristine)
  /\ forall d c, s !! d = Some c -> countC c = countA c + countB c.
Proof.
  intros s.
  assert (H : calculateYearlyDistrictStats utc0 true jan01 may20 may21 jun30
    [station "North" "113/05/20"; station "North" "113/05/21";
     station "South" "abc"; station "" "113/05/20"] pristine
  = (Returns s, pristine)) by (vm_compute; reflexivity).
  split; [exact H|].
  exact (proj1 (C1_countC_is_countA_plus_countB utc0 true jan01 may20 may21 jun30
                  _ _ _ _ H)).
Defined.

(** "North" is not the name of a member of [Object.prototype]. *)
Lemma North_is_ordinary : str "North" ∉ Object_prototype_keys.
Proof. apply (bool_decide_unpack _). vm_compute. exact I. Qed.

Lemma C4_witness :
  let s1 : gmap (list N) counts := <[str "North" := mkCounts 2 0 2]> ∅ in
  let s0 : gmap (list N) counts := <[str "North" := mkCounts 1 0 1]> ∅ in
  calculateYearlyDistrictStats utc0 true jan01 may20 may01 jun30
    [station "North" "113/02/01"; station "North" "113/05/10"] pristine
  = (Returns s1, pristine)
  /\ calculateYearlyDistrictStats utc0 true jan01 may20 may01 jun30
       [station "North" "113/02/01"] pristine
     = (Returns s0, pristine)
  /\ countB_of s1 (str "North") = countB_of s0 (str "North")
  /\ (is_Some (s1 !! str "North")
      /\ countA_of s1 (str "North") = countA_of s0 (str "North") + 1)
  /\ calculateYearlyDistrictStats utc0 true jan01 may20 may01 jun30
       [station "toString" "113/05/10"] pristine
     = (Returns ∅, pristine).
Proof.
  intros s1 s0.
  assert (H1 : calculateYearlyDistrictStats utc0 true jan01 may20 may01 jun30
    ([station "North" "113/02/01"] ++ station "North" "113/05/10" :: []) pristine
    = (Returns s1, pristine)) by (vm_compute; reflexivity).
  assert (H0 : calculateYearlyDistrictStats utc0 true jan01 may20 may01 jun30
    ([station "North" "113/02/01"] ++ []) pristine
    = (Returns s0, pristine)) by (vm_compute; reflexivity).
  destruct (C4_window_A_takes_priority utc0 true jan01 may20 may01 jun30)
    as [Hrecord HtoString].
  destruct (Hrecord [station "North" "113/02/01"] [] (station "North" "113/05/10")
              (new_Date utc0 2024 4 10) pristine pristine pristine s1 s0
              eq_refl eq_refl eq_refl eq_refl eq_refl H1 H0) as (HB & HA & _).
  split; [exact H1|]. split; [exact H0|]. split; [apply HB|].
  split; [|apply HtoString].
  apply HA; [reflexivity | exact North_is_ordinary].
Defined.

Lemma C5_witness :
  let s0 : gmap (list N) counts := <[str "North" := mkCounts 1 0 1]> ∅ in
  let at_end : gmap (list N) counts := <[str "North" := mkCounts 2 0 2]> ∅ in
  let next_day : gmap (list N) counts := <[str "North" := mkCounts 1 1 2]> ∅ in
  calculateYearlyDistrictStats utc0 true jan01 may20 may21 jun30
    [station "North" "113/02/01"] pristine
  = (Returns s0, pristine)
  /\ calculateYearlyDistrictStats utc0 true jan01 may20 may21 jun30
       [station "North" "113/02/01"; station "North" "113/05/20"] pristine
     = (Returns at_end, pristine)
  /\ calculateYearlyDistrictStats utc0 true jan01 may20 may21 jun30
       [station "North" "113/02/01"; station "North" "113/05/21"] pristine
     = (Returns next_day, pristine)
  /\ (countA_of at_end (str "North") = countA_of s0 (str "North") + 1
      /\ countB_of at_end (str "North") = countB_of s0 (str "North"))
  /\ (countA_of next_day (str "North") = countA_of s0 (str "North")
      /\ countB_of next_day (str "North") = countB_of s0 (str "North") + 1)
  /\ calculateYearlyDistrictStats utc0 true jan01 may20 may21 jun30
       [station "toString" "113/05/20"] pristine
     = (Returns ∅, pristine).
Proof.
  intros s0 at_end next_day.
  assert (H0 : calculateYearlyDistrictStats utc0 true jan01 may20 may21 jun30
    ([station "North" "113/02/01"] ++ []) pristine
    = (Returns s0, pristine)) by (vm_compute; reflexivity).
  assert (H1 : calculateYearlyDistrictStats utc0 true jan01 may20 may21 jun30
    ([station "North" "113/02/01"] ++ station "North" "113/05/20" :: []) pristine
    = (Returns at_end, pristine)) by (vm_compute; reflexivity).
  assert (H2 : calculateYearlyDistrictStats utc0 true jan01 may20 may21 jun30
    ([station "North" "113/02/01"] ++ station "North" "113/05/21" :: []) pristine
    = (Returns next_day, pristine)) by (vm_compute; reflexivity).
  pose proof North_is_ordinary as Hord.
  destruct (C5_window_bounds_are_inclusive utc0 true jan01 may20 may21 jun30)
    as [Hrecord HtoString].
  split; [exact H0|]. split; [exact H1|]. split; [exact H2|].
  split; [|split; [|apply HtoString]].
  - destruct (Hrecord [station "North" "113/02/01"] [] (station "North" "113/05/20")
                (new_Date utc0 2024 4 20) pristine pristine pristine at_end s0
                (str "North") eq_refl H1 H0 eq_refl) as [H _].
    destruct (H Hord) as (_ & Hend & _ & _).
    apply Hend; reflexivity.
  - destruct (Hrecord [station "North" "113/02/01"] [] (station "North" "113/05/21")
                (new_Date utc0 2024 4 21) pristine pristine pristine next_day s0
                (str "North") eq_refl H2 H0 eq_refl) as [H _].
    destruct (H Hord) as (_ & _ & _ & Hnext).
    apply (Hnext (19864 * msPerDay) (19863 * msPerDay));
      [reflexivity | reflexivity | reflexivity].
Defined.

Lemma C6_witness :
  let s : gmap (list N) counts :=
    <[str "North" := mkCounts 1 0 1]> (<[str "South" := mkCounts 0 0 0]> ∅) in
  (is_Some (s !! str "South") <->
     mentioned (str "South")
       [station "North" "113/05/20"; station "South" "abc"; station "South" "100/01/01"]
     /\ str "South" ∉ Object_prototype_keys)
  /\ s !! str "South" = Some (mkCounts 0 0 0).
Proof.
  intros s.
  destruct (C6_districts_listed utc0 true jan01 may20 may21 jun30) as [H _].
  destruct (H [station "North" "113/05/20"; station "South" "abc";
               station "South" "100/01/01"]
              pristine pristine s (str "South")) as [H1 H2];
    [vm_compute; reflexivity|].
  split; [exact H1|].
  apply H2; [by eexists|].
  repeat constructor; intros Hd; try reflexivity; discriminate Hd.
Defined.

(** The statistics of a data set in which a district is called by the
    label of the aggregate entry. *)
Definition labelled_stats : gmap (list N) counts :=
  <[aggregate_label := mkCounts 1 0 1]> ∅.

(** The label of the aggregate entry is the name of a district. *)
Lemma C8_counterexample :
  calculateYearlyDistrictStats utc0 true jan01 may20 may21 jun30
    [mkStation (JSString aggregate_label) (JSString (str "113/05/20"))] pristine
  = (Returns labelled_stats, pristine)
  /\ renderCompletionVisuals labelled_stats {[ aggregate_label := 1%float ]}
     = [mkEntry aggregate_label 100%float; mkEntry aggregate_label 100%float].
Proof. split; vm_compute; reflexivity. Qed.

Lemma C8_witness :
  let stats : gmap (list N) counts :=
    <[str "North" := mkCounts 40 0 40]> (<[str "East" := mkCounts 1 2 3]> ∅) in
  let targets : gmap (list N) float :=
    <[str "North" := 50%float]> (<[str "East" := 6%float]> ∅) in
  renderCompletionVisuals stats targets =
    [mkEntry (str "East") 50%float; mkEntry (str "North") 80%float;
     mkEntry aggregate_label (43 / 56 * 100)%float]
  /\ forall d, d ∈ qualifying stats targets ->
       key (completion_entry stats targets d) <> aggregate_label.
Proof.
  intros stats targets.
  destruct (C8_aggregate_entry_is_last stats targets) as (Hout & _ & _ & Hlabel).
  split.
  - rewrite Hout. vm_compute. reflexivity.
  - apply Hlabel. vm_compute. reflexivity.
Defined.

(** * The pass on a store of objects

    To tell which objects the classification pass writes, the objects are
    given an identity.  A store maps locations to objects; the array
    [data] holds references to record objects, the four bounds are
    references to [Date] objects, and the object [stats] maps each of its
    own keys to a reference to a triple.  [Object.prototype] and the
    functions it carries exist before the pass runs; the pass reaches them
    by name, through [stats]. *)

(** The functions of the value model, under names that the definitions of
    the module below do not hide. *)
Abbreviation value_increment := increment (only parsing).
Abbreviation value_classify := classify (only parsing).
Abbreviation value_forEach := forEach (only parsing).
Abbreviation value_for_in := for_in (only parsing).
Abbreviation value_calculateYearlyDistrictStats :=
  calculateYearlyDistrictStats (only parsing).

Module Store.

Abbreviation loc := positive (only parsing).

Inductive object :=
  | StationObject (r : StationData)
  | DateObject (d : Date)
  | TripleObject (c : counts)   (* made by the literal { countA: 0, countB: 0, countC: 0 } *)
  | Touched.                    (* any other object, once the engine has stored a property in it *)

Abbreviation store := (gmap positive object) (only parsing).

(** The objects that the pass can read and write.
    - [heap]: the objects that are reached by reference, which are the
      records, the dates and the triples.
    - [Object_prototype]: the properties that [Object.prototype] has
      acquired.
    - [members]: the properties that the functions of [Object.prototype]
      have acquired, by the name under which [Object.prototype] carries
      the function ([toString], [constructor], ...).  The only properties
      the engine can store on a function are [countA] and [countB], with
      the value NaN; a name that the map does not hold stands for a
      function as the browser has made it. *)
Record world := mkWorld {
  heap : store;
  Object_prototype : prototype;
  members : gmap (list N) prototype
}.

Definition member (ms : gmap (list N) prototype) (name : jsstring) : prototype :=
  default pristine (ms !! name).

(** [item[f]]: an object that is not a record has no such property. *)
Definition field (f : StationData -> value) (h : store) (l : loc) : value :=
  match h !! l with
  | Some (StationObject r) => f r
  | _ => JSUndefined
  end.

(** The [Date] behind a reference; what is not a [Date] compares as NaN. *)
Definition date_at (h : store) (l : loc) : Date :=
  match h !! l with
  | Some (DateObject d) => d
  | _ => mkDate None
  end.

(** Storing a counter in the object at [l]. *)
Definition store_counter (g : counts -> counts) (l : loc) (h : store) : store :=
  match h !! l with
  | Some (TripleObject c) => <[l := TripleObject (g c)]> h
  | Some _ => <[l := Touched]> h
  | None => h
  end.

Section Host.

Variable UTC : Z -> Z.
Variable strict : bool.

(** [stats[key].countA++] and [stats[key].countB++]: the write goes to the
    object that [stats[key]] refers to.
    - An own key refers to a triple of the heap.
    - [__proto__] refers to [Object.prototype], which acquires the
      property.
    - Any other name of [Object.prototype] refers to the function of that
      name, which acquires the property: [stats["toString"].countA++]
      stores [countA = NaN] on [Object.prototype.toString].
    - NaN is a primitive and [undefined] has no properties: nothing is
      written. *)
Definition increment (f : counter) (key : jsstring)
    (stats : gmap (list N) positive) (w : world) : result unit * world :=
  match Get stats (Object_prototype w) key with
  | Own l =>
      (Returns tt,
       mkWorld (store_counter (bump f) l (heap w)) (Object_prototype w) (members w))
  | Builtin =>
      (Returns tt,
       if bool_decide (key = str "__proto__")
       then mkWorld (heap w) (pollute f (Object_prototype w)) (members w)
       else mkWorld (heap w) (Object_prototype w)
              (<[key := pollute f (member (members w) key)]> (members w)))
  | InheritedNaN => (if strict then TypeError else Returns tt, w)
  | Undefined => (TypeError, w)
  end.

Section Windows.

Variables startA endA startB endB : loc.

(** The callback of [data.forEach]; [item] is a reference. *)
Definition classify (item : loc) (stats : gmap (list N) positive) (w : world)
  : result (gmap (list N) positive) * world :=
  let district := field 轄區 (heap w) item in
  if negb (truthy district) then (Returns stats, w)
  else
    let key := property_key district in
    let '(stats, w) :=
      if negb (property_truthy (Get stats (Object_prototype w) key))
      then let l := fresh (dom (heap w)) in
           (<[key := l]> stats,
            mkWorld (<[l := TripleObject (mkCounts 0 0 0)]> (heap w))
                    (Object_prototype w) (members w))
      else (stats, w) in
    match rocToGregorian UTC (field 本次檢查 (heap w) item) with
    | None => (Returns stats, w)
    | Some itemDate =>
        if date_ge itemDate (date_at (heap w) startA)
           && date_le itemDate (date_at (heap w) endA)
        then match increment CountA key stats w with
             | (Returns _, w') => (Returns stats, w')
             | (TypeError, w') => (TypeError, w')
             end
        else if date_ge itemDate (date_at (heap w) startB)
                && date_le itemDate (date_at (heap w) endB)
        then match increment CountB key stats w with
             | (Returns _, w') => (Returns stats, w')
             | (TypeError, w') => (TypeError, w')
             end
        else (Returns stats, w)
    end.

Fixpoint forEach (data : list loc) (stats : gmap (list N) positive) (w : world)
  : result (gmap (list N) positive) * world :=
  match data with
  | [] => (Returns stats, w)
  | item :: data' =>
      match classify item stats w with
      | (Returns stats', w') => forEach data' stats' w'
      | (TypeError, w') => (TypeError, w')
      end
  end.

(** The final loop: the sum is stored in the object behind each own key. *)
Definition for_in (stats : gmap (list N) positive) (w : world)
  : result (gmap (list N) positive) * world :=
  if strict && negb (bool_decide (inherited_enumerable stats (Object_prototype w) = []))
  then (TypeError, w)
  else (Returns stats,
        mkWorld (foldr (store_counter recompute) (heap w) (map_to_list stats).*2)
                (Object_prototype w) (members w)).

Definition calculateYearlyDistrictStats (data : list loc) (w : world)
  : result (gmap (list N) positive) * world :=
  match forEach data ∅ w with
  | (Returns stats, w') => for_in stats w'
  | (TypeError, w') => (TypeError, w')
  end.

End Windows.
End Host.

(** The triple behind a reference. *)
Definition triple_at (h : store) (l : loc) : option counts :=
  match h !! l with
  | Some (TripleObject c) => Some c
  | _ => None
  end.

(** The content of a [stats] object: what a structural comparison sees. *)
Definition snapshot (h : store) (stats : gmap (list N) positive)
  : gmap (list N) counts :=
  omap (triple_at h) stats.


(** ** The store model against the value model *)

(** The record that the value model sees behind a reference. *)
Definition station_at (h : store) (l : loc) : StationData :=
  mkStation (field 轄區 h l) (field 本次檢查 h l).

(** [h] has grown out of [h0] by allocating triples and writing to them:
    an object of [h0] is as it was, and what [h] holds beyond [h0] is
    triples. *)
Definition extends (h0 h : store) : Prop :=
  forall l, h !! l = h0 !! l
            \/ (h0 !! l = None /\ exists c, h !! l = Some (TripleObject c)).

Lemma extends_refl (h : store) : extends h h.
Proof. intros l. by left. Qed.

Lemma extends_trans (h0 h1 h2 : store) :
  extends h0 h1 -> extends h1 h2 -> extends h0 h2.
Proof.
  intros H01 H12 l.
  destruct (H12 l) as [->|[H1 [c Hc]]]; [apply H01|].
  right. destruct (H01 l) as [<-|[H0 _]]; by eauto.
Qed.

Lemma extends_field (f : StationData -> value) (h0 h : store) (l : loc) :
  extends h0 h -> field f h l = field f h0 l.
Proof.
  intros Hext. unfold field.
  destruct (Hext l) as [->|[-> [c ->]]]; done.
Qed.

Lemma extends_date_at (h0 h : store) (l : loc) :
  extends h0 h -> date_at h l = date_at h0 l.
Proof.
  intros Hext. unfold date_at.
  destruct (Hext l) as [->|[-> [c ->]]]; done.
Qed.

Lemma extends_station_at (h0 h : store) (l : loc) :
  extends h0 h -> station_at h l = station_at h0 l.
Proof. intros Hext. unfold station_at. by rewrite !(extends_field _ h0 h). Qed.

(** No object of [h0] is written. *)
Lemma extends_frame (h0 h : store) (l : loc) :
  extends h0 h -> is_Some (h0 !! l) -> h !! l = h0 !! l.
Proof.
  intros Hext [o Ho]. destruct (Hext l) as [?|[? _]]; congruence.
Qed.

(** The object [stats] of the store model stands for the map [s] of the
    value model: same keys, each key bound to a triple of its own, which
    was allocated after [h0] and holds the counters that [s] holds. *)
Record represents (h0 : store) (stats : gmap (list N) positive) (h : store)
    (s : gmap (list N) counts) : Prop := {
  rep_extends : extends h0 h;
  rep_lookup : forall key, s !! key = stats !! key ≫= triple_at h;
  rep_triple : forall key l, stats !! key = Some l ->
                 h0 !! l = None /\ is_Some (triple_at h l);
  rep_inj : forall k1 k2 l, stats !! k1 = Some l -> stats !! k2 = Some l -> k1 = k2
}.

Lemma represents_empty (h0 : store) : represents h0 ∅ h0 ∅.
Proof.
  split.
  - apply extends_refl.
  - intros key. by rewrite !lookup_empty.
  - intros key l. by rewrite lookup_empty.
  - intros k1 k2 l. by rewrite lookup_empty.
Qed.

Lemma represents_snapshot (h0 : store) (stats : gmap (list N) positive) (h : store)
    (s : gmap (list N) counts) :
  represents h0 stats h s -> snapshot h stats = s.
Proof.
  intros Hrep. apply map_eq. intros key.
  unfold snapshot. rewrite lookup_omap. symmetry. apply (rep_lookup _ _ _ _ Hrep).
Qed.

Lemma triple_at_Some (h : store) (l : loc) (c : counts) :
  triple_at h l = Some c <-> h !! l = Some (TripleObject c).
Proof.
  unfold triple_at. destruct (h !! l) as [[]|]; naive_solver.
Qed.

Lemma represents_Get (h0 : store) (stats : gmap (list N) positive) (h : store)
    (s : gmap (list N) counts) (op : prototype) (key : jsstring) :
  represents h0 stats h s ->
  match Get stats op key, Get s op key with
  | Own l, Own c => stats !! key = Some l /\ h !! l = Some (TripleObject c)
                    /\ s !! key = Some c
  | Builtin, Builtin | InheritedNaN, InheritedNaN | Undefined, Undefined =>
      stats !! key = None /\ s !! key = None
  | _, _ => False
  end.
Proof.
  intros Hrep. unfold Get.
  rewrite (rep_lookup _ _ _ _ Hrep key).
  destruct (stats !! key) as [l|] eqn:Hl; simpl.
  - destruct (rep_triple _ _ _ _ Hrep key l Hl) as [_ [c Hc]].
    rewrite Hc. by apply triple_at_Some in Hc.
  - by repeat case_match.
Qed.

(** [stats] has an own key exactly where [s] has one. *)
Lemma represents_None (h0 : store) (stats : gmap (list N) positive) (h : store)
    (s : gmap (list N) counts) (key : jsstring) :
  represents h0 stats h s -> s !! key = None -> stats !! key = None.
Proof.
  intros Hrep Hs. rewrite (rep_lookup _ _ _ _ Hrep key) in Hs.
  destruct (stats !! key) as [l|] eqn:Hl; [|done]. simpl in Hs.
  destruct (rep_triple _ _ _ _ Hrep key l Hl) as [_ [c Hc]]. congruence.
Qed.

Lemma represents_alloc (h0 : store) (stats : gmap (list N) positive) (h : store)
    (s : gmap (list N) counts) (key : jsstring) (c : counts) :
  represents h0 stats h s ->
  represents h0 (<[key := fresh (dom h)]> stats)
                (<[fresh (dom h) := TripleObject c]> h)
                (<[key := c]> s).
Proof.
  intros Hrep.
  pose proof (is_fresh (dom h)) as Hfresh.
  apply not_elem_of_dom in Hfresh.
  set (l := fresh (dom h)) in *.
  assert (Hother : forall k l', stats !! k = Some l' -> l' <> l).
  { intros k l' Hk ->.
    destruct (rep_triple _ _ _ _ Hrep k l Hk) as [_ [c' Hc']].
    apply triple_at_Some in Hc'. congruence. }
  split.
  - intros l'. destruct (decide (l' = l)) as [->|Hne].
    + rewrite lookup_insert_eq. right. split; [|by eauto].
      destruct (rep_extends _ _ _ _ Hrep l) as [<-|[? _]]; done.
    + rewrite lookup_insert_ne by done. apply (rep_extends _ _ _ _ Hrep).
  - intros k. destruct (decide (k = key)) as [->|Hne].
    + rewrite !lookup_insert_eq. simpl. unfold triple_at. by rewrite lookup_insert_eq.
    + rewrite !lookup_insert_ne by done. rewrite (rep_lookup _ _ _ _ Hrep k).
      destruct (stats !! k) as [l'|] eqn:Hk; [|done]. simpl.
      unfold triple_at. by rewrite lookup_insert_ne by (symmetry; by eapply Hother).
  - intros k l'. destruct (decide (k = key)) as [->|Hne].
    + rewrite lookup_insert_eq. intros [= <-]. split.
      * destruct (rep_extends _ _ _ _ Hrep l) as [<-|[? _]]; done.
      * unfold triple_at. rewrite lookup_insert_eq. by eexists.
    + rewrite lookup_insert_ne by done. intros Hk.
      destruct (rep_triple _ _ _ _ Hrep k l' Hk) as [H0 Hl']. split; [done|].
      unfold triple_at. by rewrite lookup_insert_ne by (symmetry; by eapply Hother).
  - intros k1 k2 l'.
    destruct (decide (k1 = key)) as [->|H1], (decide (k2 = key)) as [->|H2];
      rewrite ?lookup_insert_eq, ?lookup_insert_ne by done; try done.
    + intros [= <-] Hk. by destruct (Hother _ _ Hk).
    + intros Hk [= <-]. by destruct (Hother _ _ Hk).
    + apply (rep_inj _ _ _ _ Hrep).
Qed.

Lemma represents_write (h0 : store) (stats : gmap (list N) positive) (h : store)
    (s : gmap (list N) counts) (key : jsstring) (l : loc) (c : counts)
    (g : counts -> counts) :
  represents h0 stats h s ->
  stats !! key = Some l -> h !! l = Some (TripleObject c) ->
  represents h0 stats (store_counter g l h) (<[key := g c]> s).
Proof.
  intros Hrep Hkey Hl. unfold store_counter. rewrite Hl.
  destruct (rep_triple _ _ _ _ Hrep key l Hkey) as [H0 _].
  split.
  - intros l'. destruct (decide (l' = l)) as [->|Hne].
    + rewrite lookup_insert_eq. right. by eauto.
    + rewrite lookup_insert_ne by done. apply (rep_extends _ _ _ _ Hrep).
  - intros k. destruct (decide (k = key)) as [->|Hne].
    + rewrite lookup_insert_eq, Hkey. simpl. unfold triple_at.
      by rewrite lookup_insert_eq.
    + rewrite lookup_insert_ne by done. rewrite (rep_lookup _ _ _ _ Hrep k).
      destruct (stats !! k) as [l'|] eqn:Hk; [|done]. simpl.
      unfold triple_at. rewrite lookup_insert_ne; [done|].
      intros <-. apply Hne. by apply (rep_inj _ _ _ _ Hrep k key l).
  - intros k l' Hk.
    destruct (rep_triple _ _ _ _ Hrep k l' Hk) as [H0' [c' Hc']].
    split; [done|]. unfold triple_at.
    destruct (decide (l' = l)) as [->|Hne].
    + rewrite lookup_insert_eq. by eexists.
    + rewrite lookup_insert_ne by done. by eexists.
  - apply (rep_inj _ _ _ _ Hrep).
Qed.

Section Simulation.

Variable UTC : Z -> Z.
Variable strict : bool.
Variable h0 : store.
Variables startA endA startB endB : loc.

(** The outcome of a step of the store model stands for the outcome of
    the same step of the value model. *)
Definition outcome_represents
    (o : result (gmap (list N) positive) * world)
    (o' : result (gmap (list N) counts) * prototype) : Prop :=
  Object_prototype o.2 = o'.2 /\
  match o.1, o'.1 with
  | Returns stats, Returns s => represents h0 stats (heap o.2) s
  | TypeError, TypeError => extends h0 (heap o.2)
  | _, _ => False
  end.

Lemma increment_sim (f : counter) (key : jsstring)
    (stats : gmap (list N) positive) (w : world) (s : gmap (list N) counts) :
  represents h0 stats (heap w) s ->
  outcome_represents
    (match increment strict f key stats w with
     | (Returns _, w') => (Returns stats, w')
     | (TypeError, w') => (TypeError, w')
     end)
    (value_increment strict f key s (Object_prototype w)).
Proof.
  intros Hrep. unfold increment, value_increment.
  pose proof (represents_Get _ _ _ _ (Object_prototype w) key Hrep) as HGet.
  destruct (Get stats (Object_prototype w) key) as [l| | |],
           (Get s (Object_prototype w) key) as [c| | |]; try done.
  - destruct HGet as (Hkey & Hl & Hs). split; [done|]. simpl.
    by apply represents_write.
  - split; simpl; by case_bool_decide.
  - destruct strict; split; simpl; try done. apply (rep_extends _ _ _ _ Hrep).
  - split; [done|]. apply (rep_extends _ _ _ _ Hrep).
Qed.

Lemma classify_sim (item : loc) (stats : gmap (list N) positive) (w : world)
    (s : gmap (list N) counts) :
  represents h0 stats (heap w) s ->
  outcome_represents
    (classify UTC strict startA endA startB endB item stats w)
    (value_classify UTC strict
       (date_at h0 startA) (date_at h0 endA) (date_at h0 startB) (date_at h0 endB)
       (station_at h0 item) s (Object_prototype w)).
Proof.
  intros Hrep. unfold classify, value_classify.
  pose proof (rep_extends _ _ _ _ Hrep) as Hext.
  rewrite !(extends_field _ h0 (heap w) _ Hext). simpl.
  destruct (truthy (field 轄區 h0 item)); simpl; [|by split].
  set (key := property_key (field 轄區 h0 item)).
  assert (Hinit : exists stats1 w1 s1,
    (if negb (property_truthy (Get stats (Object_prototype w) key))
     then (<[key := fresh (dom (heap w))]> stats,
           mkWorld (<[fresh (dom (heap w)) := TripleObject (mkCounts 0 0 0)]> (heap w))
                   (Object_prototype w) (members w))
     else (stats, w)) = (stats1, w1)
    /\ (if negb (property_truthy (Get s (Object_prototype w) key))
        then <[key := mkCounts 0 0 0]> s else s) = s1
    /\ Object_prototype w1 = Object_prototype w
    /\ represents h0 stats1 (heap w1) s1).
  { pose proof (represents_Get _ _ _ _ (Object_prototype w) key Hrep) as HGet.
    destruct (Get stats (Object_prototype w) key) as [l| | |],
             (Get s (Object_prototype w) key) as [c| | |];
      try done; simpl; do 3 eexists; split; try done; split; try done;
      split; try done.
    all: by apply represents_alloc. }
  destruct Hinit as (stats1 & w1 & s1 & -> & -> & Hop1 & Hrep1).
  pose proof (rep_extends _ _ _ _ Hrep1) as Hext1.
  rewrite !(extends_field _ h0 (heap w1) _ Hext1),
          !(extends_date_at h0 (heap w1) _ Hext1).
  rewrite <- Hop1.
  destruct (rocToGregorian UTC (field 本次檢查 h0 item)) as [itemDate|];
    [|by split].
  destruct (date_ge itemDate (date_at h0 startA) && date_le itemDate (date_at h0 endA)).
  { by apply increment_sim. }
  destruct (date_ge itemDate (date_at h0 startB) && date_le itemDate (date_at h0 endB)).
  { by apply increment_sim. }
  by split.
Qed.

Lemma forEach_sim (data : list loc) (stats : gmap (list N) positive) (w : world)
    (s : gmap (list N) counts) :
  represents h0 stats (heap w) s ->
  outcome_represents
    (forEach UTC strict startA endA startB endB data stats w)
    (value_forEach UTC strict
       (date_at h0 startA) (date_at h0 endA) (date_at h0 startB) (date_at h0 endB)
       (station_at h0 <$> data) s (Object_prototype w)).
Proof.
  revert stats w s.
  induction data as [|item data IH]; intros stats w s Hrep; simpl.
  - by split.
  - pose proof (classify_sim item stats w s Hrep) as Hstep.
    destruct (classify UTC strict startA endA startB endB item stats w)
      as [[stats1|] w1],
      (value_classify UTC strict (date_at h0 startA) (date_at h0 endA)
         (date_at h0 startB) (date_at h0 endB) (station_at h0 item) s
         (Object_prototype w))
      as [[s1|] op1'];
      destruct Hstep as [Hop Hrep1]; simpl in Hop, Hrep1; try done; subst op1'.
    by apply IH.
Qed.

(** The final loop writes the sum into every triple of [stats]. *)
Lemma foldr_store_counter (g : counts -> counts) (ls : list loc) (h : store) :
  NoDup ls ->
  (forall l, l ∈ ls -> is_Some (triple_at h l)) ->
  (forall l, l ∈ ls ->
     triple_at (foldr (store_counter g) h ls) l = g <$> triple_at h l)
  /\ (forall l, l ∉ ls -> foldr (store_counter g) h ls !! l = h !! l).
Proof.
  induction 1 as [|l0 ls Hl0 Hnd IH]; intros Hall; simpl.
  - split; [by intros l ?%elem_of_nil | done].
  - destruct IH as [IH1 IH2].
    { intros l Hl. apply Hall. by right. }
    destruct (Hall l0) as [c Hc]; [by left|].
    assert (Hc' : foldr (store_counter g) h ls !! l0 = Some (TripleObject c)).
    { rewrite IH2 by done. by apply triple_at_Some. }
    unfold store_counter at 1 3. rewrite Hc'. split.
    + intros l [->|Hl]%elem_of_cons.
      * unfold triple_at at 1. rewrite lookup_insert_eq. by rewrite Hc.
      * unfold triple_at at 1. rewrite lookup_insert_ne by (by intros ->).
        by apply IH1.
    + intros l [Hne Hl]%not_elem_of_cons.
      rewrite lookup_insert_ne by done. by apply IH2.
Qed.

Lemma represents_recompute (stats : gmap (list N) positive) (h : store)
    (s : gmap (list N) counts) :
  represents h0 stats h s ->
  represents h0 stats
    (foldr (store_counter recompute) h (map_to_list stats).*2)
    (recompute <$> s).
Proof.
  intros Hrep.
  assert (Hin : forall l, l ∈ (map_to_list stats).*2 <-> exists key, stats !! key = Some l).
  { intros l. rewrite list_elem_of_fmap. split.
    - intros [[k l'] [-> Hkl]]. exists k. by apply elem_of_map_to_list.
    - intros [k Hk]. exists (k, l). split; [done|]. by apply elem_of_map_to_list. }
  destruct (foldr_store_counter recompute (map_to_list stats).*2 h) as [H1 H2].
  { apply NoDup_fmap_2_strong; [|apply NoDup_map_to_list].
    intros [k1 l1] [k2 l2] Hk1%elem_of_map_to_list Hk2%elem_of_map_to_list Heq.
    simpl in Heq. subst l2. f_equal. by apply (rep_inj _ _ _ _ Hrep k1 k2 l1). }
  { intros l [k Hk]%Hin. by apply (rep_triple _ _ _ _ Hrep k l). }
  split.
  - intros l. destruct (decide (l ∈ (map_to_list stats).*2)) as [Hl|Hl].
    + right. pose proof Hl as [k Hk]%Hin.
      destruct (rep_triple _ _ _ _ Hrep k l Hk) as [Hnone [c Hc]]. split; [done|].
      specialize (H1 l Hl). rewrite Hc in H1. simpl in H1.
      apply triple_at_Some in H1. by eauto.
    + rewrite (H2 l Hl). apply (rep_extends _ _ _ _ Hrep).
  - intros key. rewrite lookup_fmap, (rep_lookup _ _ _ _ Hrep key).
    destruct (stats !! key) as [l|] eqn:Hk; [|done]. simpl.
    symmetry. apply H1. apply Hin. by eauto.
  - intros key l Hk.
    destruct (rep_triple _ _ _ _ Hrep key l Hk) as [Hnone [c Hc]]. split; [done|].
    rewrite H1 by (apply Hin; by eauto). rewrite Hc. by eexists.
  - apply (rep_inj _ _ _ _ Hrep).
Qed.

Lemma inherited_enumerable_represents (stats : gmap (list N) positive) (h : store)
    (s : gmap (list N) counts) (op : prototype) :
  represents h0 stats h s ->
  inherited_enumerable stats op = inherited_enumerable s op.
Proof.
  intros Hrep. unfold inherited_enumerable.
  apply list_filter_iff. intros k.
  rewrite (rep_lookup _ _ _ _ Hrep k).
  destruct (stats !! k) as [l|] eqn:Hk; simpl; [|done].
  destruct (rep_triple _ _ _ _ Hrep k l Hk) as [_ [c ->]]. done.
Qed.

Lemma for_in_sim (stats : gmap (list N) positive) (w : world)
    (s : gmap (list N) counts) :
  represents h0 stats (heap w) s ->
  outcome_represents (for_in strict stats w)
    (value_for_in strict s (Object_prototype w), Object_prototype w).
Proof.
  intros Hrep. unfold for_in, value_for_in.
  rewrite (inherited_enumerable_represents stats (heap w) s _ Hrep).
  destruct (strict && _).
  - split; [done|]. apply (rep_extends _ _ _ _ Hrep).
  - split; [done|]. simpl. by apply represents_recompute.
Qed.

(** The store model refines the value model: run on the records and dates
    that the references denote, the value model has the outcome that the
    store model has, the [stats] object read as the map of its triples. *)
Lemma calculate_sim (data : list loc) (w : world) :
  heap w = h0 ->
  outcome_represents
    (calculateYearlyDistrictStats UTC strict startA endA startB endB data w)
    (value_calculateYearlyDistrictStats UTC strict
       (date_at h0 startA) (date_at h0 endA) (date_at h0 startB) (date_at h0 endB)
       (station_at h0 <$> data) (Object_prototype w)).
Proof.
  intros Hw.
  unfold calculateYearlyDistrictStats, value_calculateYearlyDistrictStats.
  assert (Hrep0 : represents h0 ∅ (heap w) ∅) by (rewrite Hw; apply represents_empty).
  pose proof (forEach_sim data ∅ w ∅ Hrep0) as Hloop.
  destruct (forEach UTC strict startA endA startB endB data ∅ w)
    as [[stats|] w1],
    (value_forEach UTC strict (date_at h0 startA) (date_at h0 endA)
       (date_at h0 startB) (date_at h0 endB) (station_at h0 <$> data) ∅
       (Object_prototype w))
    as [[s|] op1'];
    destruct Hloop as [Hop Hrep]; simpl in Hop, Hrep; try done; subst op1'.
  by apply for_in_sim.
Qed.

End Simulation.

(** What a caller that compares results structurally sees of an outcome. *)
Definition content (o : result (gmap (list N) positive) * world)
  : result (gmap (list N) counts) :=
  match o.1 with
  | Returns stats => Returns (snapshot (heap o.2) stats)
  | TypeError => TypeError
  end.

Lemma outcome_represents_content (h0 : store)
    (o : result (gmap (list N) positive) * world)
    (o' : result (gmap (list N) counts) * prototype) :
  outcome_represents h0 o o' ->
  content o = o'.1 /\ Object_prototype o.2 = o'.2 /\ extends h0 (heap o.2).
Proof.
  destruct o as [[stats|] w], o' as [[s|] op']; intros [Hop Hrep];
    simpl in *; try done.
  - split; [|split; [done|]].
    + unfold content. simpl. f_equal. by eapply represents_snapshot.
    + apply (rep_extends _ _ _ _ Hrep).
Qed.

(** ** What the pass writes to the functions of [Object.prototype] *)

Section Builtins.

Variable UTC : Z -> Z.
Variables startA endA startB endB : Date.

(** What one record does to the functions of [Object.prototype]: a record
    filed under the name of such a function, and dated in a window, stores
    the counter of that window on the function. *)
Definition touch (item : StationData) (ms : gmap (list N) prototype)
  : gmap (list N) prototype :=
  match district_of item with
  | Some d =>
      if bool_decide (d ∈ Object_prototype_keys /\ d <> str "__proto__")
      then match window_of UTC startA endA startB endB item with
           | InA => <[d := pollute CountA (member ms d)]> ms
           | InB => <[d := pollute CountB (member ms d)]> ms
           | Outside => ms
           end
      else ms
  | None => ms
  end.

Definition touches (data : list StationData) (ms : gmap (list N) prototype)
  : gmap (list N) prototype :=
  fold_left (fun ms item => touch item ms) data ms.

Lemma touch_other (item : StationData) (ms : gmap (list N) prototype)
    (name : jsstring) :
  name ∉ Object_prototype_keys \/ name = str "__proto__" ->
  touch item ms !! name = ms !! name.
Proof.
  intros Hname. unfold touch.
  destruct (district_of item) as [d|]; [|done].
  case_bool_decide as Hd; [|done].
  assert (d <> name) by (intros ->; destruct Hd, Hname; done).
  destruct (window_of _ _ _ _ _ item); by rewrite ?lookup_insert_ne.
Qed.

Lemma touches_other (data : list StationData) (ms : gmap (list N) prototype)
    (name : jsstring) :
  name ∉ Object_prototype_keys \/ name = str "__proto__" ->
  touches data ms !! name = ms !! name.
Proof.
  intros Hname. revert ms. induction data as [|item data IH]; intros ms; [done|].
  simpl. by rewrite IH, touch_other.
Qed.

Lemma member_touch (item : StationData) (ms : gmap (list N) prototype)
    (name : jsstring) :
  name ∈ Object_prototype_keys -> name <> str "__proto__" ->
  member (touch item ms) name =
  if bool_decide (district_of item = Some name)
  then match window_of UTC startA endA startB endB item with
       | InA => pollute CountA (member ms name)
       | InB => pollute CountB (member ms name)
       | Outside => member ms name
       end
  else member ms name.
Proof.
  intros Hin Hne. unfold touch.
  destruct (district_of item) as [d|]; [|done].
  destruct (decide (d = name)) as [->|Hd].
  - rewrite bool_decide_eq_true_2 by done. rewrite bool_decide_eq_true_2 by done.
    destruct (window_of _ _ _ _ _ item); unfold member at 1;
      by rewrite ?lookup_insert_eq.
  - rewrite (bool_decide_eq_false_2 (Some d = Some name)) by congruence.
    case_bool_decide; [|done].
    destruct (window_of _ _ _ _ _ item); unfold member;
      by rewrite ?lookup_insert_ne.
Qed.

(** A function of [Object.prototype] acquires [countA] (resp. [countB])
    exactly when some record filed under its name is counted in window A
    (resp. B). *)
Lemma member_touches (data : list StationData) (ms : gmap (list N) prototype)
    (name : jsstring) :
  name ∈ Object_prototype_keys -> name <> str "__proto__" ->
  member (touches data ms) name =
  mkPrototype
    (has_countA (member ms name)
     || bool_decide (0 < tally UTC startA endA startB endB InA name data))
    (has_countB (member ms name)
     || bool_decide (0 < tally UTC startA endA startB endB InB name data)).
Proof.
  intros Hin Hne. revert ms. induction data as [|item data IH]; intros ms.
  - rewrite !tally_nil. simpl. destruct (member ms name) as [[] []]; done.
  - change (touches (item :: data) ms) with (touches data (touch item ms)).
    rewrite IH, member_touch, !tally_cons by done.
    pose proof (tally_nonneg UTC startA endA startB endB InA name data).
    pose proof (tally_nonneg UTC startA endA startB endB InB name data).
    destruct (decide (district_of item = Some name)) as [Hd|Hd].
    + rewrite (bool_decide_eq_true_2 _ Hd).
      destruct (window_of UTC startA endA startB endB item),
               (member ms name) as [a b]; simpl; f_equal;
        repeat case_bool_decide; try naive_solver lia;
        try (destruct a; done); try (destruct b; done);
        rewrite ?orb_true_r; done.
    + rewrite (bool_decide_eq_false_2 _ Hd).
      rewrite !(bool_decide_eq_false_2 (_ /\ _)) by naive_solver.
      done.
Qed.

End Builtins.

Section Writes.

Variable UTC : Z -> Z.
Variable strict : bool.
Variable h0 : store.
Variables startA endA startB endB : loc.

Lemma increment_members_ordinary (f : counter) (key : jsstring)
    (stats : gmap (list N) positive) (w : world) :
  key ∉ Object_prototype_keys ->
  members (increment strict f key stats w).2 = members w.
Proof.
  intros Hkey. unfold increment, Get.
  destruct (stats !! key); [done|].
  rewrite (bool_decide_eq_false_2 (key ∈ _)) by done.
  by repeat case_match.
Qed.

Lemma increment_members_builtin (f : counter) (key : jsstring)
    (stats : gmap (list N) positive) (w : world) :
  stats !! key = None -> key ∈ Object_prototype_keys ->
  members (increment strict f key stats w).2 =
  if bool_decide (key = str "__proto__") then members w
  else <[key := pollute f (member (members w) key)]> (members w).
Proof.
  intros Hnone Hkey. unfold increment, Get.
  rewrite Hnone, (bool_decide_eq_true_2 (key ∈ _)) by done.
  by case_bool_decide.
Qed.

Lemma classify_members (item : loc) (stats : gmap (list N) positive) (w : world)
    (s : gmap (list N) counts) :
  represents h0 stats (heap w) s -> clean s ->
  members (classify UTC strict startA endA startB endB item stats w).2
  = touch UTC (date_at h0 startA) (date_at h0 endA) (date_at h0 startB)
      (date_at h0 endB) (station_at h0 item) (members w).
Proof.
  intros Hrep Hclean. unfold classify, touch, district_of, window_of.
  pose proof (rep_extends _ _ _ _ Hrep) as Hext.
  rewrite !(extends_field _ h0 (heap w) _ Hext). simpl.
  destruct (truthy (field 轄區 h0 item)); simpl; [|done].
  set (key := property_key (field 轄區 h0 item)).
  destruct (decide (key ∈ Object_prototype_keys)) as [Hkey|Hkey].
  - pose proof (represents_None _ _ _ _ key Hrep (Hclean key Hkey)) as Hnone.
    assert (HGet : Get stats (Object_prototype w) key = Builtin).
    { unfold Get. by rewrite Hnone, bool_decide_eq_true_2. }
    rewrite HGet. simpl.
    rewrite !(extends_field _ h0 (heap w) _ Hext), !(extends_date_at h0 (heap w) _ Hext).
    destruct (rocToGregorian UTC (field 本次檢查 h0 item)) as [itemDate|];
      [|by case_bool_decide].
    destruct (date_ge itemDate (date_at h0 startA) && date_le itemDate (date_at h0 endA)).
    { pose proof (increment_members_builtin CountA key stats w Hnone Hkey) as Hm.
      destruct (increment strict CountA key stats w) as [[[]|] w']; simpl in *;
        rewrite Hm; repeat case_bool_decide; naive_solver. }
    destruct (date_ge itemDate (date_at h0 startB) && date_le itemDate (date_at h0 endB)).
    { pose proof (increment_members_builtin CountB key stats w Hnone Hkey) as Hm.
      destruct (increment strict CountB key stats w) as [[[]|] w']; simpl in *;
        rewrite Hm; repeat case_bool_decide; naive_solver. }
    by case_bool_decide.
  - rewrite (bool_decide_eq_false_2 (key ∈ _ /\ _)) by (by intros [? _]).
    assert (Hinit : exists stats1 w1,
      (if negb (property_truthy (Get stats (Object_prototype w) key))
       then (<[key := fresh (dom (heap w))]> stats,
             mkWorld (<[fresh (dom (heap w)) := TripleObject (mkCounts 0 0 0)]> (heap w))
                     (Object_prototype w) (members w))
       else (stats, w)) = (stats1, w1)
      /\ members w1 = members w).
    { destruct (negb _); by do 2 eexists. }
    destruct Hinit as (stats1 & w1 & -> & <-).
    destruct (rocToGregorian UTC (field 本次檢查 (heap w1) item)) as [itemDate|];
      [|done].
    destruct (_ && _).
    { pose proof (increment_members_ordinary CountA key stats1 w1 Hkey) as Hm.
      by destruct (increment strict CountA key stats1 w1) as [[[]|] w']. }
    destruct (_ && _).
    { pose proof (increment_members_ordinary CountB key stats1 w1 Hkey) as Hm.
      by destruct (increment strict CountB key stats1 w1) as [[[]|] w']. }
    done.
Qed.

Lemma forEach_members (data : list loc) (stats : gmap (list N) positive) (w : world)
    (s : gmap (list N) counts) :
  represents h0 stats (heap w) s -> clean s ->
  members (forEach UTC strict startA endA startB endB data stats w).2
  = touches UTC (date_at h0 startA) (date_at h0 endA) (date_at h0 startB)
      (date_at h0 endB) (station_at h0 <$> data) (members w).
Proof.
  revert stats w s.
  induction data as [|item data IH]; intros stats w s Hrep Hclean; [done|].
  rewrite fmap_cons.
  change (touches ?u ?a ?b ?c ?d (?i :: ?l) ?ms)
    with (touches u a b c d l (touch u a b c d i ms)).
  rewrite <- (classify_members item stats w s Hrep Hclean).
  pose proof (classify_sim UTC strict h0 startA endA startB endB item stats w s Hrep)
    as Hstep.
  destruct (classify_spec UTC strict (date_at h0 startA) (date_at h0 endA)
              (date_at h0 startB) (date_at h0 endB) (station_at h0 item) s
              (Object_prototype w) Hclean) as (s1 & Hs1 & Hclean1 & _).
  rewrite Hs1 in Hstep. simpl.
  destruct (classify UTC strict startA endA startB endB item stats w)
    as [[stats1|] w1]; destruct Hstep as [_ Hrep1]; simpl in Hrep1; [|done].
  by apply (IH stats1 w1 s1).
Qed.

(** The functions of [Object.prototype] after the pass. *)
Lemma calculate_members (data : list loc) (w : world) :
  heap w = h0 ->
  members (calculateYearlyDistrictStats UTC strict startA endA startB endB data w).2
  = touches UTC (date_at h0 startA) (date_at h0 endA) (date_at h0 startB)
      (date_at h0 endB) (station_at h0 <$> data) (members w).
Proof.
  intros Hw. unfold calculateYearlyDistrictStats.
  assert (Hrep0 : represents h0 ∅ (heap w) ∅) by (rewrite Hw; apply represents_empty).
  rewrite <- (forEach_members data ∅ w ∅ Hrep0 clean_empty).
  destruct (forEach UTC strict startA endA startB endB data ∅ w) as [[stats|] w1];
    [|done].
  unfold for_in. by case_match.
Qed.

End Writes.

Section Purity.

Variable UTC : Z -> Z.
Variable strict : bool.

(** C9.  Let the pass run on a world of objects, and then run again on the
    same arguments in the world that the first run has left.  The two runs
    have structurally equal results (equal statistics, or a TypeError
    each).  Every object that the heap held before the first run, so each
    record of [data] and each of the four dates, is afterwards what it
    was, after the first run and after the second: on the heap the pass
    writes to nothing but the triples it has allocated itself.  The second
    run does not disturb the result of the first either.  What the pass
    does write outside the heap, on [Object.prototype] and on its
    functions, is no input of the call. *)
Theorem C9_pass_is_idempotent_and_pure (w : world)
    (data : list loc) (startA endA startB endB : loc) :
  let first :=
    calculateYearlyDistrictStats UTC strict startA endA startB endB data w in
  let second :=
    calculateYearlyDistrictStats UTC strict startA endA startB endB data first.2 in
  content first = content second
  /\ (forall l, is_Some (heap w !! l) ->
                heap first.2 !! l = heap w !! l /\ heap second.2 !! l = heap w !! l)
  /\ (forall stats, first.1 = Returns stats ->
                    snapshot (heap second.2) stats = snapshot (heap first.2) stats).
Proof.
  intros first second.
  destruct (outcome_represents_content (heap w) first _
              (calculate_sim UTC strict (heap w) startA endA startB endB data w eq_refl))
    as (Hc1 & Hop1 & Hext1).
  destruct (outcome_represents_content (heap first.2) second _
              (calculate_sim UTC strict (heap first.2) startA endA startB endB data
                 first.2 eq_refl))
    as (Hc2 & Hop2 & Hext2).
  fold first in Hc1, Hop1, Hext1. fold second in Hc2, Hop2, Hext2.
  split; [|split].
  - rewrite Hc1, Hc2.
    rewrite !(extends_date_at (heap w) (heap first.2) _ Hext1).
    replace (station_at (heap first.2) <$> data) with (station_at (heap w) <$> data)
      by (apply list_fmap_ext; intros; symmetry; by apply extends_station_at).
    rewrite Hop1.
    pose proof (calculate_twice UTC strict
      (date_at (heap w) startA) (date_at (heap w) endA)
      (date_at (heap w) startB) (date_at (heap w) endB)
      (station_at (heap w) <$> data) (Object_prototype w)) as Htwice.
    destruct (value_calculateYearlyDistrictStats UTC strict
      (date_at (heap w) startA) (date_at (heap w) endA)
      (date_at (heap w) startB) (date_at (heap w) endB)
      (station_at (heap w) <$> data) (Object_prototype w)) as [r1 op1]. simpl.
    destruct (value_calculateYearlyDistrictStats UTC strict
      (date_at (heap w) startA) (date_at (heap w) endA)
      (date_at (heap w) startB) (date_at (heap w) endB)
      (station_at (heap w) <$> data) op1) as [r2 op2]. simpl.
    by destruct Htwice as [-> _].
  - intros l Hl.
    pose proof (extends_frame (heap w) (heap first.2) l Hext1 Hl) as H1.
    split; [done|].
    rewrite (extends_frame (heap first.2) (heap second.2) l Hext2); [done|].
    by rewrite H1.
  - intros stats Hstats.
    pose proof (calculate_sim UTC strict (heap w) startA endA startB endB data w eq_refl)
      as [_ Hrep].
    fold first in Hrep. rewrite Hstats in Hrep.
    destruct (value_calculateYearlyDistrictStats _ _ _ _ _ _ _ _) as [[s|] ?];
      [|done]. simpl in Hrep.
    apply map_eq. intros key.
    unfold snapshot. rewrite !lookup_omap.
    destruct (stats !! key) as [l|] eqn:Hkey; [|done]. simpl.
    destruct (rep_triple _ _ _ _ Hrep key l Hkey) as [_ [c Hc]].
    unfold triple_at. rewrite (extends_frame (heap first.2) (heap second.2) l Hext2); [done|].
    apply triple_at_Some in Hc. by eexists.
Qed.

(** X1.  What the pass writes to the objects that exist before it runs.
    - [Object.prototype] acquires [countA] (resp. [countB]) exactly when
      some record filed under [__proto__] is counted in window A (resp.
      in window B).
    - The function that [Object.prototype] carries under a name acquires
      [countA] (resp. [countB]) exactly when some record filed under that
      name is counted in window A (resp. in window B): a record called
      "toString" and dated in window A leaves [countA = NaN] on
      [Object.prototype.toString].
    - Nothing is stored under any other name, and no object of the heap,
      record or date, is written.
    This holds whether the pass returns or throws. *)
Theorem pass_writes_to_builtins (w : world)
    (data : list loc) (startA endA startB endB : loc) :
  let after :=
    (calculateYearlyDistrictStats UTC strict startA endA startB endB data w).2 in
  let counted (win : window) (name : jsstring) : bool :=
    bool_decide
      (0 < tally UTC (date_at (heap w) startA) (date_at (heap w) endA)
                 (date_at (heap w) startB) (date_at (heap w) endB)
                 win name (station_at (heap w) <$> data)) in
  Object_prototype after =
    mkPrototype (has_countA (Object_prototype w) || counted InA (str "__proto__"))
                (has_countB (Object_prototype w) || counted InB (str "__proto__"))
  /\ (forall name, name ∈ Object_prototype_keys -> name <> str "__proto__" ->
        member (members after) name =
        mkPrototype (has_countA (member (members w) name) || counted InA name)
                    (has_countB (member (members w) name) || counted InB name))
  /\ (forall name, name ∉ Object_prototype_keys \/ name = str "__proto__" ->
        members after !! name = members w !! name)
  /\ (forall l, is_Some (heap w !! l) -> heap after !! l = heap w !! l).
Proof.
  intros after counted.
  destruct (outcome_represents_content (heap w) _ _
              (calculate_sim UTC strict (heap w) startA endA startB endB data w eq_refl))
    as (_ & Hop & Hext).
  fold after in Hop, Hext.
  pose proof (calculate_members UTC strict (heap w) startA endA startB endB data w
                eq_refl) as Hms.
  fold after in Hms.
  split; [|split; [|split]].
  - rewrite Hop.
    destruct (calculate_spec UTC strict
      (date_at (heap w) startA) (date_at (heap w) endA)
      (date_at (heap w) startB) (date_at (heap w) endB)
      (station_at (heap w) <$> data) (Object_prototype w)) as (stats & _ & -> & _).
    simpl. apply taints_spec.
  - intros name Hin Hne. rewrite Hms. by apply member_touches.
  - intros name Hname. rewrite Hms. by apply touches_other.
  - intros l Hl. by apply extends_frame.
Qed.

End Purity.

(** A world with two records, at 1 and 2, and the dates 1 January,
    20 May, 21 May and 30 June 2024, at 3 to 6; nothing has been stored
    on [Object.prototype] or on its functions. *)
Definition example_store : store :=
  list_to_map
    [ (1%positive, StationObject (mkStation (JSString (str "North")) (JSString (str "113/05/20"))));
      (2%positive, StationObject (mkStation (JSString (str "South")) (JSString (str "113/06/01"))));
      (3%positive, DateObject (new_Date utc0 2024 0 1));
      (4%positive, DateObject (new_Date utc0 2024 4 20));
      (5%positive, DateObject (new_Date utc0 2024 4 21));
      (6%positive, DateObject (new_Date utc0 2024 5 30)) ].

Definition example_world : world := mkWorld example_store pristine ∅.

Lemma C9_witness :
  let first :=
    calculateYearlyDistrictStats utc0 true 3 4 5 6 [1; 2]%positive example_world in
  let second :=
    calculateYearlyDistrictStats utc0 true 3 4 5 6 [1; 2]%positive first.2 in
  content first
  = Returns (<[str "North" := mkCounts 1 0 1]> (<[str "South" := mkCounts 0 1 1]> ∅))
  /\ content second = content first
  /\ heap first.2 !! 1%positive = example_store !! 1%positive
  /\ heap second.2 !! 4%positive = example_store !! 4%positive.
Proof.
  intros first second.
  pose proof (C9_pass_is_idempotent_and_pure utc0 true example_world
                [1; 2]%positive 3 4 5 6) as H.
  cbv zeta in H. fold first in H. fold second in H.
  destruct H as (Hsame & Hframe & _).
  assert (H1 : is_Some (heap example_world !! 1%positive)) by (vm_compute; eauto).
  assert (H4 : is_Some (heap example_world !! 4%positive)) by (vm_compute; eauto).
  split; [vm_compute; reflexivity|].
  split; [by rewrite Hsame|].
  split.
  - exact (proj1 (Hframe 1%positive H1)).
  - exact (proj2 (Hframe 4%positive H4)).
Defined.

(** A world with one record, called "toString" and dated in window A. *)
Definition toString_world : world :=
  mkWorld
    (<[1%positive :=
         StationObject (mkStation (JSString (str "toString")) (JSString (str "113/05/20")))]>
       example_store)
    pristine ∅.

Lemma pass_writes_witness :
  let outcome :=
    calculateYearlyDistrictStats utc0 true 3 4 5 6 [1]%positive toString_world in
  content outcome = Returns ∅
  /\ member (members outcome.2) (str "toString") = mkPrototype true false
  /\ members outcome.2 = {[ str "toString" := mkPrototype true false ]}
  /\ Object_prototype outcome.2 = pristine.
Proof.
  intros outcome.
  pose proof (pass_writes_to_builtins utc0 true toString_world [1]%positive 3 4 5 6)
    as H.
  cbv zeta in H. fold outcome in H. destruct H as (Hop & Hmember & _ & _).
  split; [vm_compute; reflexivity|].
  split; [|split].
  - rewrite (Hmember (str "toString")).
    + vm_compute. reflexivity.
    + apply (bool_decide_unpack _). vm_compute. exact I.
    + discriminate.
  - vm_compute. reflexivity.
  - rewrite Hop. vm_compute. reflexivity.
Defined.

End Store.

(** * Further properties of the classification pass *)

Section Pass.

Variable UTC : Z -> Z.
Variable strict : bool.
Variables startA endA startB endB : Date.

Local Abbreviation pass := (calculateYearlyDistrictStats UTC strict startA endA startB endB).
Local Abbreviation window_of' := (window_of UTC startA endA startB endB).
Local Abbreviation tally' := (tally UTC startA endA startB endB).
Local Abbreviation taints' := (taints UTC startA endA startB endB).

Lemma tally_Permutation (w : window) (d : jsstring) (data data' : list StationData) :
  data ≡ₚ data' -> tally' w d data = tally' w d data'.
Proof. intros Hp. unfold tally. by rewrite Hp. Qed.

Lemma mentioned_Permutation (d : jsstring) (data data' : list StationData) :
  data ≡ₚ data' -> mentioned d data <-> mentioned d data'.
Proof. intros Hp. unfold mentioned. by rewrite Hp. Qed.

(** X2.  The outcome of the pass does not depend on the order of the records. *)
Theorem pass_ignores_record_order (data data' : list StationData) (op : prototype) :
  data ≡ₚ data' -> pass data op = pass data' op.
Proof.
  intros Hp.
  destruct (calculate_spec UTC strict startA endA startB endB data op)
    as (stats & _ & -> & Hstats).
  destruct (calculate_spec UTC strict startA endA startB endB data' op)
    as (stats' & _ & -> & Hstats').
  assert (Hop : taints' data op = taints' data' op).
  { rewrite !taints_spec. by rewrite !(tally_Permutation _ _ data data' Hp). }
  assert (Heq : stats = stats').
  { apply map_eq. intros d. rewrite Hstats, Hstats'.
    rewrite !(tally_Permutation _ _ data data' Hp).
    destruct (decide (d ∉ Object_prototype_keys /\ mentioned d data)) as [H|H],
             (decide (d ∉ Object_prototype_keys /\ mentioned d data')) as [H'|H'];
      try done.
    - destruct H' . destruct H as [? ?%(mentioned_Permutation d data data' Hp)]. done.
    - destruct H. destruct H' as [? ?%(mentioned_Permutation d data data' Hp)]. done. }
  by rewrite Hop, Heq.
Qed.


Lemma tally_le_records (d : jsstring) (data : list StationData) :
  tally' InA d data + tally' InB d data
  <= Z.of_nat (length (filter (fun item => district_of item = Some d) data)).
Proof.
  unfold tally. induction data as [|item data IH]; [done|].
  rewrite !filter_cons.
  destruct (window_of' item) eqn:Hw;
    repeat case_decide; simpl length;
    try (exfalso; intuition congruence); lia.
Qed.

(** X3.  What the counters count: in the entry of a district, countA is the
    number of the district's records that the callback assigns to window
    A, countB the number it assigns to window B; together they are at most
    the number of records of the district. *)
Theorem counters_count_records (data : list StationData) (op op' : prototype)
    (s : gmap (list N) counts) (d : jsstring) (c : counts) :
  pass data op = (Returns s, op') ->
  s !! d = Some c ->
  countA c = Z.of_nat (length (filter
      (fun item => district_of item = Some d /\ window_of' item = InA) data))
  /\ countB c = Z.of_nat (length (filter
      (fun item => district_of item = Some d /\ window_of' item = InB) data))
  /\ countA c + countB c
     <= Z.of_nat (length (filter (fun item => district_of item = Some d) data)).
Proof.
  intros Hs. rewrite (stats_entry _ _ _ _ _ _ _ _ _ _ d Hs).
  case_decide; [|done]. intros [= <-]. simpl.
  split; [done|]. split; [done|]. apply tally_le_records.
Qed.

(** X4.  Counting two batches of records in one pass gives, for every
    district, the sums of the counters of the two batches counted apart. *)
Theorem pass_adds_up (data1 data2 : list StationData) (op op1 op2 op12 : prototype)
    (s1 s2 s12 : gmap (list N) counts) (d : jsstring) :
  pass data1 op = (Returns s1, op1) ->
  pass data2 op = (Returns s2, op2) ->
  pass (data1 ++ data2) op = (Returns s12, op12) ->
  countA_of s12 d = countA_of s1 d + countA_of s2 d
  /\ countB_of s12 d = countB_of s1 d + countB_of s2 d.
Proof.
  intros H1 H2 H12.
  destruct (decide (d ∈ Object_prototype_keys)) as [Hd|Hd].
  - unfold countA_of, countB_of.
    by rewrite (counters_of_builtin _ _ _ _ _ _ _ _ _ _ _ H1 Hd),
               (counters_of_builtin _ _ _ _ _ _ _ _ _ _ _ H2 Hd),
               (counters_of_builtin _ _ _ _ _ _ _ _ _ _ _ H12 Hd).
  - destruct (counters_of _ _ _ _ _ _ _ _ _ _ d H1 Hd) as [-> ->].
    destruct (counters_of _ _ _ _ _ _ _ _ _ _ d H2 Hd) as [-> ->].
    destruct (counters_of _ _ _ _ _ _ _ _ _ _ d H12 Hd) as [-> ->].
    by rewrite !tally_app.
Qed.

(** X5.  A window whose start or end is an invalid date, or whose start lies
    after its end, holds no date: nothing is counted under A. *)
Theorem empty_window_A_counts_nothing (data : list StationData)
    (op op' : prototype) (s : gmap (list N) counts) (d : jsstring) :
  match valueOf startA, valueOf endA with
  | Some a, Some e => e < a
  | _, _ => True
  end ->
  pass data op = (Returns s, op') ->
  countA_of s d = 0.
Proof.
  intros Hwin Hs.
  destruct (decide (d ∈ Object_prototype_keys)) as [Hd|Hd].
  { unfold countA_of. by rewrite (counters_of_builtin _ _ _ _ _ _ _ _ _ _ _ Hs Hd). }
  destruct (counters_of _ _ _ _ _ _ _ _ _ _ d Hs Hd) as [-> _].
  apply tally_zero. apply Forall_forall. intros item _ _.
  unfold window_of. destruct (rocToGregorian UTC (本次檢查 item)) as [dt|]; [|done].
  assert (Hout : date_ge dt startA && date_le dt endA = false).
  { unfold date_ge, date_le.
    destruct (valueOf dt) as [t|]; [|done].
    destruct (valueOf startA) as [a|]; [|done].
    destruct (valueOf endA) as [e|]; [|by rewrite andb_false_r].
    apply andb_false_iff. rewrite !Z.leb_gt. lia. }
  rewrite Hout. by destruct (date_ge dt startB && date_le dt endB).
Qed.

Lemma tally_positive (w : window) (d : jsstring) (data : list StationData) :
  bool_decide (0 < tally' w d data)
  = bool_decide (Exists (fun item =>
      district_of item = Some d /\ window_of' item = w) data).
Proof.
  apply bool_decide_ext. unfold tally.
  induction data as [|item data IH]; simpl.
  - rewrite Exists_nil. lia.
  - rewrite filter_cons, Exists_cons. case_decide; simpl length; [|tauto].
    split; [by left | lia].
Qed.

(** X6.  The iteration over the records never throws.  The pass as a whole
    throws exactly when the script is in strict mode and, after the
    iteration, [Object.prototype] carries a property [countA] or [countB]
    that no district shadows; [Object.prototype] carries it when it did
    before the call or when a record filed under [__proto__] has fallen in
    the window.  The pollution outlasts the call. *)
Theorem pass_throws_exactly_when_polluted (data : list StationData) (op : prototype) :
  let op' := (pass data op).2 in
  (exists stats, forEach UTC strict startA endA startB endB data ∅ op = (Returns stats, op'))
  /\ (has_countA op' = has_countA op
         || bool_decide (Exists (fun item =>
              district_of item = Some (str "__proto__") /\ window_of' item = InA) data))
  /\ (has_countB op' = has_countB op
         || bool_decide (Exists (fun item =>
              district_of item = Some (str "__proto__") /\ window_of' item = InB) data))
  /\ ((pass data op).1 = TypeError <->
      strict = true
      /\ ((has_countA op' = true /\ ~ mentioned (str "countA") data)
          \/ (has_countB op' = true /\ ~ mentioned (str "countB") data))).
Proof.
  intros op'. unfold op'.
  destruct (calculate_spec UTC strict startA endA startB endB data op)
    as (stats & Hloop & -> & Hstats). simpl.
  split; [by eexists|].
  rewrite taints_spec. simpl. rewrite !tally_positive.
  split; [done|]. split; [done|].
  set (a := has_countA op || _). set (b := has_countB op || _).
  unfold for_in, inherited_enumerable. simpl.
  assert (Hnone : forall d, d ∉ Object_prototype_keys ->
            stats !! d = None <-> ~ mentioned d data).
  { intros d Hd. rewrite Hstats. case_decide as H.
    - split; [done|]. intros Hm. by destruct H as [_ ?].
    - split; [|done]. intros _ Hm. apply H. by split. }
  pose proof (Hnone (str "countA") ltac:(by apply (bool_decide_unpack _); vm_compute)) as HA.
  pose proof (Hnone (str "countB") ltac:(by apply (bool_decide_unpack _); vm_compute)) as HB.
  destruct strict; simpl; [|by split; [|intros [? _]]].
  destruct a, b; simpl; rewrite ?filter_cons, ?filter_nil;
    repeat case_decide; simpl; split; try done; try tauto;
    intros [_ [[? ?]|[? ?]]]; try done; tauto.
Qed.

End Pass.

(** * Properties of the district filter and the keyword list *)

(** ** [Set] *)

Section SetFacts.

Context {A : Type} `{EqDecision A}.

Lemma elem_of_Set_add (s : list A) (x y : A) :
  y ∈ Set_add s x <-> y ∈ s \/ y = x.
Proof.
  unfold Set_add. case_decide as Hx.
  - split; [by left|]. by intros [?| ->].
  - rewrite elem_of_app, list_elem_of_singleton. tauto.
Qed.

Lemma NoDup_Set_add (s : list A) (x : A) : NoDup s -> NoDup (Set_add s x).
Proof.
  intros Hs. unfold Set_add. case_decide as Hx; [done|].
  apply NoDup_app. split; [done|]. split; [|apply NoDup_singleton].
  intros y Hy ->%list_elem_of_singleton. done.
Qed.

Lemma Set_add_prefix (s : list A) (x : A) : s `prefix_of` Set_add s x.
Proof. unfold Set_add. case_decide; [done|]. by apply prefix_app_r. Qed.

Lemma elem_of_fold_Set_add (l s : list A) (y : A) :
  y ∈ fold_left Set_add l s <-> y ∈ s \/ y ∈ l.
Proof.
  revert s. induction l as [|x l IH]; intros s; simpl.
  - rewrite elem_of_nil. tauto.
  - rewrite IH, elem_of_Set_add, elem_of_cons. tauto.
Qed.

Lemma NoDup_fold_Set_add (l s : list A) :
  NoDup s -> NoDup (fold_left Set_add l s).
Proof.
  revert s. induction l as [|x l IH]; intros s Hs; simpl; [done|].
  by apply IH, NoDup_Set_add.
Qed.

Lemma fold_Set_add_prefix (l s : list A) : s `prefix_of` fold_left Set_add l s.
Proof.
  revert s. induction l as [|x l IH]; intros s; simpl; [done|].
  etrans; [apply Set_add_prefix | apply IH].
Qed.

Lemma fold_Set_add_app (l1 l2 s : list A) :
  fold_left Set_add (l1 ++ l2) s = fold_left Set_add l2 (fold_left Set_add l1 s).
Proof. apply fold_left_app. Qed.

Lemma elem_of_Set_delete (s : list A) (x y : A) :
  y ∈ Set_delete s x <-> y ∈ s /\ y <> x.
Proof. unfold Set_delete. rewrite list_elem_of_filter. tauto. Qed.

End SetFacts.

(** ** [populateDistrictFilter] *)

Lemma elem_of_populateDistrictFilter (data : list StationData) (v : value) :
  v ∈ populateDistrictFilter data <->
  truthy v = true /\ exists item, item ∈ data /\ 轄區 item = v.
Proof.
  unfold populateDistrictFilter, new_Set.
  rewrite elem_of_fold_Set_add, elem_of_nil, list_elem_of_filter,
    list_elem_of_fmap. naive_solver.
Qed.

(** X7.  The district filter offers each truthy district of the data once.
    The options stand in the order in which the districts first occur:
    more data only adds options at the end. *)
Theorem district_options (data more : list StationData) :
  NoDup (populateDistrictFilter data)
  /\ (forall v, v ∈ populateDistrictFilter data <->
                truthy v = true /\ exists item, item ∈ data /\ 轄區 item = v)
  /\ populateDistrictFilter data `prefix_of` populateDistrictFilter (data ++ more).
Proof.
  unfold populateDistrictFilter, new_Set. split; [|split].
  - apply NoDup_fold_Set_add, NoDup_nil_2.
  - intros v. fold (new_Set (filter (fun v => truthy v = true) (轄區 <$> data))).
    apply elem_of_populateDistrictFilter.
  - rewrite fmap_app, filter_app, fold_Set_add_app. apply fold_Set_add_prefix.
Qed.

(** X8.  Every district of the table of yearly statistics is an option of the
    district filter. *)
Theorem listed_districts_are_options (UTC : Z -> Z) (strict : bool)
    (startA endA startB endB : Date) (data : list StationData)
    (op op' : prototype) (s : gmap (list N) counts) (d : jsstring) :
  calculateYearlyDistrictStats UTC strict startA endA startB endB data op
    = (Returns s, op') ->
  is_Some (s !! d) ->
  JSString d ∈ populateDistrictFilter data.
Proof.
  intros Hs Hd.
  rewrite (stats_entry _ _ _ _ _ _ _ _ _ _ d Hs) in Hd.
  case_decide as H; [|by destruct Hd]. destruct H as [_ Hm].
  apply Exists_exists in Hm as (item & Hitem & Hdist).
  apply elem_of_populateDistrictFilter.
  unfold district_of in Hdist.
  destruct (truthy (轄區 item)) eqn:Ht; [|done]. injection Hdist as <-.
  destruct (轄區 item) as [| |k] eqn:Hk; try done. simpl.
  split; [done|]. exists item. by split.
Qed.

(** ** The keyword list *)

Lemma split_runs_not_nil (b : bool) (s : jsstring) : split_runs b s <> [].
Proof.
  revert b. induction s as [|c s IH]; intros b; simpl; [done|].
  destruct (is_keyword_separator c).
  - destruct b; [apply IH | done].
  - by destruct (split_runs false s).
Qed.

Lemma split_runs_clean (b : bool) (s : jsstring) :
  Forall (Forall (fun c => is_keyword_separator c = false)) (split_runs b s).
Proof.
  revert b. induction s as [|c s IH]; intros b; simpl.
  - by repeat constructor.
  - destruct (is_keyword_separator c) eqn:Hc.
    + destruct b; [apply IH|]. constructor; [constructor | apply IH].
    + specialize (IH false). destruct (split_runs false s) as [|tok toks].
      * by repeat constructor.
      * apply Forall_cons in IH as [Htok Htoks].
        constructor; [by constructor | done].
Qed.

(** The tokens: the substrings that are not empty. *)
Definition tokens (b : bool) (s : jsstring) : list jsstring :=
  filter (fun k => k <> []) (split_runs b s).

Lemma tokens_irrelevant (b : bool) (s : jsstring) : tokens b s = tokens false s.
Proof.
  destruct b; [|done]. unfold tokens.
  destruct s as [|c s]; simpl; [done|].
  destruct (is_keyword_separator c); [|done].
  rewrite filter_cons. by rewrite decide_False by (intros H; by apply H).
Qed.

Lemma tokens_separator (c : N) (s : jsstring) :
  is_keyword_separator c = true -> tokens false (c :: s) = tokens false s.
Proof.
  intros Hc. rewrite <- (tokens_irrelevant true s). unfold tokens. simpl.
  rewrite Hc, filter_cons. by rewrite decide_False by (intros H; by apply H).
Qed.

Lemma tokens_separators (r s : jsstring) :
  Forall (fun c => is_keyword_separator c = true) r ->
  tokens false (r ++ s) = tokens false s.
Proof.
  induction 1 as [|c r Hc _ IH]; simpl; [done|].
  by rewrite tokens_separator.
Qed.

Lemma split_runs_word (k s : jsstring) :
  Forall (fun c => is_keyword_separator c = false) k ->
  split_runs false (k ++ s) =
  match split_runs false s with
  | tok :: toks => (k ++ tok) :: toks
  | [] => [k]
  end.
Proof.
  pose proof (split_runs_not_nil false s) as Hne.
  induction 1 as [|c k Hc _ IH]; simpl.
  - by destruct (split_runs false s).
  - rewrite Hc, IH. by destruct (split_runs false s).
Qed.

Lemma filter_nonempty_cons (k : jsstring) (l : list jsstring) :
  filter (fun k => k <> []) (k :: l)
  = if decide (k = []) then filter (fun k => k <> []) l
    else k :: filter (fun k => k <> []) l.
Proof.
  rewrite filter_cons. destruct (decide (k = [])) as [->|Hk].
  - by rewrite decide_False by (intros H; by apply H).
  - by rewrite decide_True.
Qed.

Lemma tokens_word_end (k : jsstring) :
  k <> [] -> Forall (fun c => is_keyword_separator c = false) k ->
  tokens false k = [k].
Proof.
  intros Hne Hk. unfold tokens.
  rewrite <- (app_nil_r k) at 1. rewrite split_runs_word by done.
  cbn [split_runs]. rewrite app_nil_r, filter_nonempty_cons.
  by rewrite decide_False.
Qed.

Lemma tokens_word (k : jsstring) (c : N) (s : jsstring) :
  k <> [] -> Forall (fun c => is_keyword_separator c = false) k ->
  is_keyword_separator c = true ->
  tokens false (k ++ c :: s) = k :: tokens false s.
Proof.
  intros Hne Hk Hc.
  rewrite <- (tokens_irrelevant true s). unfold tokens.
  rewrite split_runs_word by done. cbn [split_runs]. rewrite Hc.
  rewrite app_nil_r, filter_nonempty_cons.
  by rewrite decide_False.
Qed.

Lemma trim_start_id (k : jsstring) :
  Forall (fun c => is_keyword_separator c = false) k -> trim_start k = k.
Proof.
  intros Hk. destruct Hk as [|c k Hc _]; simpl; [done|].
  unfold is_keyword_separator in Hc. apply orb_false_iff in Hc as [_ ->]. done.
Qed.

Lemma trim_id (k : jsstring) :
  Forall (fun c => is_keyword_separator c = false) k -> trim k = k.
Proof.
  intros Hk. unfold trim. rewrite (trim_start_id k Hk).
  rewrite trim_start_id by (by apply Forall_reverse).
  apply reverse_involutive.
Qed.

(** The keywords that [handleAddKeyword] reads from a text. *)
Definition newKeywords (input : jsstring) : list jsstring :=
  filter (fun k => k <> []) (trim <$> split_runs false input).

Lemma newKeywords_tokens (input : jsstring) : newKeywords input = tokens false input.
Proof.
  unfold newKeywords, tokens. f_equal.
  rewrite <- (list_fmap_id (split_runs false input)) at 2.
  apply Forall_fmap_ext. eapply Forall_impl; [apply split_runs_clean|].
  intros k Hk. by apply trim_id.
Qed.

Lemma handleAddKeyword_fold (input : jsstring) (currentKeywords : list jsstring) :
  handleAddKeyword input currentKeywords
  = fold_left Set_add (newKeywords input) currentKeywords.
Proof.
  unfold handleAddKeyword. fold (newKeywords input).
  case_bool_decide as Hlen; [done|].
  destruct (newKeywords input); [done|]. simpl in Hlen. lia.
Qed.

(** A text typed as words with separators between them. *)
Fixpoint typed (words : list (jsstring * jsstring)) : jsstring :=
  match words with
  | [] => []
  | (k, r) :: words' => k ++ r ++ typed words'
  end.

(** X9.  Words typed with commas, fullwidth commas or white space between
    them are read back as they are: the keywords that [handleAddKeyword]
    takes from the text are the words, in order; separators before the
    first word and after the last are ignored, and so is the number of
    separators between two words. *)
Theorem typed_keywords_are_read_back (lead : jsstring)
    (words : list (jsstring * jsstring)) (last_word trail : jsstring)
    (currentKeywords : list jsstring) :
  Forall (fun c => is_keyword_separator c = true) lead ->
  Forall (fun '(k, r) =>
            k <> [] /\ Forall (fun c => is_keyword_separator c = false) k
            /\ r <> [] /\ Forall (fun c => is_keyword_separator c = true) r) words ->
  last_word <> [] ->
  Forall (fun c => is_keyword_separator c = false) last_word ->
  Forall (fun c => is_keyword_separator c = true) trail ->
  handleAddKeyword (lead ++ typed words ++ last_word ++ trail) currentKeywords
  = fold_left Set_add (words.*1 ++ [last_word]) currentKeywords.
Proof.
  intros Hlead Hwords Hne Hlast Htrail.
  rewrite handleAddKeyword_fold, newKeywords_tokens. f_equal.
  rewrite tokens_separators by done.
  induction Hwords as [|[k r] words (Hk & Hkc & Hr & Hrc) _ IH]; simpl.
  - destruct Htrail as [|c trail Hc Htrail].
    + rewrite app_nil_r. by apply tokens_word_end.
    + rewrite tokens_word by done. f_equal.
      rewrite <- (app_nil_r trail). by rewrite tokens_separators.
  - destruct Hrc as [|c r Hc Hrc]; [done|].
    rewrite <- !app_assoc. simpl. rewrite tokens_word by done. f_equal.
    rewrite tokens_separators by done. apply IH.
Qed.

(** A keyword list as the page keeps it: no keyword twice, and every
    keyword a non-empty string without comma or white space. *)
Definition keywords_ok (ks : list jsstring) : Prop :=
  NoDup ks
  /\ Forall (fun k => k <> [] /\ Forall (fun c => is_keyword_separator c = false) k) ks.

Lemma newKeywords_ok (input : jsstring) :
  Forall (fun k => k <> [] /\ Forall (fun c => is_keyword_separator c = false) k)
         (newKeywords input).
Proof.
  rewrite newKeywords_tokens. unfold tokens.
  apply Forall_forall. intros k [Hne Hk]%list_elem_of_filter. split; [done|].
  pose proof (split_runs_clean false input) as Hclean.
  rewrite Forall_forall in Hclean. by apply Hclean.
Qed.

(** X10.  The default keywords form such a list, and adding and removing
    keywords keeps it such.  Adding leaves the keywords that are there in
    their places; a text without a word adds nothing; a removed keyword
    is gone. *)
Theorem keyword_list_is_kept_well_formed :
  keywords_ok defaultKeywords
  /\ forall (currentKeywords : list jsstring) (input k : jsstring),
       keywords_ok currentKeywords ->
       keywords_ok (handleAddKeyword input currentKeywords)
       /\ keywords_ok (handleRemoveKeyword k currentKeywords)
       /\ currentKeywords `prefix_of` handleAddKeyword input currentKeywords
       /\ k ∉ handleRemoveKeyword k currentKeywords
       /\ (Forall (fun c => is_keyword_separator c = true) input ->
           handleAddKeyword input currentKeywords = currentKeywords).
Proof.
  split.
  - split; [by apply (bool_decide_unpack _); vm_compute|].
    repeat constructor; by vm_compute.
  - intros cur input k [Hnd Hall].
    rewrite handleAddKeyword_fold. split; [|split; [|split; [|split]]].
    + split; [by apply NoDup_fold_Set_add|].
      apply Forall_forall. intros x [Hx|Hx]%elem_of_fold_Set_add.
      * rewrite Forall_forall in Hall. by apply Hall.
      * pose proof (newKeywords_ok input) as Hnew.
        rewrite Forall_forall in Hnew. by apply Hnew.
    + unfold handleRemoveKeyword, Set_delete. split.
      * by apply NoDup_filter.
      * apply Forall_forall. intros x [_ Hx]%list_elem_of_filter.
        rewrite Forall_forall in Hall. by apply Hall.
    + apply fold_Set_add_prefix.
    + unfold handleRemoveKeyword. rewrite elem_of_Set_delete. by intros [_ ?].
    + intros Hsep. rewrite newKeywords_tokens.
      rewrite <- (app_nil_r input). by rewrite tokens_separators.
Qed.

(** ** [includes] *)

Lemma starts_with_spec (sub s : jsstring) :
  starts_with sub s = true <-> exists post, s = sub ++ post.
Proof.
  revert s. induction sub as [|x sub IH]; intros s; simpl.
  - split; [by eexists | done].
  - destruct s as [|y s]; [split; [done | by intros [? ?]]|].
    rewrite andb_true_iff, N.eqb_eq, IH. split.
    + intros [-> [post ->]]. by exists post.
    + intros [post [= -> ->]]. split; [done | by exists post].
Qed.

Lemma includes_spec (s sub : jsstring) :
  includes s sub = true <-> exists pre post, s = pre ++ sub ++ post.
Proof.
  induction s as [|y s IH]; simpl.
  - rewrite orb_false_r, starts_with_spec. split.
    + intros [post H]. by exists [], post.
    + intros (pre & post & H). destruct pre; [by exists post|done].
  - rewrite orb_true_iff, IH, starts_with_spec. split.
    + intros [[post H]|(pre & post & ->)].
      * by exists [], post.
      * by exists (y :: pre), post.
    + intros (pre & post & H). destruct pre as [|z pre].
      * left. by exists post.
      * right. injection H as -> ->. by exists pre, post.
Qed.

(** * Properties of [handleAnalysis] *)

Section AnalysisFacts.

Variable UTC : Z -> Z.
Variable strict : bool.

Lemma Object_keys_length_0 (stats : gmap (list N) counts) :
  length (Object_keys stats) = 0%nat <-> stats = ∅.
Proof.
  unfold Object_keys. rewrite length_fmap. split.
  - intros H. apply map_to_list_empty_iff. by apply nil_length_inv.
  - intros ->. by rewrite map_to_list_empty.
Qed.

(** Whether a remark mentions a keyword, for a remark on which the
    question can be asked. *)
Definition remark_mentions (r : remark) (keyword : jsstring) : bool :=
  match r with
  | Remark (JSString s) => includes s keyword
  | RemarkArray strings => bool_decide (keyword ∈ strings)
  | _ => false
  end.

Lemma remark_mentions_spec (r : remark) (keyword : jsstring) :
  remark_mentions r keyword = true <->
  (exists s pre post, r = Remark (JSString s) /\ s = pre ++ keyword ++ post)
  \/ (exists strings, r = RemarkArray strings /\ keyword ∈ strings).
Proof.
  destruct r as [[| |s]|strings|]; simpl.
  - split; [done|]. by intros [(? & ? & ? & ? & _)|(? & ? & _)].
  - split; [done|]. by intros [(? & ? & ? & ? & _)|(? & ? & _)].
  - rewrite includes_spec. split.
    + intros (pre & post & ->). left. by eexists _, pre, post.
    + intros [(s' & pre & post & [= <-] & ->)|(? & ? & _)]; [|done].
      by exists pre, post.
  - rewrite bool_decide_eq_true. split.
    + intros H. right. by exists strings.
    + intros [(? & ? & ? & ? & _)|(strings' & [= <-] & H)]; done.
  - split; [done|]. by intros [(? & ? & ? & ? & _)|(? & ? & _)].
Qed.

Lemma Array_some_Returns {A : Type} (g : A -> bool) (f : A -> result bool)
    (l : list A) :
  (forall x, f x = Returns (g x)) -> Array_some f l = Returns (existsb g l).
Proof.
  intros Hf. induction l as [|x l IH]; simpl; [done|].
  rewrite Hf. by destruct (g x).
Qed.

(** The callback throws exactly on a remark without the method, and then
    only when there is a keyword to ask for. *)
Lemma mentions_keyword_spec (currentKeywords : list jsstring) (item : Station) :
  mentions_keyword currentKeywords item =
  if bool_decide (currentKeywords <> [] /\ 檢查與改善 item = RemarkOther)
  then TypeError
  else Returns (existsb (remark_mentions (檢查與改善 item)) currentKeywords).
Proof.
  unfold mentions_keyword.
  destruct (decide (檢查與改善 item = RemarkOther)) as [Hr|Hr].
  - rewrite Hr. destruct currentKeywords as [|k ks]; cbn [Array_some existsb].
    + by rewrite bool_decide_eq_false_2 by (by intros [? _]).
    + by rewrite bool_decide_eq_true_2.
  - rewrite bool_decide_eq_false_2 by (by intros [_ ?]).
    apply Array_some_Returns. intros k.
    by destruct (檢查與改善 item) as [[| |s]|strings|].
Qed.

Lemma keyword_filter_spec (currentKeywords : list jsstring) (l : list Station) :
  Array_filter (mentions_keyword currentKeywords) l =
  if bool_decide (currentKeywords <> []
                  /\ Exists (fun item => 檢查與改善 item = RemarkOther) l)
  then TypeError
  else Returns (filter (fun item =>
                  existsb (remark_mentions (檢查與改善 item)) currentKeywords = true) l).
Proof.
  induction l as [|item l IH]; cbn [Array_filter].
  - by rewrite bool_decide_eq_false_2 by (intros [_ H%Exists_nil]; done).
  - rewrite mentions_keyword_spec, IH.
    destruct (decide (currentKeywords <> [])) as [Hks|Hks]; cycle 1.
    { rewrite !bool_decide_eq_false_2 by (by intros [? _]).
      rewrite filter_cons.
      destruct (existsb (remark_mentions (檢查與改善 item)) currentKeywords);
        [by rewrite decide_True | by rewrite decide_False]. }
    destruct (decide (檢查與改善 item = RemarkOther)) as [Hr|Hr].
    { rewrite (bool_decide_eq_true_2 (_ /\ 檢查與改善 item = _)) by done.
      by rewrite (bool_decide_eq_true_2 (_ /\ Exists _ (item :: l)))
        by (split; [done | by apply Exists_cons_hd]). }
    rewrite (bool_decide_eq_false_2 (_ /\ 檢查與改善 item = _)) by (by intros [_ ?]).
    destruct (decide (Exists (fun item => 檢查與改善 item = RemarkOther) l)) as [He|He].
    { rewrite (bool_decide_eq_true_2 (_ /\ Exists _ l)) by done.
      by rewrite (bool_decide_eq_true_2 (_ /\ Exists _ (item :: l)))
        by (split; [done | by apply Exists_cons_tl]). }
    rewrite (bool_decide_eq_false_2 (_ /\ Exists _ l)) by (by intros [_ ?]).
    rewrite (bool_decide_eq_false_2 (_ /\ Exists _ (item :: l)))
      by (intros [_ [?|?]%Exists_cons]; done).
    rewrite filter_cons.
    destruct (existsb (remark_mentions (檢查與改善 item)) currentKeywords);
      [by rewrite decide_True | by rewrite decide_False].
Qed.

(** X11.  The records that an analysis shows.  The table of all stations holds
    the records of the data whose date resolves into the selected range
    and, when districts are selected, whose district is one of them; the
    table of special cases holds those of them whose remark contains a
    keyword (a remark that is a string) or has a keyword among its
    elements (a remark that is an array).  Both keep the order of the
    data, and both are what the page then keeps for the export.  The
    tables are shown only when no shown record has a remark that is a
    number, a boolean or an object, or the list of keywords is empty. *)
Theorem analysis_shows_filtered_records (app app' : App) (start end_ : Date)
    (selectedDistricts : list jsstring) (startOfYear endOfRangeA : Date)
    (op op' : prototype) (shown special : list Station)
    (yearlyStats : gmap (list N) counts) :
  handleAnalysis UTC strict app (Some (start, end_)) selectedDistricts
    startOfYear endOfRangeA op
  = (Rendered shown special yearlyStats, app', op') ->
  (forall item, item ∈ shown <->
      item ∈ allData app
      /\ (exists itemDate,
            rocToGregorian UTC (本次檢查 (fields item)) = Some itemDate
            /\ date_ge itemDate start = true /\ date_le itemDate end_ = true)
      /\ (selectedDistricts = [] \/
          exists d, 轄區 (fields item) = JSString d /\ d ∈ selectedDistricts))
  /\ (forall item, item ∈ special <->
        item ∈ shown
        /\ exists keyword,
             keyword ∈ currentKeywords app
             /\ ((exists remark pre post,
                    檢查與改善 item = Remark (JSString remark)
                    /\ remark = pre ++ keyword ++ post)
                 \/ (exists strings,
                       檢查與改善 item = RemarkArray strings /\ keyword ∈ strings)))
  /\ special `sublist_of` shown
  /\ shown `sublist_of` allData app
  /\ app' = mkApp (allData app) special shown yearlyStats (currentKeywords app)
  /\ (currentKeywords app = []
      \/ Forall (fun item => 檢查與改善 item <> RemarkOther) shown).
Proof.
  unfold handleAnalysis. case_bool_decide as Hlen; [done|].
  destruct (calculateYearlyDistrictStats _ _ _ _ _ _ _ _) as [[s|] op1]; [|done].
  set (dateFiltered := filter (fun item => in_date_range UTC start end_ item = true)
                              (allData app)).
  set (allFiltered := if bool_decide (length selectedDistricts = 0%nat) then _ else _).
  destruct (_ && _); [done|].
  rewrite keyword_filter_spec. case_bool_decide as Hthrow; [done|].
  intros [= <- <- <- <- <-].
  assert (Hrange : forall item, in_date_range UTC start end_ item = true <->
            exists itemDate,
              rocToGregorian UTC (本次檢查 (fields item)) = Some itemDate
              /\ date_ge itemDate start = true /\ date_le itemDate end_ = true).
  { intros item. unfold in_date_range.
    destruct (rocToGregorian UTC (本次檢查 (fields item))) as [dt|].
    - rewrite andb_true_iff. naive_solver.
    - naive_solver. }
  assert (Hsel : forall item, district_selected selectedDistricts item = true <->
            exists d, 轄區 (fields item) = JSString d /\ d ∈ selectedDistricts).
  { intros item. unfold district_selected.
    destruct (轄區 (fields item)) as [| |d].
    - split; [done|]. by intros (d & Hd & _).
    - split; [done|]. by intros (d & Hd & _).
    - rewrite bool_decide_eq_true. split; [by exists d|].
      by intros (d' & [= <-] & Hin). }
  split; [|split; [|split; [|split; [|split]]]]; [| | | |done|].
  - intros item. unfold allFiltered, dateFiltered.
    case_bool_decide as Hsel0.
    + apply nil_length_inv in Hsel0 as ->.
      rewrite list_elem_of_filter, Hrange. naive_solver.
    + rewrite !list_elem_of_filter, Hrange, Hsel.
      destruct selectedDistricts; [done|]. naive_solver.
  - intros item. rewrite list_elem_of_filter, existsb_exists. split.
    + intros [(k & Hk%list_elem_of_In & Hinc) Hitem]. split; [done|].
      exists k. split; [done|]. by apply remark_mentions_spec.
    + intros [Hitem (k & Hk & Hrem)]. split; [|done].
      exists k. split; [by apply list_elem_of_In|]. by apply remark_mentions_spec.
  - apply sublist_filter.
  - unfold allFiltered, dateFiltered. case_bool_decide.
    + apply sublist_filter.
    + etrans; apply sublist_filter.
  - destruct (decide (currentKeywords app = [])) as [|Hks]; [by left|]. right.
    apply Forall_forall. intros item Hitem Hr. apply Hthrow. split; [done|].
    apply Exists_exists. by exists item.
Qed.


Lemma window_B_is_date_range (start end_ startOfYear endOfRangeA : Date)
    (item : Station) :
  match valueOf endOfRangeA, valueOf start with
  | Some e, Some s => e < s
  | _, _ => True
  end ->
  window_of UTC startOfYear endOfRangeA start end_ (fields item) = InB
  <-> in_date_range UTC start end_ item = true.
Proof.
  intros Hapart. unfold window_of, in_date_range.
  destruct (rocToGregorian UTC (本次檢查 (fields item))) as [dt|]; [|done].
  assert (HA : date_ge dt start = true -> date_le dt endOfRangeA = false).
  { unfold date_ge, date_le. destruct (valueOf dt) as [t|]; [|done].
    destruct (valueOf start) as [s0|]; [|done].
    destruct (valueOf endOfRangeA) as [e|]; [|done].
    rewrite Z.leb_le, Z.leb_gt. lia. }
  destruct (date_ge dt start) eqn:Hge; simpl.
  - rewrite HA by done. rewrite andb_false_r.
    by destruct (date_le dt end_).
  - by destruct (date_ge dt startOfYear && date_le dt endOfRangeA).
Qed.

Lemma tally_B_date_range (start end_ startOfYear endOfRangeA : Date)
    (d : jsstring) (data : list Station) :
  match valueOf endOfRangeA, valueOf start with
  | Some e, Some s => e < s
  | _, _ => True
  end ->
  tally UTC startOfYear endOfRangeA start end_ InB d (fields <$> data)
  = Z.of_nat (length (filter
      (fun item => district_of (fields item) = Some d)
      (filter (fun item => in_date_range UTC start end_ item = true) data))).
Proof.
  intros Hapart. unfold tally. f_equal.
  induction data as [|item data IH]; [done|].
  rewrite fmap_cons, !filter_cons.
  pose proof (window_B_is_date_range start end_ startOfYear endOfRangeA item
                Hapart) as Hw.
  destruct (decide (in_date_range UTC start end_ item = true)) as [Hin|Hin].
  - rewrite filter_cons.
    destruct (decide (district_of (fields item) = Some d)) as [Hd|Hd].
    + rewrite decide_True by (split; [done | by apply Hw]).
      rewrite !length_cons. by f_equal.
    + rewrite decide_False by (by intros [? _]). apply IH.
  - rewrite decide_False by (intros [_ ?]; by apply Hin, Hw). apply IH.
Qed.

(** X13.  Windows A and B apart: the column B of the table of yearly statistics
    agrees with the table of all stations.  When the end of window A lies
    before the start of the selected range and no district is selected,
    countB of a district is the number of shown records of that
    district. *)
Theorem column_B_counts_shown_records (app app' : App) (start end_ : Date)
    (startOfYear endOfRangeA : Date) (op op' : prototype)
    (shown special : list Station) (yearlyStats : gmap (list N) counts)
    (d : jsstring) (c : counts) :
  match valueOf endOfRangeA, valueOf start with
  | Some e, Some s => e < s
  | _, _ => True
  end ->
  handleAnalysis UTC strict app (Some (start, end_)) [] startOfYear endOfRangeA op
  = (Rendered shown special yearlyStats, app', op') ->
  yearlyStats !! d = Some c ->
  countB c = Z.of_nat (length (filter
               (fun item => district_of (fields item) = Some d) shown)).
Proof.
  intros Hapart. unfold handleAnalysis. case_bool_decide as Hlen; [done|].
  destruct (calculateYearlyDistrictStats UTC strict startOfYear endOfRangeA
              start end_ (fields <$> allData app) op) as [[s|] op1] eqn:Hpass; [|done].
  rewrite (bool_decide_eq_true_2 (length (@nil jsstring) = 0%nat)) by done.
  destruct (_ && _); [done|].
  destruct (Array_filter _ _) as [special'|]; [|done].
  intros [= <- _ <- _ _] Hc.
  rewrite (stats_entry _ _ _ _ _ _ _ _ _ _ d Hpass) in Hc.
  case_decide; [|done]. injection Hc as <-. simpl.
  by apply tally_B_date_range.
Qed.

End AnalysisFacts.

(** * Properties of the table of yearly statistics *)

(** The sum of a column over the rows of the table. *)
Definition column (f : counts -> Z) (rows : list (list N * counts)) : Z :=
  foldr (fun row acc => f row.2 + acc) 0 rows.

Definition row_of (stats : gmap (list N) counts) (d : jsstring) : list N * counts :=
  (d, default (mkCounts 0 0 0) (stats !! d)).

Lemma column_app (f : counts -> Z) (rows rows' : list (list N * counts)) :
  column f (rows ++ rows') = column f rows + column f rows'.
Proof. induction rows as [|r rows IH]; simpl; [done|]. rewrite IH. lia. Qed.

Lemma yearly_fold (stats : gmap (list N) counts) (ds : list jsstring)
    (rows : list (list N * counts)) (a b c : Z) :
  Forall (fun d => is_Some (stats !! d)) ds ->
  fold_left
    (fun '(rows, totalA, totalB, totalC) district =>
       match stats !! district with
       | Some districtStats =>
           (rows ++ [(district, districtStats)],
            totalA + countA districtStats,
            totalB + countB districtStats,
            totalC + countC districtStats)
       | None => (rows, totalA, totalB, totalC)
       end) ds (rows, a, b, c)
  = (rows ++ (row_of stats <$> ds),
     a + column countA (row_of stats <$> ds),
     b + column countB (row_of stats <$> ds),
     c + column countC (row_of stats <$> ds)).
Proof.
  intros Hds. revert rows a b c.
  induction Hds as [|d ds [x Hx] _ IH]; intros rows a b c.
  - simpl. by rewrite app_nil_r, !Z.add_0_r.
  - rewrite fmap_cons. cbn [fold_left]. rewrite Hx, IH, <- app_assoc.
    assert (row_of stats d = (d, x)) as -> by (unfold row_of; by rewrite Hx).
    change (column ?f (?r :: ?l)) with (f r.2 + column f l).
    cbn [snd app]. f_equal; [f_equal; [f_equal|]|]; lia.
Qed.

Lemma renderYearlyStats_spec (stats : gmap (list N) counts) :
  renderYearlyStats stats =
  if decide (stats = ∅) then NoStatistics
  else let rows := row_of stats <$> sort (Object_keys stats) in
       Table rows (column countA rows) (column countB rows) (column countC rows).
Proof.
  unfold renderYearlyStats.
  assert (length (sort (Object_keys stats)) = 0%nat <-> stats = ∅) as Hlen.
  { rewrite <- Object_keys_length_0. by rewrite (sort_Permutation (Object_keys stats)). }
  case_bool_decide as H0; case_decide as H1; try tauto.
  rewrite yearly_fold.
  - done.
  - apply Forall_forall. intros d. by rewrite elem_of_sorted_keys.
Qed.


(** ** The totals of the footer *)

(** A record whose district the statistics can list: it names a district,
    and the name is not that of a member of [Object.prototype]. *)
Definition listable (item : StationData) : Prop :=
  match district_of item with
  | Some d => d ∉ Object_prototype_keys
  | None => False
  end.

#[global] Instance listable_dec (item : StationData) : Decision (listable item).
Proof. unfold listable. destruct (district_of item); apply _. Defined.

Lemma length_filter_or {A} (P Q R : A -> Prop)
    `{forall x, Decision (P x)} `{forall x, Decision (Q x)}
    `{forall x, Decision (R x)} (l : list A) :
  (forall x, R x <-> P x \/ Q x) -> (forall x, P x -> Q x -> False) ->
  length (filter R l) = (length (filter P l) + length (filter Q l))%nat.
Proof.
  intros HR Hdisj. induction l as [|x l IH]; [done|].
  rewrite !filter_cons.
  destruct (decide (P x)) as [HP|HP], (decide (Q x)) as [HQ|HQ].
  - destruct (Hdisj x HP HQ).
  - rewrite decide_True by (apply HR; by left). simpl. lia.
  - rewrite decide_True by (apply HR; by right). simpl. lia.
  - rewrite decide_False by (rewrite HR; tauto). done.
Qed.

(** The record names one of the districts [ds]. *)
Definition names (ds : list jsstring) (item : StationData) : Prop :=
  match district_of item with
  | Some d => d ∈ ds
  | None => False
  end.

#[global] Instance names_dec (ds : list jsstring) (item : StationData) :
  Decision (names ds item).
Proof. unfold names. destruct (district_of item); apply _. Defined.

Section Footer.

Variable UTC : Z -> Z.
Variables startA endA startB endB : Date.

Local Abbreviation window_of' := (window_of UTC startA endA startB endB).
Local Abbreviation tally' := (tally UTC startA endA startB endB).

(** The counters of pairwise distinct districts add up to the number of
    records of these districts. *)
Lemma column_tally (w : window) (ds : list jsstring) (data : list StationData) :
  NoDup ds ->
  foldr (fun d acc => tally' w d data + acc) 0 ds
  = Z.of_nat (length (filter
      (fun item => names ds item /\ window_of' item = w) data)).
Proof.
  intros Hnd. induction Hnd as [|d ds Hd Hnd IH].
  - simpl. induction data as [|item data IH]; [done|].
    rewrite filter_cons. rewrite decide_False; [done|].
    intros [Hin _]. unfold names in Hin.
    destruct (district_of item); [by apply not_elem_of_nil in Hin|done].
  - cbn [foldr]. rewrite IH. unfold tally.
    rewrite (length_filter_or
               (fun item => district_of item = Some d /\ window_of' item = w)
               (fun item => names ds item /\ window_of' item = w)
               (fun item => names (d :: ds) item /\ window_of' item = w)); [lia| |].
    + intros item. unfold names. destruct (district_of item) as [d'|].
      * rewrite elem_of_cons. naive_solver.
      * naive_solver.
    + intros item [Hd' _] [Hin _]. unfold names in Hin. rewrite Hd' in Hin. done.
Qed.

Variable strict : bool.

Lemma filter_ext_elem {A} (P Q : A -> Prop) `{forall x, Decision (P x)}
    `{forall x, Decision (Q x)} (l : list A) :
  (forall x, x ∈ l -> P x <-> Q x) -> filter P l = filter Q l.
Proof.
  induction l as [|x l IH]; intros HPQ; [done|].
  rewrite !filter_cons.
  rewrite IH by (intros y Hy; apply HPQ; by right).
  destruct (decide (P x)) as [HP|HP].
  - rewrite decide_True; [done|]. apply HPQ; [by left|done].
  - rewrite decide_False; [done|]. intros HQ. apply HP, HPQ; [by left|done].
Qed.

Lemma foldr_ext_elem {A} (f g : A -> Z -> Z) (l : list A) (z : Z) :
  (forall x acc, x ∈ l -> f x acc = g x acc) -> foldr f z l = foldr g z l.
Proof.
  induction l as [|x l IH]; intros Hfg; [done|]. simpl.
  rewrite IH by (intros y acc Hy; apply Hfg; by right).
  apply Hfg. by left.
Qed.

Lemma column_row_of (f : counts -> Z) (stats : gmap (list N) counts)
    (ds : list jsstring) :
  column f (row_of stats <$> ds)
  = foldr (fun d acc => f (default (mkCounts 0 0 0) (stats !! d)) + acc) 0 ds.
Proof. induction ds as [|d ds IH]; [done|]. rewrite fmap_cons. simpl. by rewrite IH. Qed.

Lemma column_of_pass (w : window) (f : counts -> Z) (data : list StationData)
    (op op' : prototype) (s : gmap (list N) counts) :
  calculateYearlyDistrictStats UTC strict startA endA startB endB data op
    = (Returns s, op') ->
  (forall d, f (mkCounts (tally' InA d data) (tally' InB d data)
                         (tally' InA d data + tally' InB d data))
             = tally' w d data) ->
  column f (row_of s <$> sort (Object_keys s))
  = Z.of_nat (length (filter
      (fun item => listable item /\ window_of' item = w) data)).
Proof.
  intros Hpass Hf. rewrite column_row_of.
  rewrite (foldr_ext_elem _ (fun d acc => tally' w d data + acc)).
  - rewrite column_tally.
    + f_equal. f_equal. apply filter_ext_elem. intros item Hitem.
      unfold names, listable. destruct (district_of item) as [d|] eqn:Hd; [|done].
      rewrite elem_of_sorted_keys.
      rewrite (stats_entry _ _ _ _ _ _ _ _ _ _ d Hpass).
      assert (mentioned d data).
      { apply Exists_exists. by exists item. }
      case_decide as Hdec.
      * split; intros [_ ?]; (split; [|done]); [tauto|by eexists].
      * split; intros [Hx ?]; [by destruct Hx|tauto].
    + rewrite (sort_Permutation (Object_keys s)). apply NoDup_fst_map_to_list.
  - intros d acc Hin. apply elem_of_sorted_keys in Hin as [c Hc].
    rewrite Hc. simpl.
    rewrite (stats_entry _ _ _ _ _ _ _ _ _ _ d Hpass) in Hc.
    case_decide; [|done]. injection Hc as <-. by rewrite Hf.
Qed.

Lemma column_C (stats : gmap (list N) counts) (ds : list jsstring) :
  (forall d, d ∈ ds ->
     countC (default (mkCounts 0 0 0) (stats !! d))
     = countA (default (mkCounts 0 0 0) (stats !! d))
       + countB (default (mkCounts 0 0 0) (stats !! d))) ->
  column countC (row_of stats <$> ds)
  = column countA (row_of stats <$> ds) + column countB (row_of stats <$> ds).
Proof.
  induction ds as [|d ds IH]; intros Hds; [done|].
  rewrite fmap_cons. change (column ?f (?r :: ?l)) with (f r.2 + column f l).
  rewrite IH by (intros ? ?; apply Hds; by right).
  assert (Hd := Hds d (list_elem_of_here _ _)).
  change (row_of stats d).2 with (default (mkCounts 0 0 0) (stats !! d)). lia.
Qed.

(** X15.  The footer of the table of yearly statistics, for the statistics of a
    pass over [data]: the total of column A (of column B) is the number of
    records in window A (in window B) whose district the statistics can
    list, and the total of column C is the sum of the two.  The notice
    takes the place of the table exactly when no record has such a
    district. *)
Theorem footer_totals_count_records (data : list StationData)
    (op op' : prototype) (s : gmap (list N) counts) :
  calculateYearlyDistrictStats UTC strict startA endA startB endB data op
    = (Returns s, op') ->
  (renderYearlyStats s = NoStatistics <-> Forall (fun item => ~ listable item) data)
  /\ forall rows totalA totalB totalC,
       renderYearlyStats s = Table rows totalA totalB totalC ->
       totalA = Z.of_nat (length (filter
                  (fun item => listable item /\ window_of' item = InA) data))
       /\ totalB = Z.of_nat (length (filter
                  (fun item => listable item /\ window_of' item = InB) data))
       /\ totalC = totalA + totalB.
Proof.
  intros Hpass. split.
  - rewrite renderYearlyStats_spec. case_decide as Hempty.
    + split; [intros _|done]. apply Forall_forall. intros item Hitem Hl.
      unfold listable in Hl. destruct (district_of item) as [d|] eqn:Hd; [|done].
      pose proof (stats_entry _ _ _ _ _ _ _ _ _ _ d Hpass) as Hentry.
      rewrite Hempty, lookup_empty in Hentry.
      rewrite decide_True in Hentry; [done|]. split; [done|].
      apply Exists_exists. by exists item.
    + split; [done|]. intros Hnone. destruct Hempty. apply map_empty. intros d.
      rewrite (stats_entry _ _ _ _ _ _ _ _ _ _ d Hpass).
      case_decide as Hdec; [|done]. destruct Hdec as [Hord Hm].
      apply Exists_exists in Hm as (item & Hitem & Hd).
      rewrite Forall_forall in Hnone. destruct (Hnone item Hitem).
      unfold listable. by rewrite Hd.
  - intros rows tA tB tC. rewrite renderYearlyStats_spec.
    case_decide as Hempty; [done|]. simpl. intros [= <- <- <- <-].
    assert (HA := column_of_pass InA countA data op op' s Hpass (fun d => eq_refl)).
    assert (HB := column_of_pass InB countB data op op' s Hpass (fun d => eq_refl)).
    split; [done|]. split; [done|].
    apply column_C. intros d [c Hc]%elem_of_sorted_keys.
    rewrite Hc. rewrite (stats_entry _ _ _ _ _ _ _ _ _ _ d Hpass) in Hc.
    case_decide; [|done]. by injection Hc as <-.
Qed.

End Footer.

(** * Properties of the target inputs *)

Section TargetFacts.

Variable Number : jsstring -> float.




Lemma filter_True {A} (l : list A) : filter (fun _ => True) l = l.
Proof.
  induction l as [|x l IH]; [done|].
  rewrite filter_cons. rewrite decide_True by done. by rewrite IH.
Qed.




End TargetFacts.

(** * Properties of the bar charts *)

(** ** The properties of [counts] *)

Lemma get_own_fmap (g : jsstring -> tallied) (l : list jsstring) (k : jsstring) :
  get_own ((fun x => (x, g x)) <$> l) k = if decide (k ∈ l) then Some (g k) else None.
Proof.
  induction l as [|x l IH]; [done|].
  rewrite fmap_cons. cbn [get_own]. destruct (decide (x = k)) as [->|Hx].
  - by rewrite decide_True by (by left).
  - rewrite IH. destruct (decide (k ∈ l)) as [Hin|Hin].
    + by rewrite decide_True by (by right).
    + rewrite decide_False; [done|]. intros [->|?]%elem_of_cons; done.
Qed.

Lemma set_own_new (g : jsstring -> tallied) (l : list jsstring) (k : jsstring)
    (t : tallied) :
  k ∉ l ->
  set_own ((fun x => (x, g x)) <$> l) k t = ((fun x => (x, g x)) <$> l) ++ [(k, t)].
Proof.
  induction l as [|x l IH]; intros Hk; [done|].
  apply not_elem_of_cons in Hk as [Hx Hk].
  rewrite fmap_cons. cbn [set_own]. rewrite decide_False by done.
  by rewrite IH.
Qed.

Lemma set_own_old (g : jsstring -> tallied) (l : list jsstring) (k : jsstring)
    (t : tallied) :
  k ∈ l -> NoDup l ->
  set_own ((fun x => (x, g x)) <$> l) k t
  = (fun x => (x, if decide (x = k) then t else g x)) <$> l.
Proof.
  induction l as [|x l IH]; intros Hk Hnd; [by apply not_elem_of_nil in Hk|].
  apply NoDup_cons in Hnd as [Hx Hnd].
  rewrite !fmap_cons. cbn [set_own]. destruct (decide (x = k)) as [->|Hxk].
  - f_equal. apply list_fmap_ext. intros i y Hy.
    rewrite decide_False; [done|]. intros ->. apply Hx.
    by apply list_elem_of_lookup_2 in Hy.
  - f_equal. apply IH; [|done]. apply elem_of_cons in Hk as [->|Hk]; done.
Qed.

(** The number of the keys equal to [k]. *)
Definition occurrences (k : jsstring) (ks : list jsstring) : nat :=
  length (filter (fun x => x = k) ks).

Lemma occurrences_app (k : jsstring) (ks ks' : list jsstring) :
  occurrences k (ks ++ ks') = (occurrences k ks + occurrences k ks')%nat.
Proof. unfold occurrences. by rewrite filter_app, length_app. Qed.

Lemma occurrences_0 (k : jsstring) (ks : list jsstring) :
  k ∉ ks -> occurrences k ks = 0%nat.
Proof.
  intros Hk. unfold occurrences. induction ks as [|x ks IH]; [done|].
  apply not_elem_of_cons in Hk as [Hx Hk].
  rewrite filter_cons, decide_False by done. by apply IH.
Qed.

Lemma occurrences_pos (k : jsstring) (ks : list jsstring) :
  k ∈ ks <-> (0 < occurrences k ks)%nat.
Proof.
  split.
  - intros Hk. unfold occurrences.
    assert (k ∈ filter (fun x => x = k) ks) as Hin by (by apply list_elem_of_filter).
    destruct (filter _ ks); [by apply not_elem_of_nil in Hin|simpl; lia].
  - intros Hpos. destruct (decide (k ∈ ks)) as [|Hk]; [done|].
    rewrite occurrences_0 in Hpos by done. lia.
Qed.

Lemma new_Set_snoc (ks : list jsstring) (k : jsstring) :
  new_Set (ks ++ [k]) = Set_add (new_Set ks) k.
Proof. unfold new_Set. by rewrite fold_left_app. Qed.

Lemma elem_of_new_Set (ks : list jsstring) (k : jsstring) :
  k ∈ new_Set ks <-> k ∈ ks.
Proof.
  unfold new_Set. rewrite elem_of_fold_Set_add, elem_of_nil. tauto.
Qed.

Lemma NoDup_new_Set (ks : list jsstring) : NoDup (new_Set ks).
Proof. apply NoDup_fold_Set_add, NoDup_nil_2. Qed.

Section BarChartFacts.

Variable String_builtin : jsstring -> jsstring.

Definition tallies (ks : list jsstring) : list (jsstring * tallied) :=
  fold_left (fun acc k => add_one String_builtin k acc) ks [].

(** What [counts] holds under [k] after the keys [ks]. *)
Definition tally_of (ks : list jsstring) (k : jsstring) : tallied :=
  if bool_decide (k ∈ Object_prototype_keys)
  then Text (String_builtin k ++ replicate (occurrences k ks) 49%N)
  else Count (Z.of_nat (occurrences k ks)).

Definition proper (ks : list jsstring) : list jsstring :=
  filter (fun k => k <> str "__proto__") ks.

Lemma tallies_snoc (ks : list jsstring) (k : jsstring) :
  tallies (ks ++ [k]) = add_one String_builtin k (tallies ks).
Proof. unfold tallies. by rewrite fold_left_app. Qed.

Lemma tallies_spec (ks : list jsstring) :
  tallies ks = (fun k => (k, tally_of ks k)) <$> new_Set (proper ks).
Proof.
  induction ks as [|k ks IH] using rev_ind; [done|].
  rewrite tallies_snoc, IH. unfold add_one. rewrite get_own_fmap.
  unfold proper. rewrite filter_app. fold (proper ks).
  destruct (decide (k = str "__proto__")) as [->|Hproto].
  - (* the setter of __proto__ ignores the text *)
    rewrite decide_False.
    2:{ rewrite elem_of_new_Set. unfold proper.
        rewrite list_elem_of_filter. by intros [? _]. }
    rewrite bool_decide_eq_true_2 by (by apply (bool_decide_unpack _); vm_compute).
    rewrite bool_decide_eq_true_2 by done.
    rewrite filter_cons, decide_False by (by intros H; apply H).
    rewrite filter_nil, app_nil_r.
    apply list_fmap_ext. intros i x Hx. f_equal.
    apply list_elem_of_lookup_2 in Hx. rewrite elem_of_new_Set in Hx.
    unfold proper in Hx. apply list_elem_of_filter in Hx as [Hne _].
    unfold tally_of. rewrite occurrences_app.
    rewrite (occurrences_0 x [str "__proto__"]).
    + by rewrite Nat.add_0_r.
    + by intros ->%list_elem_of_singleton.
  - rewrite filter_cons, (decide_True (P := k <> str "__proto__")), filter_nil by done.
    rewrite new_Set_snoc. unfold Set_add.
    assert (Hnext : forall x, x <> k -> tally_of (ks ++ [k]) x = tally_of ks x).
    { intros x Hx. unfold tally_of. rewrite occurrences_app.
      rewrite (occurrences_0 x [k]); [by rewrite Nat.add_0_r|].
      by intros ->%list_elem_of_singleton. }
    assert (Hone : occurrences k [k] = 1%nat).
    { unfold occurrences. by rewrite filter_cons, decide_True. }
    destruct (decide (k ∈ new_Set (proper ks))) as [Hin|Hin].
    + assert (Hupd : forall t, t = tally_of (ks ++ [k]) k ->
                set_own ((fun k0 => (k0, tally_of ks k0)) <$> new_Set (proper ks)) k t
                = (fun k0 => (k0, tally_of (ks ++ [k]) k0)) <$> new_Set (proper ks)).
      { intros t ->. rewrite set_own_old; [|done|apply NoDup_new_Set].
        apply list_fmap_ext. intros i x _. f_equal.
        destruct (decide (x = k)) as [->|Hx]; [done|]. by rewrite Hnext. }
      unfold tally_of at 1. case_bool_decide as Hb.
      * apply Hupd. unfold tally_of. rewrite bool_decide_eq_true_2 by done.
        rewrite occurrences_app, Hone, Nat.add_1_r.
        by rewrite replicate_S_end, app_assoc.
      * apply Hupd. unfold tally_of. rewrite bool_decide_eq_false_2 by done.
        rewrite occurrences_app, Hone. f_equal. lia.
    + assert (Hk : k ∉ ks).
      { intros Hk. apply Hin. rewrite elem_of_new_Set. unfold proper.
        by apply list_elem_of_filter. }
      assert (Hnew : forall t, t = tally_of (ks ++ [k]) k ->
                set_own ((fun k0 => (k0, tally_of ks k0)) <$> new_Set (proper ks)) k t
                = (fun k0 => (k0, tally_of (ks ++ [k]) k0)) <$> (new_Set (proper ks) ++ [k])).
      { intros t ->. rewrite set_own_new by done. rewrite fmap_app. f_equal.
        apply list_fmap_ext. intros i x Hx. f_equal. rewrite Hnext; [done|].
        intros ->. apply list_elem_of_lookup_2 in Hx. by apply Hin. }
      case_bool_decide as Hb.
      * rewrite bool_decide_eq_false_2 by done. apply Hnew.
        unfold tally_of. rewrite bool_decide_eq_true_2 by done.
        by rewrite occurrences_app, Hone, occurrences_0.
      * apply Hnew. unfold tally_of. rewrite bool_decide_eq_false_2 by done.
        by rewrite occurrences_app, Hone, occurrences_0.
Qed.

Lemma renderBarChart_unfold {A} (data : list A) (property : A -> value) :
  renderBarChart String_builtin data property =
  match mapM numeric (tallies ((fun item => chart_key (property item)) <$> data)) with
  | None => HostDefinedChart
  | Some counts =>
      if bool_decide (foldr Z.max 0 counts.*2 = 0) then NoChartData
      else Bars (sort_by_count (Object_entries counts)) (foldr Z.max 0 counts.*2)
  end.
Proof.
  unfold renderBarChart, tallies.
  assert (Hfold : forall acc,
    fold_left (fun acc item => add_one String_builtin (chart_key (property item)) acc)
              data acc
    = fold_left (fun acc k => add_one String_builtin k acc)
                ((fun item => chart_key (property item)) <$> data) acc).
  { induction data as [|item data IH]; intros acc; [done|].
    rewrite fmap_cons. cbn [fold_left]. apply IH. }
  by rewrite Hfold.
Qed.

Lemma proper_id (ks : list jsstring) :
  Forall (fun k => k ∉ Object_prototype_keys) ks -> proper ks = ks.
Proof.
  intros Hks. unfold proper. induction Hks as [|k ks Hk _ IH]; [done|].
  rewrite filter_cons, decide_True, IH; [done|].
  intros ->. apply Hk. by apply (bool_decide_unpack _); vm_compute.
Qed.

(** Without a member of [Object.prototype] among the keys, [counts]
    holds the number of occurrences of each key, the keys in the order
    in which they first occur. *)
Lemma counts_proper (ks : list jsstring) :
  (forall k, k ∈ proper ks -> k ∉ Object_prototype_keys) ->
  mapM numeric (tallies ks)
  = Some ((fun k => (k, Z.of_nat (occurrences k ks))) <$> new_Set (proper ks)).
Proof.
  intros Hks. rewrite tallies_spec.
  apply mapM_Some. apply Forall2_fmap, Forall_Forall2_diag, Forall_forall.
  intros k Hk. rewrite elem_of_new_Set in Hk. unfold numeric, tally_of. simpl.
  by rewrite bool_decide_eq_false_2 by (by apply Hks).
Qed.

Lemma counts_spec (ks : list jsstring) :
  Forall (fun k => k ∉ Object_prototype_keys) ks ->
  mapM numeric (tallies ks)
  = Some ((fun k => (k, Z.of_nat (occurrences k ks))) <$> new_Set ks).
Proof.
  intros Hks. rewrite counts_proper; rewrite proper_id by done; [done|].
  rewrite Forall_forall in Hks. apply Hks.
Qed.

End BarChartFacts.

(** ** The order of the bars *)

Lemma Object_entries_Permutation {A} (props : list (jsstring * A)) :
  Object_entries props ≡ₚ props.
Proof.
  unfold Object_entries. rewrite merge_sort_Permutation.
  induction props as [|p props IH]; [done|].
  rewrite filter_cons. cbn [omap list_omap].
  destruct (array_index p.1) as [i|]; case_decide; try done.
  - cbn [fmap option_fmap option_map]. rewrite fmap_cons. cbn [snd].
    by rewrite <- app_comm_cons, IH.
  - cbn [fmap option_fmap option_map]. rewrite <- Permutation_middle. by rewrite IH.
Qed.

Lemma insert_bar_Permutation (x : jsstring * Z) (l : list (jsstring * Z)) :
  insert_bar x l ≡ₚ x :: l.
Proof.
  induction l as [|y l IH]; [done|]. simpl.
  destruct (x.2 <? y.2); [|done]. rewrite IH. apply perm_swap.
Qed.

Lemma sort_by_count_Permutation (l : list (jsstring * Z)) : sort_by_count l ≡ₚ l.
Proof.
  induction l as [|x l IH]; [done|]. simpl.
  by rewrite insert_bar_Permutation, IH.
Qed.

Definition descending (a b : jsstring * Z) : Prop := b.2 <= a.2.

Lemma insert_bar_sorted (x : jsstring * Z) (l : list (jsstring * Z)) :
  StronglySorted descending l -> StronglySorted descending (insert_bar x l).
Proof.
  induction 1 as [|y l Hl IH Hy]; simpl.
  - repeat constructor.
  - destruct (x.2 <? y.2) eqn:Hxy.
    + apply Z.ltb_lt in Hxy. constructor; [done|].
      rewrite insert_bar_Permutation. constructor; [unfold descending; lia|done].
    + apply Z.ltb_ge in Hxy. constructor; [by constructor|].
      constructor; [done|].
      eapply Forall_impl; [exact Hy|]. unfold descending. intros z ?. lia.
Qed.

Lemma sort_by_count_sorted (l : list (jsstring * Z)) :
  StronglySorted descending (sort_by_count l).
Proof.
  induction l as [|x l IH]; [constructor|]. simpl. by apply insert_bar_sorted.
Qed.

(** ** Sums and maxima *)

Lemma sum_Permutation (l l' : list Z) :
  l ≡ₚ l' -> foldr Z.add 0 l = foldr Z.add 0 l'.
Proof. induction 1; simpl; lia. Qed.

Lemma max_Permutation (l l' : list Z) :
  l ≡ₚ l' -> foldr Z.max 0 l = foldr Z.max 0 l'.
Proof. induction 1; simpl; lia. Qed.

Lemma max_upper (l : list Z) (n : Z) : n ∈ l -> n <= foldr Z.max 0 l.
Proof.
  induction l as [|x l IH]; [by intros ?%not_elem_of_nil|].
  intros [->|Hn]%elem_of_cons; simpl; [lia|]. specialize (IH Hn). lia.
Qed.

Lemma max_0 (l : list Z) :
  Forall (fun n => 0 < n) l -> foldr Z.max 0 l = 0 -> l = [].
Proof. destruct 1 as [|x l Hx _]; [done|]. simpl. lia. Qed.

Lemma max_attained (l : list Z) :
  l <> [] -> Forall (fun n => 0 < n) l -> foldr Z.max 0 l ∈ l.
Proof.
  intros Hne Hl. induction Hl as [|x l Hx Hl IH]; [done|]. simpl.
  destruct (decide (l = [])) as [->|Hl0].
  - simpl. rewrite Z.max_l by lia. by left.
  - specialize (IH Hl0). destruct (Z.max_spec x (foldr Z.max 0 l)) as [[_ ->]|[_ ->]].
    + by right.
    + by left.
Qed.

Lemma sum_occurrences (ds ks : list jsstring) :
  NoDup ds ->
  foldr Z.add 0 ((fun k => Z.of_nat (occurrences k ks)) <$> ds)
  = Z.of_nat (length (filter (fun k => k ∈ ds) ks)).
Proof.
  intros Hnd. induction Hnd as [|d ds Hd Hnd IH].
  - simpl. induction ks as [|k ks IH]; [done|].
    rewrite filter_cons, decide_False; [done|]. apply not_elem_of_nil.
  - rewrite fmap_cons. cbn [foldr]. rewrite IH. unfold occurrences.
    rewrite (length_filter_or (fun k => k = d) (fun k => k ∈ ds)
                              (fun k => k ∈ d :: ds)); [lia| |].
    + intros k. by rewrite elem_of_cons.
    + by intros k -> Hin.
Qed.

Section BarChartTheorems.

Variable String_builtin : jsstring -> jsstring.

Lemma occurrences_fmap {A} (data : list A) (f : A -> jsstring) (k : jsstring) :
  occurrences k (f <$> data) = length (filter (fun item => f item = k) data).
Proof.
  unfold occurrences. induction data as [|item data IH]; [done|].
  rewrite fmap_cons, !filter_cons. case_decide; simpl; by rewrite IH.
Qed.

(** X17.  The bars count the records.  When no record has the name of a member
    of [Object.prototype] as its key, the chart has one bar per key of the
    data, with the number of the records of that key; the bars stand in
    descending order of their counts; the widths are relative to the
    count of the first bar; and the counts add up to the number of
    records.  The notice is shown only for empty data. *)
Theorem bars_count_records {A} (data : list A) (property : A -> value) :
  Forall (fun item => chart_key (property item) ∉ Object_prototype_keys) data ->
  match renderBarChart String_builtin data property with
  | HostDefinedChart => False
  | NoChartData => data = []
  | Bars bars maxValue =>
      NoDup bars.*1
      /\ (forall k n, (k, n) ∈ bars <->
            0 < n /\ n = Z.of_nat (length (filter
                           (fun item => chart_key (property item) = k) data)))
      /\ StronglySorted descending bars
      /\ (exists k, head bars = Some (k, maxValue))
      /\ foldr Z.add 0 bars.*2 = Z.of_nat (length data)
  end.
Proof.
  intros Hdata. rewrite renderBarChart_unfold.
  set (keys := (fun item => chart_key (property item)) <$> data).
  assert (Hkeys : Forall (fun k => k ∉ Object_prototype_keys) keys).
  { unfold keys. by apply Forall_fmap. }
  rewrite (counts_spec String_builtin keys Hkeys).
  set (counts := (fun k => (k, Z.of_nat (occurrences k keys))) <$> new_Set keys).
  assert (Hfst : counts.*1 = new_Set keys).
  { unfold counts. rewrite <- list_fmap_compose.
    induction (new_Set keys) as [|? ? IH]; [done|]. rewrite fmap_cons. by rewrite IH. }
  assert (Hsnd : counts.*2 = (fun k => Z.of_nat (occurrences k keys)) <$> new_Set keys).
  { unfold counts. by rewrite <- list_fmap_compose. }
  assert (Hin : forall k n, (k, n) ∈ counts <->
            0 < n /\ n = Z.of_nat (occurrences k keys)).
  { intros k n. unfold counts. rewrite list_elem_of_fmap. split.
    - intros (k' & [= -> ->] & Hk'). rewrite elem_of_new_Set in Hk'.
      apply (proj1 (occurrences_pos _ _)) in Hk'. split; [lia|done].
    - intros [Hpos ->]. exists k. split; [done|].
      rewrite elem_of_new_Set. apply (proj2 (occurrences_pos _ _)). lia. }
  assert (Hpos : Forall (fun n => 0 < n) counts.*2).
  { apply Forall_forall. intros n (p & -> & Hp)%list_elem_of_fmap.
    destruct p as [k n]. by apply Hin in Hp as [? _]. }
  case_bool_decide as Hmax.
  { apply max_0 in Hmax; [|done]. apply fmap_nil_inv in Hmax.
    assert (keys = []) as Hnil.
    { destruct keys as [|k ks]; [done|].
      assert ((k, Z.of_nat (occurrences k (k :: ks))) ∈ counts) as Hk.
      { apply Hin. split; [|done].
        assert (k ∈ k :: ks) as Hk by (by left).
        apply (proj1 (occurrences_pos _ _)) in Hk. lia. }
      rewrite Hmax in Hk. by apply not_elem_of_nil in Hk. }
    by apply fmap_nil_inv in Hnil. }
  set (bars := sort_by_count (Object_entries counts)).
  assert (Hperm : bars ≡ₚ counts).
  { unfold bars. by rewrite sort_by_count_Permutation, Object_entries_Permutation. }
  split; [|split; [|split; [|split]]].
  - rewrite Hperm, Hfst. apply NoDup_new_Set.
  - intros k n. rewrite Hperm, Hin. unfold keys. by rewrite occurrences_fmap.
  - apply sort_by_count_sorted.
  - pose proof (sort_by_count_sorted (Object_entries counts)) as Hsorted.
    fold bars in Hsorted.
    assert (Hmaxb : foldr Z.max 0 counts.*2 = foldr Z.max 0 bars.*2).
    { apply max_Permutation. by rewrite Hperm. }
    assert (Hposb : Forall (fun n => 0 < n) bars.*2) by (by rewrite Hperm).
    rewrite Hmaxb in *. clearbody bars. clear Hperm Hmaxb.
    destruct bars as [|[k n] bars]; [done|]. exists k. cbn [head]. do 2 f_equal.
    apply StronglySorted_inv in Hsorted as [_ Hall].
    apply Z.le_antisymm.
    + apply max_upper. by left.
    + assert (foldr Z.max 0 ((k, n) :: bars).*2 ∈ ((k, n) :: bars).*2) as Hatt
        by (by apply max_attained).
      apply list_elem_of_fmap in Hatt as (p & Hmaxp & Hp). rewrite Hmaxp.
      apply elem_of_cons in Hp as [->|Hp]; [done|].
      rewrite Forall_forall in Hall. apply (Hall p Hp).
  - rewrite (sum_Permutation bars.*2 counts.*2) by (by rewrite Hperm).
    rewrite Hsnd, sum_occurrences by apply NoDup_new_Set.
    rewrite <- (length_fmap (fun item => chart_key (property item)) data).
    fold keys. do 2 f_equal.
    rewrite <- (filter_True keys) at 2. apply filter_ext_elem.
    intros k Hk. by rewrite elem_of_new_Set.
Qed.

(** X18.  What spoils a chart.  The order and the widths of the bars are left
    to the host exactly when a record has the name of a member of
    [Object.prototype] other than [__proto__] as its key; and the notice
    takes the place of the chart exactly when every record has the key
    [__proto__], as is the case for empty data. *)
Theorem bar_chart_outcome {A} (data : list A) (property : A -> value) :
  (renderBarChart String_builtin data property = HostDefinedChart <->
   exists item, item ∈ data
     /\ chart_key (property item) ∈ Object_prototype_keys
     /\ chart_key (property item) <> str "__proto__")
  /\ (renderBarChart String_builtin data property = NoChartData <->
      Forall (fun item => chart_key (property item) = str "__proto__") data).
Proof.
  rewrite renderBarChart_unfold.
  set (keys := (fun item => chart_key (property item)) <$> data).
  assert (Hnone : mapM numeric (tallies String_builtin keys) = None <->
            exists item, item ∈ data
              /\ chart_key (property item) ∈ Object_prototype_keys
              /\ chart_key (property item) <> str "__proto__").
  { rewrite mapM_None, tallies_spec, Exists_exists. split.
    - intros (p & (k & -> & Hk)%list_elem_of_fmap & Hp).
      rewrite elem_of_new_Set in Hk. unfold proper in Hk.
      apply list_elem_of_filter in Hk as [Hproto Hk].
      unfold keys in Hk. apply list_elem_of_fmap in Hk as (item & -> & Hitem).
      exists item. split; [done|]. split; [|done].
      unfold numeric, tally_of in Hp. simpl in Hp.
      by case_bool_decide.
    - intros (item & Hitem & Hopk & Hproto).
      exists (chart_key (property item), tally_of String_builtin keys (chart_key (property item))).
      split.
      + apply list_elem_of_fmap. eexists. split; [done|].
        rewrite elem_of_new_Set. unfold proper. apply list_elem_of_filter.
        split; [done|]. unfold keys. apply list_elem_of_fmap. by exists item.
      + unfold numeric, tally_of. simpl. by rewrite bool_decide_eq_true_2. }
  destruct (mapM numeric (tallies String_builtin keys)) as [counts|] eqn:Hcounts.
  - split.
    + split; [by case_bool_decide|]. intros H. apply Hnone in H. done.
    + assert (Hno : forall k, k ∈ proper keys -> k ∉ Object_prototype_keys).
      { intros k Hk Hopk. unfold proper in Hk.
        apply list_elem_of_filter in Hk as [Hproto Hk].
        unfold keys in Hk. apply list_elem_of_fmap in Hk as (item & -> & Hitem).
        assert (Some counts = None) as Habs; [|done].
        apply Hnone. by exists item. }
      rewrite (counts_proper String_builtin keys Hno) in Hcounts.
      injection Hcounts as <-.
      assert (Hempty : proper keys = [] <->
                Forall (fun item => chart_key (property item) = str "__proto__") data).
      { unfold proper, keys. rewrite Forall_forall. split.
        - intros Hnil item Hitem.
          destruct (decide (chart_key (property item) = str "__proto__")) as [|Hne];
            [done|].
          assert (chart_key (property item)
                  ∈ filter (fun k => k <> str "__proto__")
                      ((fun item => chart_key (property item)) <$> data)) as Hin.
          { apply list_elem_of_filter. split; [done|].
            apply list_elem_of_fmap. by exists item. }
          rewrite Hnil in Hin. by apply not_elem_of_nil in Hin.
        - intros Hall.
          destruct (filter _ _) as [|k ks] eqn:Hf; [done|].
          assert (k ∈ filter (fun k => k <> str "__proto__")
                      ((fun item => chart_key (property item)) <$> data)) as Hin
            by (rewrite Hf; by left).
          apply list_elem_of_filter in Hin as [Hne Hin].
          apply list_elem_of_fmap in Hin as (item & -> & Hitem).
          destruct Hne. by apply Hall. }
      rewrite <- Hempty. case_bool_decide as Hmax.
      * split; [intros _|done].
        apply max_0 in Hmax.
        -- apply fmap_nil_inv, fmap_nil_inv in Hmax.
           destruct (proper keys) as [|k ks] eqn:Hp; [done|].
           assert (k ∈ new_Set (k :: ks)) as Hk
             by (rewrite elem_of_new_Set; by left).
           rewrite Hmax in Hk. by apply not_elem_of_nil in Hk.
        -- apply Forall_forall. intros n (p & -> & Hp)%list_elem_of_fmap.
           apply list_elem_of_fmap in Hp as (k & -> & Hk). simpl.
           rewrite elem_of_new_Set in Hk. unfold proper in Hk.
           apply list_elem_of_filter in Hk as [_ Hk].
           apply (proj1 (occurrences_pos _ _)) in Hk. lia.
      * split; [done|]. intros Hnil. destruct Hmax. by rewrite Hnil.
  - split; [split; [intros _; by apply Hnone|done]|].
    split; [done|]. intros Hall. exfalso.
    destruct (proj1 Hnone eq_refl) as (item & Hitem & _ & Hproto).
    rewrite Forall_forall in Hall. by apply Hproto, Hall.
Qed.

End BarChartTheorems.

(** * Properties of the CSV export *)

(** ** A reader of CSV text

    The reader is not part of the program: it is the reading of RFC 4180
    that the output of [convertToCSV] is measured against.  Lines end
    with CR LF; fields are separated by commas; a field that begins with a
    quotation mark extends to the next quotation mark that is not
    doubled, and a doubled quotation mark in it stands for one. *)

Fixpoint read_lines (cur : jsstring) (s : jsstring) : list jsstring :=
  match s with
  | [] => [cur]
  | c :: s' =>
      match s' with
      | d :: s'' =>
          if ((c =? 13) && (d =? 10))%N then cur :: read_lines [] s''
          else read_lines (cur ++ [c]) s'
      | [] => [cur ++ [c]]
      end
  end.

Inductive field_state := FieldStart | Plain | Quoted | QuoteSeen.

Fixpoint read_fields (st : field_state) (cur : jsstring) (s : jsstring)
  : list jsstring :=
  match s with
  | [] => [cur]
  | c :: s' =>
      match st with
      | FieldStart =>
          if (c =? 34)%N then read_fields Quoted [] s'
          else if (c =? 44)%N then [] :: read_fields FieldStart [] s'
          else read_fields Plain [c] s'
      | Plain =>
          if (c =? 44)%N then cur :: read_fields FieldStart [] s'
          else read_fields Plain (cur ++ [c]) s'
      | Quoted =>
          if (c =? 34)%N then read_fields QuoteSeen cur s'
          else read_fields Quoted (cur ++ [c]) s'
      | QuoteSeen =>
          if (c =? 34)%N then read_fields Quoted (cur ++ [34%N]) s'
          else if (c =? 44)%N then cur :: read_fields FieldStart [] s'
          else read_fields Plain (cur ++ [c]) s'
      end
  end.

Definition read_csv (s : jsstring) : list (list jsstring) :=
  read_fields FieldStart [] <$> read_lines [] s.

(** Text that survives the export: it holds no CR and no LF, and it
    begins with a quotation mark only if it includes a comma. *)
Definition exportable (v : jsstring) : Prop :=
  13%N ∉ v /\ 10%N ∉ v /\ (44%N ∉ v -> head v <> Some 34%N).

(** ** Reading lines *)

Lemma read_lines_cons (cur : jsstring) (c : N) (s : jsstring) :
  c <> 13%N -> s <> [] -> read_lines cur (c :: s) = read_lines (cur ++ [c]) s.
Proof.
  intros Hc Hs. destruct s as [|d s]; [done|]. cbn [read_lines].
  by rewrite (proj2 (N.eqb_neq c 13) Hc).
Qed.

Lemma read_lines_line (cur line rest : jsstring) :
  13%N ∉ line ->
  read_lines cur (line ++ [13; 10]%N ++ rest) = (cur ++ line) :: read_lines [] rest.
Proof.
  revert cur. induction line as [|c line IH]; intros cur Hline.
  - simpl. by rewrite app_nil_r.
  - apply not_elem_of_cons in Hline as [Hc Hline].
    rewrite <- app_comm_cons, read_lines_cons; [|congruence|by destruct line].
    rewrite IH by done. by rewrite <- app_assoc.
Qed.

Lemma read_lines_last (cur line : jsstring) :
  13%N ∉ line -> read_lines cur line = [cur ++ line].
Proof.
  revert cur. induction line as [|c line IH]; intros cur Hline.
  - simpl. by rewrite app_nil_r.
  - apply not_elem_of_cons in Hline as [Hc Hline].
    destruct line as [|d line]; [done|].
    rewrite read_lines_cons; [|congruence|done].
    rewrite IH by done. by rewrite <- app_assoc.
Qed.

Lemma read_lines_join (lines : list jsstring) :
  lines <> [] -> Forall (fun line => 13%N ∉ line) lines ->
  read_lines [] (join [13; 10]%N lines) = lines.
Proof.
  induction lines as [|line lines IH]; [done|]. intros _ Hlines.
  apply Forall_cons in Hlines as [Hline Hlines].
  destruct lines as [|line' lines].
  - simpl. by rewrite read_lines_last.
  - change (join [13; 10]%N (line :: line' :: lines))
      with (line ++ [13; 10]%N ++ join [13; 10]%N (line' :: lines)).
    rewrite read_lines_line by done. by rewrite IH.
Qed.

(** ** Reading fields *)

Lemma read_plain (cur v : jsstring) :
  44%N ∉ v ->
  read_fields Plain cur v = [cur ++ v]
  /\ forall rest, read_fields Plain cur (v ++ 44%N :: rest)
                  = (cur ++ v) :: read_fields FieldStart [] rest.
Proof.
  revert cur. induction v as [|c v IH]; intros cur Hv.
  - simpl. by rewrite app_nil_r.
  - apply not_elem_of_cons in Hv as [Hc Hv].
    destruct (IH (cur ++ [c]) Hv) as [IH1 IH2].
    cbn [app read_fields].
    rewrite (proj2 (N.eqb_neq c 44)) by congruence.
    rewrite IH1. split; [by rewrite <- app_assoc|].
    intros rest. rewrite IH2. by rewrite <- app_assoc.
Qed.

Lemma read_quoted (cur v rest : jsstring) :
  read_fields Quoted cur (double_quotes v ++ 34%N :: rest)
  = read_fields QuoteSeen (cur ++ v) rest.
Proof.
  revert cur. induction v as [|c v IH]; intros cur.
  - simpl. by rewrite app_nil_r.
  - unfold double_quotes. cbn [flat_map]. fold (double_quotes v).
    destruct (c =? 34)%N eqn:Hc.
    + apply N.eqb_eq in Hc as ->. cbn [app read_fields]. cbn [N.eqb Pos.eqb].
      rewrite IH. by rewrite <- app_assoc.
    + cbn [app read_fields]. rewrite Hc. rewrite IH. by rewrite <- app_assoc.
Qed.

Lemma read_field (v : jsstring) :
  (44%N ∉ v -> head v <> Some 34%N) ->
  read_fields FieldStart [] (quoted v) = [v]
  /\ forall rest, read_fields FieldStart [] (quoted v ++ 44%N :: rest)
                  = v :: read_fields FieldStart [] rest.
Proof.
  intros Hv. unfold quoted. case_bool_decide as Hcomma.
  - split.
    + cbn [app read_fields N.eqb Pos.eqb]. by rewrite read_quoted.
    + intros rest. rewrite <- !app_assoc.
      cbn [app read_fields N.eqb Pos.eqb]. by rewrite read_quoted.
  - specialize (Hv Hcomma). destruct v as [|c v]; [done|].
    apply not_elem_of_cons in Hcomma as [Hc Hcomma].
    destruct (read_plain [c] v Hcomma) as [H1 H2].
    cbn [app read_fields].
    rewrite (proj2 (N.eqb_neq c 34)) by (simpl in Hv; congruence).
    rewrite (proj2 (N.eqb_neq c 44)) by congruence.
    by rewrite H1.
Qed.

Lemma read_fields_join (cells : list jsstring) :
  cells <> [] ->
  Forall (fun v => 44%N ∉ v -> head v <> Some 34%N) cells ->
  read_fields FieldStart [] (join [44%N] (quoted <$> cells)) = cells.
Proof.
  induction cells as [|v cells IH]; [done|]. intros _ Hcells.
  apply Forall_cons in Hcells as [Hv Hcells].
  destruct (read_field v Hv) as [H1 H2].
  destruct cells as [|v' cells]; [done|].
  change (join [44%N] (quoted <$> v :: v' :: cells))
    with (quoted v ++ 44%N :: join [44%N] (quoted <$> v' :: cells)).
  rewrite H2. by rewrite IH.
Qed.

(** ** No CR in a line *)

Lemma not_elem_of_join (c : N) (sep : jsstring) (l : list jsstring) :
  c ∉ sep -> Forall (fun v => c ∉ v) l -> c ∉ join sep l.
Proof.
  intros Hsep. induction 1 as [|v l Hv Hl IH]; [apply not_elem_of_nil|].
  destruct l as [|v' l]; [done|].
  change (join sep (v :: v' :: l)) with (v ++ sep ++ join sep (v' :: l)).
  rewrite !not_elem_of_app. auto.
Qed.

Lemma not_elem_of_quoted (c : N) (v : jsstring) :
  c <> 34%N -> c ∉ v -> c ∉ quoted v.
Proof.
  intros Hc Hv. unfold quoted. case_bool_decide; [|done].
  rewrite !not_elem_of_app. split; [by apply not_elem_of_cons; split; [|apply not_elem_of_nil]|].
  split; [|by apply not_elem_of_cons; split; [|apply not_elem_of_nil]].
  clear H. induction v as [|x v IH]; [apply not_elem_of_nil|].
  apply not_elem_of_cons in Hv as [Hx Hv].
  unfold double_quotes. cbn [flat_map]. fold (double_quotes v).
  rewrite not_elem_of_app. split; [|by apply IH].
  destruct (x =? 34)%N; rewrite !not_elem_of_cons; repeat split;
    try done; apply not_elem_of_nil.
Qed.

Lemma quoted_plain (v : jsstring) : 44%N ∉ v -> quoted v = v.
Proof. intros Hv. unfold quoted. by rewrite bool_decide_eq_false_2. Qed.

Section ExportFacts.

Context {V : Type}.
Variable String_value : V -> jsstring.
Variable String_builtin : jsstring -> jsstring.

(** X19.  The export is read back.  When the first record has a key, the keys
    are exportable and free of commas, and the text of every cell is
    exportable, then a reader of CSV finds in the output the keys of the
    first record, and then for each record the texts of its cells under
    these keys, commas and quotation marks included. *)
Theorem csv_is_read_back (op : prototype) (first : json_object V)
    (rest : list (json_object V)) :
  let data := first :: rest in
  let headers := first.*1 in
  headers <> [] ->
  Forall (fun h => exportable h /\ 44%N ∉ h) headers ->
  (forall row h, row ∈ data -> h ∈ headers ->
     exportable (cell String_value String_builtin op row h)) ->
  read_csv (convertToCSV String_value String_builtin data op)
  = headers :: ((fun row => cell String_value String_builtin op row <$> headers) <$> data).
Proof.
  intros data headers Hne Hheaders Hcells.
  subst data headers. unfold read_csv, convertToCSV. cbv zeta.
  set (headers := first.*1) in *. set (data := first :: rest) in *.
  assert (Hrow : join [44%N] headers = join [44%N] (quoted <$> headers)).
  { f_equal. clear Hne Hcells. induction Hheaders as [|h hs [_ Hh] _ IH]; [done|].
    rewrite fmap_cons, quoted_plain by done. by f_equal. }
  rewrite Hrow.
  set (line := fun cells : list jsstring => join [44%N] (quoted <$> cells)).
  assert (Hlines :
    join [44%N] (quoted <$> headers)
      :: ((fun row => join [44%N] ((fun header => quoted (cell String_value String_builtin op row header)) <$> headers)) <$> data)
    = line <$> (headers :: ((fun row => cell String_value String_builtin op row <$> headers) <$> data))).
  { rewrite fmap_cons. f_equal. rewrite <- list_fmap_compose.
    apply list_fmap_ext. intros _ row _. simpl. unfold line.
    by rewrite <- list_fmap_compose. }
  rewrite Hlines.
  assert (Hall : Forall (fun cells => cells <> [] /\ Forall exportable cells)
                   (headers :: ((fun row => cell String_value String_builtin op row <$> headers) <$> data))).
  { constructor.
    - split; [done|]. eapply Forall_impl; [exact Hheaders|]. by intros h [? _].
    - apply Forall_fmap, Forall_forall. intros row Hin. simpl. split.
      + by destruct headers.
      + apply Forall_fmap, Forall_forall. intros h Hh. simpl. by apply Hcells. }
  rewrite read_lines_join.
  - rewrite <- list_fmap_compose.
    generalize dependent (headers :: ((fun row => cell String_value String_builtin op row <$> headers) <$> data)).
    intros table _ Htable. induction Htable as [|cells table [Hc Hex] _ IH]; [done|].
    rewrite fmap_cons, IH. f_equal. simpl. unfold line.
    apply read_fields_join; [done|].
    eapply Forall_impl; [exact Hex|]. by intros v (_ & _ & ?).
  - done.
  - apply Forall_fmap. eapply Forall_impl; [exact Hall|].
    intros cells [_ Hex]. simpl. unfold line.
    apply not_elem_of_join.
    + by apply not_elem_of_cons; split; [|apply not_elem_of_nil].
    + apply Forall_fmap. eapply Forall_impl; [exact Hex|].
      intros v (Hcr & _ & _). simpl. by apply not_elem_of_quoted.
Qed.

End ExportFacts.

Lemma read_fields_no_comma (st : field_state) (cur s : jsstring) :
  44%N ∉ s ->
  exists f, read_fields st cur s = [f]
            /\ (length f <= length cur + length s)%nat.
Proof.
  revert st cur. induction s as [|c s IH]; intros st cur Hs.
  - exists cur. split; [done|]. lia.
  - apply not_elem_of_cons in Hs as [Hc Hs].
    assert ((c =? 44)%N = false) as H44 by (apply N.eqb_neq; congruence).
    destruct st; cbn [read_fields]; rewrite ?H44; destruct (c =? 34)%N.
    all: match goal with
         | |- context [read_fields ?st' ?cur' _] =>
             destruct (IH st' cur' Hs) as (f & -> & Hlen)
         end.
    all: exists f; split; [done|].
    all: rewrite ?length_app in Hlen; simpl in *; lia.
Qed.

(** X20.  The text of a cell that begins with a quotation mark and includes no
    comma is written as it is, and the reader does not find it again:
    what it reads is shorter. *)
Theorem leading_quotation_mark_is_lost (v : jsstring) :
  44%N ∉ v -> head v = Some 34%N ->
  read_fields FieldStart [] (quoted v) <> [v].
Proof.
  intros Hcomma Hhead. rewrite quoted_plain by done.
  destruct v as [|c v]; [done|]. injection Hhead as ->.
  apply not_elem_of_cons in Hcomma as [_ Hcomma].
  cbn [read_fields N.eqb Pos.eqb].
  destruct (read_fields_no_comma Quoted [] v Hcomma) as (f & -> & Hlen).
  intros [= ->]. simpl in Hlen. lia.
Qed.

(** * Properties of the local time *)

Lemma year_length (y : Z) :
  DayFromYear (y + 1) - DayFromYear y = if InLeapYear y then 366 else 365.
Proof.
  unfold DayFromYear, InLeapYear.
  destruct (y mod 4 =? 0) eqn:H4; simpl.
  - destruct (y mod 100 =? 0) eqn:H100; simpl.
    + destruct (y mod 400 =? 0) eqn:H400; simpl.
      * apply Z.eqb_eq in H4, H100, H400. Z.to_euclidean_division_equations. lia.
      * apply Z.eqb_eq in H4, H100. apply Z.eqb_neq in H400.
        Z.to_euclidean_division_equations. lia.
    + apply Z.eqb_eq in H4. apply Z.eqb_neq in H100.
      Z.to_euclidean_division_equations. lia.
  - apply Z.eqb_neq in H4. Z.to_euclidean_division_equations. lia.
Qed.

Lemma year_length_bounds (y : Z) :
  365 <= DayFromYear (y + 1) - DayFromYear y <= 366.
Proof. rewrite year_length. destruct (InLeapYear y); lia. Qed.

Lemma years_length_bounds (y n : Z) :
  0 <= n ->
  DayFromYear y + 365 * n <= DayFromYear (y + n) <= DayFromYear y + 366 * n.
Proof.
  intros Hn. revert n Hn. apply natlike_ind.
  - replace (y + 0) with y by lia. lia.
  - intros n Hn IH. replace (y + Z.succ n) with (y + n + 1) by lia.
    pose proof (year_length_bounds (y + n)). lia.
Qed.

Lemma DayFromYear_1970 : DayFromYear 1970 = 0.
Proof. reflexivity. Qed.

Lemma year_search_spec (fuel : nat) (d y : Z) :
  DayFromYear y <= d < DayFromYear y + 365 * Z.of_nat fuel ->
  DayFromYear (year_search fuel d y) <= d < DayFromYear (year_search fuel d y + 1).
Proof.
  revert y. induction fuel as [|fuel IH]; intros y Hy.
  - lia.
  - cbn [year_search]. destruct (DayFromYear (y + 1) <=? d) eqn:Hnext.
    + apply Z.leb_le in Hnext. apply IH.
      pose proof (year_length_bounds y). lia.
    + apply Z.leb_gt in Hnext. lia.
Qed.

(** [YearFromTime] is the year that the day of [t] lies in. *)
Lemma YearFromTime_spec (t : Z) :
  DayFromYear (YearFromTime t) <= Day t < DayFromYear (YearFromTime t + 1).
Proof.
  unfold YearFromTime. set (d := Day t).
  apply year_search_spec.
  destruct (0 <=? d) eqn:Hd.
  - apply Z.leb_le in Hd.
    assert (0 <= d / 366) as Hq by (apply Z.div_pos; lia).
    pose proof (years_length_bounds 1970 (d / 366) Hq) as Hb.
    rewrite DayFromYear_1970 in Hb.
    rewrite Z.abs_eq by done.
    rewrite Z2Nat.id by (Z.to_euclidean_division_equations; lia).
    Z.to_euclidean_division_equations. lia.
  - apply Z.leb_gt in Hd.
    assert (d / 365 < 0) as Hq by (Z.to_euclidean_division_equations; lia).
    pose proof (years_length_bounds (1970 + d / 365) (- (d / 365)) ltac:(lia)) as Hb.
    replace (1970 + d / 365 + - (d / 365)) with 1970 in Hb by lia.
    rewrite DayFromYear_1970 in Hb.
    rewrite Z.abs_neq by lia.
    rewrite Z2Nat.id by (Z.to_euclidean_division_equations; lia).
    Z.to_euclidean_division_equations. lia.
Qed.

Lemma DayWithinYear_bounds (t : Z) :
  0 <= DayWithinYear t < if InLeapYear (YearFromTime t) then 366 else 365.
Proof.
  unfold DayWithinYear. pose proof (YearFromTime_spec t).
  pose proof (year_length (YearFromTime t)). lia.
Qed.

Lemma MonthFromTime_bounds (t : Z) : 0 <= MonthFromTime t <= 11.
Proof. unfold MonthFromTime. repeat case_match; lia. Qed.

(** The day of the month counts from the first day of the month. *)
Lemma DateFromTime_bounds (t : Z) : 1 <= DateFromTime t <= 31.
Proof.
  unfold DateFromTime, MonthFromTime.
  pose proof (DayWithinYear_bounds t) as Hd.
  destruct (InLeapYear (YearFromTime t));
    repeat (match goal with
            | |- context [if ?a <? ?b then _ else _] =>
                destruct (Z.ltb_spec a b)
            end); simpl; lia.
Qed.

(** The year, the month and the day of the month make up the day. *)
Lemma MakeDay_of_time (t dt : Z) :
  MakeDay (YearFromTime t) (MonthFromTime t) dt = Day t - DateFromTime t + dt.
Proof.
  unfold MakeDay. pose proof (MonthFromTime_bounds t) as Hm.
  rewrite Z.div_small, Z.mod_small, Z.add_0_r by lia.
  unfold DateFromTime, DayWithinYear. lia.
Qed.

Lemma MakeDay_first (y : Z) : MakeDay y 0 1 = DayFromYear y.
Proof.
  unfold MakeDay. change (0 / 12) with 0. change (0 mod 12) with 0.
  replace (y + 0) with y by lia.
  destruct (InLeapYear y); unfold DaysBeforeMonth; lia.
Qed.

Lemma MakeDay_in_year (y m d : Z) :
  0 <= m <= 11 ->
  MakeDay y m d = DayFromYear y + DaysBeforeMonth (InLeapYear y) m + d - 1.
Proof.
  intros Hm. unfold MakeDay.
  rewrite Z.div_small, Z.mod_small, Z.add_0_r by lia. done.
Qed.

Lemma MakeDay_next_year (y : Z) : MakeDay y 12 1 = DayFromYear (y + 1).
Proof.
  unfold MakeDay. change (12 / 12) with 1. change (12 mod 12) with 0.
  destruct (InLeapYear (y + 1)); unfold DaysBeforeMonth; lia.
Qed.

(** A month has from 28 to 31 days. *)
Lemma month_length (y m : Z) :
  0 <= m <= 11 -> 28 <= MakeDay y m 1 - MakeDay y (m - 1) 1 <= 31.
Proof.
  intros Hm. rewrite (MakeDay_in_year y m) by done.
  destruct (decide (m = 0)) as [->|Hm0].
  - unfold MakeDay.
    change ((0 - 1) / 12) with (-1). change ((0 - 1) mod 12) with 11.
    pose proof (year_length (y + -1)) as Hlen.
    replace (y + -1 + 1) with y in Hlen by lia.
    destruct (InLeapYear (y + -1)), (InLeapYear y); unfold DaysBeforeMonth; lia.
  - rewrite (MakeDay_in_year y (m - 1)) by lia.
    assert (m = 1 \/ m = 2 \/ m = 3 \/ m = 4 \/ m = 5 \/ m = 6
            \/ m = 7 \/ m = 8 \/ m = 9 \/ m = 10 \/ m = 11) as Hcases by lia.
    destruct Hcases as [->|[->|[->|[->|[->|[->|[->|[->|[->|[->| ->]]]]]]]]]];
      destruct (InLeapYear y); unfold DaysBeforeMonth; simpl; lia.
Qed.

Lemma TimeClip_Some (t s : Z) : TimeClip t = Some s -> s = t.
Proof. unfold TimeClip. case_match; [done|]. by intros [= <-]. Qed.

Lemma Day_bounds (t : Z) : Day t * msPerDay <= t < Day t * msPerDay + msPerDay.
Proof. unfold Day, msPerDay. Z.to_euclidean_division_equations. lia. Qed.

Lemma TimeWithinDay_eq (t : Z) : TimeWithinDay t = t - Day t * msPerDay.
Proof. unfold TimeWithinDay, Day, msPerDay. Z.to_euclidean_division_equations. lia. Qed.

Lemma Day_of_day (d r : Z) : 0 <= r < msPerDay -> Day (d * msPerDay + r) = d.
Proof. unfold Day, msPerDay. intros Hr. Z.to_euclidean_division_equations. lia. Qed.

Lemma DayFromYear_mono (y y' : Z) : y <= y' -> DayFromYear y <= DayFromYear y'.
Proof.
  intros Hy. pose proof (years_length_bounds y (y' - y) ltac:(lia)) as Hb.
  replace (y + (y' - y)) with y' in Hb by lia. lia.
Qed.

Lemma YearFromTime_unique (t y : Z) :
  DayFromYear y <= Day t < DayFromYear (y + 1) -> YearFromTime t = y.
Proof.
  intros Hy. pose proof (YearFromTime_spec t) as Hspec.
  destruct (Z.lt_trichotomy (YearFromTime t) y) as [Hlt|[Heq|Hgt]]; [|done|].
  - pose proof (DayFromYear_mono (YearFromTime t + 1) y ltac:(lia)). lia.
  - pose proof (DayFromYear_mono (y + 1) (YearFromTime t) ltac:(lia)). lia.
Qed.

(** The local time of a day of the calendar gives back its year, its
    month and its day of the month. *)
Lemma civil_round_trip (y m d r : Z) :
  0 <= m <= 11 -> 1 <= d <= MakeDay y (m + 1) 1 - MakeDay y m 1 ->
  0 <= r < msPerDay ->
  let t := MakeDate (MakeDay y m d) r in
  YearFromTime t = y /\ MonthFromTime t = m /\ DateFromTime t = d.
Proof.
  intros Hm Hd Hr t.
  assert (Hday : Day t = MakeDay y m d) by (by apply Day_of_day).
  pose proof (year_length y) as Hlen.
  rewrite (MakeDay_in_year y m) in * by done.
  assert (Hnext : MakeDay y (m + 1) 1
                  = DayFromYear y
                    + (if m =? 11 then (if InLeapYear y then 366 else 365)
                       else DaysBeforeMonth (InLeapYear y) (m + 1))).
  { destruct (Z.eqb_spec m 11) as [->|Hm11].
    - change (11 + 1) with 12. rewrite MakeDay_next_year. lia.
    - rewrite MakeDay_in_year by lia. lia. }
  rewrite Hnext in Hd. clear Hnext.
  assert (Hyear : YearFromTime t = y).
  { apply YearFromTime_unique. rewrite Hday.
    assert (m = 0 \/ m = 1 \/ m = 2 \/ m = 3 \/ m = 4 \/ m = 5 \/ m = 6
            \/ m = 7 \/ m = 8 \/ m = 9 \/ m = 10 \/ m = 11) as Hcases by lia.
    destruct Hcases as [->|[->|[->|[->|[->|[->|[->|[->|[->|[->|[->| ->]]]]]]]]]]];
      destruct (InLeapYear y); unfold DaysBeforeMonth in *; simpl in Hd; lia. }
  split; [done|].
  assert (Hmonth : MonthFromTime t = m).
  { unfold MonthFromTime, DayWithinYear. rewrite Hyear, Hday.
    assert (m = 0 \/ m = 1 \/ m = 2 \/ m = 3 \/ m = 4 \/ m = 5 \/ m = 6
            \/ m = 7 \/ m = 8 \/ m = 9 \/ m = 10 \/ m = 11) as Hcases by lia.
    destruct Hcases as [->|[->|[->|[->|[->|[->|[->|[->|[->|[->|[->| ->]]]]]]]]]]];
      destruct (InLeapYear y); unfold DaysBeforeMonth in *; simpl in Hd;
      repeat (match goal with
              | |- context [if ?a <? ?b then _ else _] =>
                  destruct (Z.ltb_spec a b)
              end); lia. }
  split; [done|].
  unfold DateFromTime, DayWithinYear. rewrite Hmonth, Hyear, Hday. lia.
Qed.

(** * Properties of the date ranges *)

(** On a host whose local time is UTC plus a fixed offset [tz], as it is
    where the time zone has no daylight saving time. *)
Section FixedOffset.

Variable UTC : Z -> Z.
Variable LocalTime : Z -> Z.
Variable tz : Z.
Hypothesis LocalTime_offset : forall t, LocalTime t = t + tz.
Hypothesis UTC_offset : forall t, UTC t = t - tz.

Lemma setHours_offset (d : Date) (t hour min sec ms : Z) :
  valueOf d = Some t ->
  valueOf (setHours UTC LocalTime d hour min sec ms)
  = TimeClip (Day (t + tz) * msPerDay + MakeTime hour min sec ms - tz).
Proof.
  intros Ht. unfold setHours. rewrite Ht. simpl.
  by rewrite LocalTime_offset, UTC_offset.
Qed.

Lemma setDate_offset (d : Date) (t dt : Z) :
  valueOf d = Some t ->
  valueOf (setDate UTC LocalTime d (Some dt))
  = TimeClip ((Day (t + tz) - DateFromTime (t + tz) + dt) * msPerDay
              + TimeWithinDay (t + tz) - tz).
Proof.
  intros Ht. unfold setDate. rewrite Ht. simpl.
  by rewrite LocalTime_offset, UTC_offset, MakeDay_of_time.
Qed.

(** Window A of an analysis ends before the selected range starts: its
    end, when it is a valid date, is the last millisecond of the local
    day before the day in which the range starts. *)
Lemma endOfRangeA_offset (now : Z) (start : Date) (e s : Z) :
  valueOf (analysis_windows UTC LocalTime now start).2 = Some e ->
  valueOf start = Some s ->
  e = Day (s + tz) * msPerDay - 1 - tz /\ e < s.
Proof.
  unfold analysis_windows. cbn [snd]. intros He Hs.
  set (copy := mkDate (valueOf start)) in *.
  assert (Hcopy : valueOf copy = Some s) by done.
  assert (Hget : getDate LocalTime copy = Some (DateFromTime (s + tz))).
  { unfold getDate. by rewrite Hcopy, <- LocalTime_offset. }
  rewrite Hget in He. cbn [subtract] in He.
  destruct (valueOf (setDate UTC LocalTime copy (Some (DateFromTime (s + tz) - 1))))
    as [u|] eqn:Hu.
  2:{ unfold setHours in He. by rewrite Hu in He. }
  rewrite (setHours_offset _ u) in He by done.
  rewrite (setDate_offset _ s) in Hu by done.
  apply TimeClip_Some in Hu, He. subst u.
  pose proof (Day_bounds (s + tz)) as Hday.
  rewrite TimeWithinDay_eq in He.
  replace ((Day (s + tz) - DateFromTime (s + tz) + (DateFromTime (s + tz) - 1))
           * msPerDay + (s + tz - Day (s + tz) * msPerDay) - tz + tz)
    with ((Day (s + tz) - 1) * msPerDay + (s + tz - Day (s + tz) * msPerDay))
    in He by lia.
  rewrite Day_of_day in He by lia.
  unfold MakeTime, msPerDay in *. lia.
Qed.

Variable Date_parse_other : jsstring -> option Z.

Local Abbreviation range :=
  (getSelectedDateRange UTC LocalTime Date_parse_other).

Lemma new_Date_offset (year month date : Z) (a : Z) :
  100 <= year ->
  valueOf (new_Date UTC year month date) = Some a ->
  a = MakeDay year month date * msPerDay - tz.
Proof.
  intros Hy. rewrite new_Date_full_year by done. rewrite UTC_offset.
  intros ->%TimeClip_Some. unfold MakeDate. lia.
Qed.

Lemma now_valid (now : Z) (d : Date) :
  d = mkDate (TimeClip now) -> forall t, valueOf d = Some t -> t = now.
Proof. intros -> t Ht. by apply TimeClip_Some in Ht. Qed.

(** X21.  The dates of the records, on a host with a fixed offset.  A
    string of three segments that [parseInt] reads as a year, a month from
    1 to 12 and a day of that month resolves to a date; when it is a
    valid date, it is the local midnight that begins the day written: its
    year is the first number plus 1911, its month and its day of the
    month are the second and the third number. *)
Theorem resolved_date_is_the_day_written (s p0 p1 p2 : jsstring) (y m d : Z) :
  split s = [p0; p1; p2] ->
  parseInt p0 = Some y -> parseInt p1 = Some m -> parseInt p2 = Some d ->
  1 <= m <= 12 -> 1 <= d <= DaysInMonth (y + 1911) m ->
  exists date,
    rocToGregorian UTC (JSString s) = Some date
    /\ forall t, valueOf date = Some t ->
         getFullYear LocalTime date = Some (y + 1911)
         /\ getMonth LocalTime date = Some (m - 1)
         /\ getDate LocalTime date = Some d
         /\ TimeWithinDay (LocalTime t) = 0.
Proof.
  intros Hs H0 H1 H2 Hm Hd. eexists. split.
  { by apply (rocToGregorian_segments UTC s p0 p1 p2). }
  intros t Ht.
  assert (100 <= y + 1911) as Hyear.
  { pose proof (split_no_separator s) as Hsep.
    rewrite Hs in Hsep. apply Forall_cons in Hsep as [Hp0 _].
    pose proof (parseInt_nonneg p0 y Hp0 H0). lia. }
  unfold getFullYear, getMonth, getDate. rewrite Ht.
  cbn [fmap option_fmap option_map].
  apply new_Date_offset in Ht; [|done].
  rewrite LocalTime_offset.
  replace (t + tz) with (MakeDate (MakeDay (y + 1911) (m - 1) d) 0)
    by (unfold MakeDate; lia).
  unfold DaysInMonth in Hd.
  destruct (civil_round_trip (y + 1911) (m - 1) d 0) as (-> & -> & ->).
  - lia.
  - by replace (m - 1 + 1) with m by lia.
  - unfold msPerDay. lia.
  - split; [done|]. split; [done|]. split; [done|].
    unfold MakeDate. rewrite TimeWithinDay_eq, Day_of_day by (unfold msPerDay; lia).
    lia.
Qed.

(** X22.  The windows of an analysis, on a host with a fixed offset.
    Window A ends before the selected range starts: its end, when it is
    a valid date, is the last millisecond of the local day before the day
    in which the range starts.  And window A starts, in a year from 100
    on, at the local midnight that begins the year of the clock, which
    is not after the clock. *)
Theorem windows_of_an_analysis_are_apart (now : Z) (start : Date) :
  let '(startOfYear, endOfRangeA) := analysis_windows UTC LocalTime now start in
  match valueOf endOfRangeA, valueOf start with
  | Some e, Some s => e < s /\ e = Day (s + tz) * msPerDay - 1 - tz
  | _, _ => True
  end
  /\ forall a, valueOf startOfYear = Some a ->
       100 <= YearFromTime (now + tz) ->
       a <= now
       /\ a = DayFromYear (YearFromTime (now + tz)) * msPerDay - tz.
Proof.
  destruct (analysis_windows UTC LocalTime now start) as [startOfYear endOfRangeA]
    eqn:Hw.
  split.
  - destruct (valueOf endOfRangeA) as [e|] eqn:He; [|done].
    destruct (valueOf start) as [s|] eqn:Hs; [|done].
    assert (endOfRangeA = (analysis_windows UTC LocalTime now start).2) as Heq
      by (by rewrite Hw).
    rewrite Heq in He.
    destruct (endOfRangeA_offset now start e s He Hs) as [-> ?]. done.
  - intros a Ha Hyear.
    assert (startOfYear
            = new_Date_of UTC (getFullYear LocalTime (mkDate (TimeClip now)))
                          (Some 0) (Some 1)) as Heq.
    { unfold analysis_windows in Hw. by injection Hw as <- _. }
    rewrite Heq in Ha. unfold getFullYear in Ha. cbn [valueOf] in Ha.
    destruct (TimeClip now) as [t|] eqn:Ht; [|done].
    apply TimeClip_Some in Ht as ->. cbn [fmap option_fmap option_map new_Date_of] in Ha.
    rewrite LocalTime_offset in Ha.
    apply new_Date_offset in Ha; [|done].
    assert (MakeDay (YearFromTime (now + tz)) 0 1
            = DayFromYear (YearFromTime (now + tz))) as Hmd.
    { apply MakeDay_first. }
    rewrite Hmd in Ha. split; [|done].
    pose proof (YearFromTime_spec (now + tz)) as Hy.
    pose proof (Day_bounds (now + tz)) as Hd.
    unfold msPerDay in *. lia.
Qed.

(** X23.  The filter of the current week, on a host with a fixed offset.
    The range ends at the second reading of the clock.  Its start, when
    it is a valid date, is a local midnight that begins a Sunday, is not
    after the first reading of the clock, and lies less than seven days
    before it. *)
Theorem week_starts_on_sunday (now later : Z) (startDateStr endDateStr : jsstring) :
  exists start,
    range (Some (str "week")) now later startDateStr endDateStr
    = Some (start, mkDate (TimeClip later))
    /\ forall s, valueOf start = Some s ->
         s <= now /\ now - s < 7 * msPerDay
         /\ WeekDay (s + tz) = 0 /\ TimeWithinDay (s + tz) = 0.
Proof.
  eexists. split; [reflexivity|]. intros s Hs.
  set (nowD := mkDate (TimeClip now)) in *.
  destruct (valueOf nowD) as [t|] eqn:Hnow.
  2:{ unfold setHours, setDate in Hs. by rewrite Hnow in Hs. }
  assert (t = now) as -> by (by apply (now_valid now nowD)).
  assert (Hdt : subtract (getDate LocalTime nowD) (getDay LocalTime nowD)
                = Some (DateFromTime (now + tz) - WeekDay (now + tz))).
  { unfold getDate, getDay. rewrite Hnow. simpl. by rewrite LocalTime_offset. }
  rewrite Hdt in Hs.
  destruct (valueOf (setDate UTC LocalTime nowD
                       (Some (DateFromTime (now + tz) - WeekDay (now + tz)))))
    as [u|] eqn:Hu.
  2:{ unfold setHours in Hs. by rewrite Hu in Hs. }
  rewrite (setHours_offset _ u) in Hs by done.
  rewrite (setDate_offset _ now) in Hu by done.
  apply TimeClip_Some in Hu, Hs. subst u.
  pose proof (Day_bounds (now + tz)) as Hday.
  rewrite TimeWithinDay_eq in Hs.
  replace ((Day (now + tz) - DateFromTime (now + tz)
            + (DateFromTime (now + tz) - WeekDay (now + tz))) * msPerDay
           + (now + tz - Day (now + tz) * msPerDay) - tz + tz)
    with ((Day (now + tz) - WeekDay (now + tz)) * msPerDay
          + (now + tz - Day (now + tz) * msPerDay)) in Hs by lia.
  rewrite Day_of_day in Hs by lia.
  assert (0 <= WeekDay (now + tz) < 7) as Hw
    by (unfold WeekDay; apply Z.mod_pos_bound; lia).
  replace (s + tz) with ((Day (now + tz) - WeekDay (now + tz)) * msPerDay + 0)
    by (unfold MakeTime in Hs; lia).
  split; [unfold MakeTime, msPerDay in *; lia|].
  split; [unfold MakeTime, msPerDay in *; lia|].
  split.
  - unfold WeekDay at 1. rewrite Day_of_day by (unfold msPerDay; lia).
    unfold WeekDay. Z.to_euclidean_division_equations. lia.
  - rewrite TimeWithinDay_eq, Day_of_day by (unfold msPerDay; lia). lia.
Qed.

(** X24.  The filters of the current month and of the current year, on a
    host with a fixed offset and in a year from 100 on.  The range ends
    at the second reading of the clock.  Its start, when it is a valid
    date, is the local midnight that begins the month (the year) of the
    first reading: it lies as many days before the day of the clock as
    the day of the month (of the year) says, and is not after the
    clock. *)
Theorem month_and_year_start_on_their_first_day (now later : Z)
    (startDateStr endDateStr : jsstring) :
  100 <= YearFromTime (now + tz) ->
  (exists start,
     range (Some (str "month")) now later startDateStr endDateStr
     = Some (start, mkDate (TimeClip later))
     /\ forall s, valueOf start = Some s ->
          s <= now /\ TimeWithinDay (s + tz) = 0
          /\ Day (s + tz) = Day (now + tz) - (DateFromTime (now + tz) - 1))
  /\ (exists start,
       range (Some (str "year")) now later startDateStr endDateStr
       = Some (start, mkDate (TimeClip later))
       /\ forall s, valueOf start = Some s ->
            s <= now /\ TimeWithinDay (s + tz) = 0
            /\ Day (s + tz) = Day (now + tz) - DayWithinYear (now + tz)).
Proof.
  intros Hyear.
  pose proof (Day_bounds (now + tz)) as Hday.
  pose proof (DateFromTime_bounds (now + tz)) as Hdate.
  pose proof (DayWithinYear_bounds (now + tz)) as Hdwy.
  split; eexists; (split; [reflexivity|]); intros s Hs;
    unfold getFullYear, getMonth in Hs; cbn [valueOf] in Hs;
    (destruct (TimeClip now) as [t|] eqn:Ht; [|done]);
    apply TimeClip_Some in Ht as ->;
    cbn [fmap option_fmap option_map new_Date_of] in Hs;
    rewrite LocalTime_offset in Hs;
    (apply new_Date_offset in Hs; [|done]).
  - rewrite MakeDay_of_time in Hs.
    replace (s + tz)
      with ((Day (now + tz) - (DateFromTime (now + tz) - 1)) * msPerDay + 0) by lia.
    rewrite TimeWithinDay_eq, !Day_of_day by (unfold msPerDay; lia).
    split; [unfold msPerDay in *; lia|]. split; lia.
  - rewrite MakeDay_first in Hs. unfold DayWithinYear in *.
    replace (s + tz)
      with (DayFromYear (YearFromTime (now + tz)) * msPerDay + 0) by lia.
    rewrite TimeWithinDay_eq, !Day_of_day by (unfold msPerDay; lia).
    split; [unfold msPerDay in *; lia|]. split; lia.
Qed.

(** X25.  The filter of the last month, on a host with a fixed offset and
    in a year from 100 on.  When both ends of the range are valid dates,
    the range is a whole month: it starts at the local midnight that
    begins the first day of the month before that of the clock, and it
    ends one millisecond before the local midnight that begins the month
    of the clock; so it has from 28 to 31 days and ends before the
    clock. *)
Theorem last_month_is_a_whole_month (now later : Z)
    (startDateStr endDateStr : jsstring) :
  100 <= YearFromTime (now + tz) ->
  exists start end_,
    range (Some (str "month-last")) now later startDateStr endDateStr
    = Some (start, end_)
    /\ forall s e, valueOf start = Some s -> valueOf end_ = Some e ->
         let first := Day (now + tz) - (DateFromTime (now + tz) - 1) in
         e + 1 = first * msPerDay - tz
         /\ TimeWithinDay (s + tz) = 0
         /\ Day (s + tz)
            = MakeDay (YearFromTime (now + tz)) (MonthFromTime (now + tz) - 1) 1
         /\ 28 <= first - Day (s + tz) <= 31
         /\ s < e /\ e < now.
Proof.
  intros Hyear. eexists _, _. split; [reflexivity|]. intros s e Hs He first.
  pose proof (Day_bounds (now + tz)) as Hday.
  pose proof (DateFromTime_bounds (now + tz)) as Hdate.
  pose proof (month_length (YearFromTime (now + tz)) (MonthFromTime (now + tz))
                (MonthFromTime_bounds (now + tz))) as Hlen.
  rewrite MakeDay_of_time in Hlen.
  unfold getFullYear, getMonth in Hs, He. cbn [valueOf] in Hs, He.
  destruct (TimeClip now) as [t|] eqn:Ht; [|done].
  apply TimeClip_Some in Ht as ->.
  cbn [fmap option_fmap option_map new_Date_of subtract] in Hs, He.
  rewrite LocalTime_offset in Hs, He.
  apply new_Date_offset in Hs; [|done].
  destruct (valueOf (new_Date UTC (YearFromTime (now + tz))
                       (MonthFromTime (now + tz)) 0)) as [v|] eqn:Hv.
  2:{ unfold setHours in He. by rewrite Hv in He. }
  rewrite (setHours_offset _ v) in He by done.
  apply new_Date_offset in Hv; [|done]. rewrite MakeDay_of_time in Hv.
  apply TimeClip_Some in He.
  replace (v + tz)
    with ((Day (now + tz) - DateFromTime (now + tz) + 0) * msPerDay + 0) in He by lia.
  rewrite Day_of_day in He by (unfold msPerDay; lia).
  replace (s + tz)
    with (MakeDay (YearFromTime (now + tz)) (MonthFromTime (now + tz) - 1) 1
          * msPerDay + 0) by lia.
  rewrite TimeWithinDay_eq, !Day_of_day by (unfold msPerDay; lia).
  unfold first, MakeTime, msPerDay in *.
  split; [lia|]. split; [lia|]. split; [done|]. split; [lia|]. split; lia.
Qed.

(** X26.  The custom range, on a host with a fixed offset of less than a
    day.  The two date inputs denote days, which [new Date] reads as
    days of UTC, while [setHours] sets the time of day in local time.  On
    a host at or ahead of UTC the range runs from the local midnight that
    begins the first chosen day to the last millisecond of the last
    chosen day.  On a host behind UTC the whole range lies one day
    earlier: it includes the day before the first chosen day and not the
    last chosen day.  There is no range when the last day is before the
    first. *)
Theorem custom_range_is_a_day_early_behind_utc (now later : Z)
    (startDateStr endDateStr : jsstring) (ds de : Z) :
  startDateStr <> [] -> endDateStr <> [] ->
  Date_parse Date_parse_other startDateStr = Some (MakeDate ds 0) ->
  Date_parse Date_parse_other endDateStr = Some (MakeDate de 0) ->
  - msPerDay < tz < msPerDay ->
  Z.abs (MakeDate ds 0) + 2 * msPerDay <= 8640000000000000 ->
  Z.abs (MakeDate de 0) + 2 * msPerDay <= 8640000000000000 ->
  let shift := if tz <? 0 then 1 else 0 in
  let start := mkDate (Some (MakeDate (ds - shift) 0 - tz)) in
  let end_ := mkDate (Some (MakeDate (de - shift + 1) 0 - 1 - tz)) in
  range (Some (str "custom")) now later startDateStr endDateStr
  = (if de <? ds then None else Some (start, end_))
  /\ (date_le (mkDate (Some (MakeDate de 0 - tz))) end_ = true <-> 0 <= tz)
  /\ (date_ge (mkDate (Some (MakeDate (ds - 1) 0 - tz))) start = true <-> tz < 0).
Proof.
  intros Hsd Hed Hps Hpe Htz Hrs Hre shift start end_.
  assert (Hclip : forall t, Z.abs t <= 8640000000000000 -> TimeClip t = Some t).
  { intros t Ht. unfold TimeClip.
    destruct (Z.gtb_spec (Z.abs t) 8640000000000000); [lia|done]. }
  assert (Hday : forall d, Day (MakeDate d 0 + tz) = d - shift).
  { intros d. unfold shift, MakeDate. destruct (Z.ltb_spec tz 0).
    - replace (d * msPerDay + 0 + tz) with ((d - 1) * msPerDay + (msPerDay + tz)) by lia.
      apply Day_of_day. lia.
    - replace (d * msPerDay + 0 + tz) with ((d - 0) * msPerDay + tz) by lia.
      apply Day_of_day. lia. }
  assert (Hshift : shift = 0 \/ shift = 1) by (unfold shift; case_match; lia).
  assert (Hstart : setHours UTC LocalTime (new_Date_string Date_parse_other startDateStr)
                     0 0 0 0 = start).
  { unfold new_Date_string. rewrite Hps, Hclip by (unfold msPerDay in *; lia).
    unfold setHours. cbn [valueOf]. rewrite LocalTime_offset, UTC_offset, Hday.
    unfold start. f_equal. rewrite Hclip; [f_equal; unfold MakeDate, MakeTime; lia|].
    unfold MakeDate, MakeTime, msPerDay in *. lia. }
  assert (Hend : setHours UTC LocalTime (new_Date_string Date_parse_other endDateStr)
                   23 59 59 999 = end_).
  { unfold new_Date_string. rewrite Hpe, Hclip by (unfold msPerDay in *; lia).
    unfold setHours. cbn [valueOf]. rewrite LocalTime_offset, UTC_offset, Hday.
    unfold end_. f_equal. rewrite Hclip; [f_equal; unfold MakeDate, MakeTime, msPerDay; lia|].
    unfold MakeDate, MakeTime, msPerDay in *. lia. }
  split; [|split].
  - unfold getSelectedDateRange.
    rewrite decide_False by done. rewrite decide_False by done.
    rewrite decide_False by done. rewrite decide_False by done.
    rewrite decide_True by done.
    rewrite !bool_decide_eq_false_2 by done. cbn [orb].
    rewrite Hstart, Hend. unfold date_gt, start, end_. cbn [valueOf].
    destruct (Z.ltb_spec de ds) as [Hlt|Hge].
    + rewrite (proj2 (Z.ltb_lt _ _)); [done|]. unfold MakeDate, msPerDay. lia.
    + rewrite (proj2 (Z.ltb_ge _ _)); [done|]. unfold MakeDate, msPerDay. lia.
  - unfold date_le, end_. cbn [valueOf]. rewrite Z.leb_le.
    unfold shift, MakeDate, msPerDay. destruct (Z.ltb_spec tz 0); lia.
  - unfold date_ge, start. cbn [valueOf]. rewrite Z.leb_le.
    unfold shift, MakeDate, msPerDay. destruct (Z.ltb_spec tz 0); lia.
Qed.

End FixedOffset.

(** * Instances of the further properties *)

Definition north_south : list StationData :=
  [station "North" "113/05/20"; station "South" "113/05/21"].

Definition south_north : list StationData :=
  [station "South" "113/05/21"; station "North" "113/05/20"].

Lemma pass_ignores_record_order_witness :
  north_south ≡ₚ south_north
  /\ calculateYearlyDistrictStats utc0 true jan01 may20 may21 jun30
       north_south pristine
     = calculateYearlyDistrictStats utc0 true jan01 may20 may21 jun30
         south_north pristine.
Proof.
  assert (H : north_south ≡ₚ south_north) by apply perm_swap.
  split; [exact H|].
  exact (pass_ignores_record_order utc0 true jan01 may20 may21 jun30
           north_south south_north pristine H).
Defined.

Definition three_north : list StationData :=
  [station "North" "113/05/20"; station "North" "113/05/21";
   station "North" "112/05/20"].

Lemma counters_count_records_witness :
  let s : gmap (list N) counts := <[str "North" := mkCounts 1 1 2]> ∅ in
  calculateYearlyDistrictStats utc0 true jan01 may20 may21 jun30
    three_north pristine = (Returns s, pristine)
  /\ s !! str "North" = Some (mkCounts 1 1 2)
  /\ countA (mkCounts 1 1 2) + countB (mkCounts 1 1 2)
     <= Z.of_nat (length (filter
          (fun item => district_of item = Some (str "North")) three_north)).
Proof.
  intros s.
  assert (H : calculateYearlyDistrictStats utc0 true jan01 may20 may21 jun30
                three_north pristine = (Returns s, pristine))
    by (vm_compute; reflexivity).
  assert (Hc : s !! str "North" = Some (mkCounts 1 1 2)) by reflexivity.
  split; [exact H|]. split; [exact Hc|].
  exact (proj2 (proj2 (counters_count_records utc0 true jan01 may20 may21 jun30
                         three_north pristine pristine s (str "North")
                         (mkCounts 1 1 2) H Hc))).
Defined.

Lemma pass_adds_up_witness :
  let s1 : gmap (list N) counts := <[str "North" := mkCounts 1 0 1]> ∅ in
  let s2 : gmap (list N) counts :=
    <[str "North" := mkCounts 0 1 1]> (<[str "South" := mkCounts 0 1 1]> ∅) in
  let s12 : gmap (list N) counts :=
    <[str "North" := mkCounts 1 1 2]> (<[str "South" := mkCounts 0 1 1]> ∅) in
  calculateYearlyDistrictStats utc0 true jan01 may20 may21 jun30
    [station "North" "113/05/20"] pristine = (Returns s1, pristine)
  /\ calculateYearlyDistrictStats utc0 true jan01 may20 may21 jun30
       [station "North" "113/05/21"; station "South" "113/06/01"] pristine
     = (Returns s2, pristine)
  /\ calculateYearlyDistrictStats utc0 true jan01 may20 may21 jun30
       ([station "North" "113/05/20"]
        ++ [station "North" "113/05/21"; station "South" "113/06/01"]) pristine
     = (Returns s12, pristine)
  /\ countA_of s12 (str "North")
     = countA_of s1 (str "North") + countA_of s2 (str "North")
  /\ countB_of s12 (str "North")
     = countB_of s1 (str "North") + countB_of s2 (str "North").
Proof.
  intros s1 s2 s12.
  assert (H1 : calculateYearlyDistrictStats utc0 true jan01 may20 may21 jun30
    [station "North" "113/05/20"] pristine = (Returns s1, pristine))
    by (vm_compute; reflexivity).
  assert (H2 : calculateYearlyDistrictStats utc0 true jan01 may20 may21 jun30
       [station "North" "113/05/21"; station "South" "113/06/01"] pristine
     = (Returns s2, pristine)) by (vm_compute; reflexivity).
  assert (H12 : calculateYearlyDistrictStats utc0 true jan01 may20 may21 jun30
       ([station "North" "113/05/20"]
        ++ [station "North" "113/05/21"; station "South" "113/06/01"]) pristine
     = (Returns s12, pristine)) by (vm_compute; reflexivity).
  split; [exact H1|]. split; [exact H2|]. split; [exact H12|].
  exact (pass_adds_up utc0 true jan01 may20 may21 jun30 _ _
           pristine pristine pristine pristine s1 s2 s12 (str "North") H1 H2 H12).
Defined.

(** Window A from 20 May back to 1 January: its start lies after its
    end. *)
Lemma empty_window_A_witness :
  let s : gmap (list N) counts := <[str "North" := mkCounts 0 0 0]> ∅ in
  match valueOf may20, valueOf jan01 with
  | Some a, Some e => e < a
  | _, _ => True
  end
  /\ calculateYearlyDistrictStats utc0 true may20 jan01 may21 jun30
       [station "North" "113/03/01"] pristine = (Returns s, pristine)
  /\ countA_of s (str "North") = 0.
Proof.
  intros s.
  assert (Hw : match valueOf may20, valueOf jan01 with
               | Some a, Some e => e < a
               | _, _ => True
               end) by (vm_compute; reflexivity).
  assert (H : calculateYearlyDistrictStats utc0 true may20 jan01 may21 jun30
       [station "North" "113/03/01"] pristine = (Returns s, pristine))
    by (vm_compute; reflexivity).
  split; [exact Hw|]. split; [exact H|].
  exact (empty_window_A_counts_nothing utc0 true may20 jan01 may21 jun30
           [station "North" "113/03/01"] pristine pristine s (str "North") Hw H).
Defined.

Lemma listed_districts_witness :
  let s : gmap (list N) counts := <[str "North" := mkCounts 1 1 2]> ∅ in
  calculateYearlyDistrictStats utc0 true jan01 may20 may21 jun30
    three_north pristine = (Returns s, pristine)
  /\ is_Some (s !! str "North")
  /\ JSString (str "North") ∈ populateDistrictFilter three_north.
Proof.
  intros s.
  assert (H : calculateYearlyDistrictStats utc0 true jan01 may20 may21 jun30
                three_north pristine = (Returns s, pristine))
    by (vm_compute; reflexivity).
  assert (Hd : is_Some (s !! str "North")) by (by eexists).
  split; [exact H|]. split; [exact Hd|].
  exact (listed_districts_are_options utc0 true jan01 may20 may21 jun30
           three_north pristine pristine s (str "North") H Hd).
Defined.

(** The text " rust, leak  crack " typed into the keyword field. *)
Lemma typed_keywords_witness :
  Forall (fun c => is_keyword_separator c = true) (str " ")
  /\ Forall (fun '(k, r) =>
        k <> [] /\ Forall (fun c => is_keyword_separator c = false) k
        /\ r <> [] /\ Forall (fun c => is_keyword_separator c = true) r)
       [(str "rust", str ", "); (str "leak", str "  ")]
  /\ str "crack" <> []
  /\ Forall (fun c => is_keyword_separator c = false) (str "crack")
  /\ Forall (fun c => is_keyword_separator c = true) (str " ")
  /\ handleAddKeyword
       (str " " ++ typed [(str "rust", str ", "); (str "leak", str "  ")]
        ++ str "crack" ++ str " ") [str "leak"]
     = [str "leak"; str "rust"; str "crack"].
Proof.
  assert (H1 : Forall (fun c => is_keyword_separator c = true) (str " "))
    by (repeat constructor).
  assert (H2 : Forall (fun '(k, r) =>
        k <> [] /\ Forall (fun c => is_keyword_separator c = false) k
        /\ r <> [] /\ Forall (fun c => is_keyword_separator c = true) r)
       [(str "rust", str ", "); (str "leak", str "  ")])
    by (repeat constructor; discriminate).
  assert (H3 : str "crack" <> []) by discriminate.
  assert (H4 : Forall (fun c => is_keyword_separator c = false) (str "crack"))
    by (repeat constructor).
  split; [exact H1|]. split; [exact H2|]. split; [exact H3|].
  split; [exact H4|]. split; [exact H1|].
  exact (typed_keywords_are_read_back (str " ")
           [(str "rust", str ", "); (str "leak", str "  ")]
           (str "crack") (str " ") [str "leak"] H1 H2 H3 H4 H1).
Defined.

(** A record with a remark. *)
Definition remarked (district date remark : string) : Station :=
  mkFullStation (station district date) (Remark (JSString (str remark))).

(** Three records and the keyword "rust", analysed for the range from
    21 May to 30 June 2024. *)
Definition example_app : App :=
  mkApp [remarked "North" "113/05/21" "bolt rust"; remarked "North" "113/02/01" "fine";
         remarked "South" "113/06/01" "fine"]
        [] [] ∅ [str "rust"].

Definition example_shown : list Station :=
  [remarked "North" "113/05/21" "bolt rust"; remarked "South" "113/06/01" "fine"].

Definition example_special : list Station :=
  [remarked "North" "113/05/21" "bolt rust"].

Definition example_stats : gmap (list N) counts :=
  <[str "North" := mkCounts 1 1 2]> (<[str "South" := mkCounts 0 1 1]> ∅).

Definition example_app' : App :=
  mkApp (allData example_app) example_special example_shown example_stats
        [str "rust"].

Lemma example_analysis :
  handleAnalysis utc0 true example_app (Some (may21, jun30)) [] jan01 may20 pristine
  = (Rendered example_shown example_special example_stats, example_app', pristine).
Proof. vm_compute. reflexivity. Qed.

Lemma analysis_shows_witness :
  handleAnalysis utc0 true example_app (Some (may21, jun30)) [] jan01 may20 pristine
  = (Rendered example_shown example_special example_stats, example_app', pristine)
  /\ example_special `sublist_of` example_shown
  /\ example_shown `sublist_of` allData example_app.
Proof.
  split; [exact example_analysis|].
  pose proof (analysis_shows_filtered_records utc0 true example_app example_app'
                may21 jun30 [] jan01 may20 pristine pristine
                example_shown example_special example_stats example_analysis)
    as (_ & _ & H1 & H2 & _).
  split; [exact H1|exact H2].
Defined.

Lemma column_B_witness :
  match valueOf may20, valueOf may21 with
  | Some e, Some s => e < s
  | _, _ => True
  end
  /\ handleAnalysis utc0 true example_app (Some (may21, jun30)) [] jan01 may20 pristine
     = (Rendered example_shown example_special example_stats, example_app', pristine)
  /\ example_stats !! str "North" = Some (mkCounts 1 1 2)
  /\ countB (mkCounts 1 1 2)
     = Z.of_nat (length (filter
         (fun item => district_of (fields item) = Some (str "North"))
         example_shown)).
Proof.
  assert (Hw : match valueOf may20, valueOf may21 with
               | Some e, Some s => e < s
               | _, _ => True
               end) by (vm_compute; reflexivity).
  assert (Hc : example_stats !! str "North" = Some (mkCounts 1 1 2)) by reflexivity.
  split; [exact Hw|]. split; [exact example_analysis|]. split; [exact Hc|].
  exact (column_B_counts_shown_records utc0 true example_app example_app'
           may21 jun30 jan01 may20 pristine pristine
           example_shown example_special example_stats (str "North")
           (mkCounts 1 1 2) Hw example_analysis Hc).
Defined.







Lemma footer_totals_witness :
  let s : gmap (list N) counts := <[str "North" := mkCounts 1 1 2]> ∅ in
  calculateYearlyDistrictStats utc0 true jan01 may20 may21 jun30
    three_north pristine = (Returns s, pristine)
  /\ (renderYearlyStats s = NoStatistics
      <-> Forall (fun item => ~ listable item) three_north).
Proof.
  intros s.
  assert (H : calculateYearlyDistrictStats utc0 true jan01 may20 may21 jun30
                three_north pristine = (Returns s, pristine))
    by (vm_compute; reflexivity).
  split; [exact H|].
  exact (proj1 (footer_totals_count_records utc0 jan01 may20 may21 jun30 true
                  three_north pristine pristine s H)).
Defined.




(** Two records with a name and a remark; the second remark holds a comma
    and a quotation mark. *)
Definition example_rows : list (json_object jsstring) :=
  [ [(str "name", Some (str "A1")); (str "remark", Some (str "fine"))];
    [(str "name", Some (str "B2")); (str "remark", Some [98; 44; 34; 99]%N)] ].

Definition no_text (k : jsstring) : jsstring := [].

Lemma exportable_dec (v : jsstring) :
  bool_decide (13%N ∉ v) && bool_decide (10%N ∉ v)
  && (bool_decide (44%N ∈ v) || negb (bool_decide (head v = Some 34%N))) = true ->
  exportable v.
Proof.
  intros [[H1 H2]%andb_true_iff H3]%andb_true_iff.
  apply bool_decide_eq_true in H1, H2.
  split; [done|]. split; [done|]. intros Hc.
  apply orb_true_iff in H3 as [H3|H3].
  - by apply bool_decide_eq_true in H3.
  - apply negb_true_iff in H3. by apply bool_decide_eq_false in H3.
Qed.

Lemma csv_is_read_back_witness :
  (str "name" :: [str "remark"] <> [])
  /\ read_csv (convertToCSV id no_text example_rows pristine)
     = [ [str "name"; str "remark"];
         [str "A1"; str "fine"];
         [str "B2"; [98; 44; 34; 99]%N] ].
Proof.
  assert (H0 : [str "name"; str "remark"] <> []) by discriminate.
  split; [exact H0|].
  refine (csv_is_read_back id no_text pristine
            [(str "name", Some (str "A1")); (str "remark", Some (str "fine"))]
            [[(str "name", Some (str "B2")); (str "remark", Some [98; 44; 34; 99]%N)]]
            H0 _ _).
  - repeat constructor; try (apply exportable_dec; reflexivity);
      by apply (bool_decide_unpack _).
  - intros row h Hrow Hh. apply exportable_dec.
    repeat (apply elem_of_cons in Hrow as [->|Hrow]);
      [| |by apply not_elem_of_nil in Hrow];
      (repeat (apply elem_of_cons in Hh as [->|Hh]);
        [reflexivity|reflexivity|by apply not_elem_of_nil in Hh]).
Defined.

(** The text of a cell that is a quotation mark followed by "a". *)
Lemma leading_quotation_mark_witness :
  44%N ∉ [34; 97]%N /\ head [34; 97]%N = Some 34%N
  /\ read_fields FieldStart [] (quoted [34; 97]%N) <> [[34; 97]%N].
Proof.
  assert (H1 : 44%N ∉ [34; 97]%N) by (by apply (bool_decide_unpack _)).
  split; [exact H1|]. split; [reflexivity|].
  exact (leading_quotation_mark_is_lost [34; 97]%N H1 eq_refl).
Defined.

(** Four records with the keys "b", "a", "a" and none. *)
Definition example_values : list value :=
  [JSString (str "b"); JSString (str "a"); JSString (str "a"); JSNull].

Lemma bars_count_records_witness :
  Forall (fun item => chart_key (id item) ∉ Object_prototype_keys) example_values
  /\ match renderBarChart no_text example_values id with
     | HostDefinedChart => False
     | NoChartData => example_values = []
     | Bars bars maxValue =>
         NoDup bars.*1
         /\ (forall k n, (k, n) ∈ bars <->
               0 < n /\ n = Z.of_nat (length (filter
                              (fun item => chart_key (id item) = k) example_values)))
         /\ StronglySorted descending bars
         /\ (exists k, head bars = Some (k, maxValue))
         /\ foldr Z.add 0 bars.*2 = Z.of_nat (length example_values)
     end.
Proof.
  assert (H : Forall (fun item => chart_key (id item) ∉ Object_prototype_keys)
                example_values)
    by (repeat constructor; by apply (bool_decide_unpack _)).
  split; [exact H|].
  exact (bars_count_records no_text example_values id H).
Defined.

(** * Instances of the date ranges *)

(** A host in the UTC time zone, and a host five hours behind UTC. *)
Definition local0 (t : Z) : Z := t.

Definition west : Z := -18000000.
Definition local_west (t : Z) : Z := t + west.
Definition utc_west (t : Z) : Z := t - west.

(** A host whose [Date.parse] accepts nothing but the format of the
    standard. *)
Definition no_other_format (s : jsstring) : option Z := None.

(** 20 May 2024, 10:13:20 UTC. *)
Definition clock : Z := 1716200000000.

Lemma windows_witness :
  (forall t, local0 t = t + 0) /\ (forall t, utc0 t = t - 0)
  /\ let '(startOfYear, endOfRangeA) := analysis_windows utc0 local0 clock may21 in
     match valueOf endOfRangeA, valueOf may21 with
     | Some e, Some s => e < s /\ e = Day (s + 0) * msPerDay - 1 - 0
     | _, _ => True
     end
     /\ forall a, valueOf startOfYear = Some a ->
          100 <= YearFromTime (clock + 0) ->
          a <= clock
          /\ a = DayFromYear (YearFromTime (clock + 0)) * msPerDay - 0.
Proof.
  assert (H1 : forall t, local0 t = t + 0) by (intros t; unfold local0; lia).
  assert (H2 : forall t, utc0 t = t - 0) by (intros t; unfold utc0; lia).
  split; [exact H1|]. split; [exact H2|].
  exact (windows_of_an_analysis_are_apart utc0 local0 0 H1 H2 clock may21).
Defined.

Lemma week_witness :
  (forall t, local0 t = t + 0) /\ (forall t, utc0 t = t - 0)
  /\ exists start,
       getSelectedDateRange utc0 local0 no_other_format (Some (str "week"))
         clock clock [] []
       = Some (start, mkDate (TimeClip clock))
       /\ forall s, valueOf start = Some s ->
            s <= clock /\ clock - s < 7 * msPerDay
            /\ WeekDay (s + 0) = 0 /\ TimeWithinDay (s + 0) = 0.
Proof.
  assert (H1 : forall t, local0 t = t + 0) by (intros t; unfold local0; lia).
  assert (H2 : forall t, utc0 t = t - 0) by (intros t; unfold utc0; lia).
  split; [exact H1|]. split; [exact H2|].
  exact (week_starts_on_sunday utc0 local0 0 H1 H2 no_other_format clock clock [] []).
Defined.

Lemma month_and_year_witness :
  (forall t, local0 t = t + 0) /\ (forall t, utc0 t = t - 0)
  /\ 100 <= YearFromTime (clock + 0)
  /\ exists start,
       getSelectedDateRange utc0 local0 no_other_format (Some (str "year"))
         clock clock [] []
       = Some (start, mkDate (TimeClip clock))
       /\ forall s, valueOf start = Some s ->
            s <= clock /\ TimeWithinDay (s + 0) = 0
            /\ Day (s + 0) = Day (clock + 0) - DayWithinYear (clock + 0).
Proof.
  assert (H1 : forall t, local0 t = t + 0) by (intros t; unfold local0; lia).
  assert (H2 : forall t, utc0 t = t - 0) by (intros t; unfold utc0; lia).
  assert (H3 : 100 <= YearFromTime (clock + 0)) by (vm_compute; discriminate).
  split; [exact H1|]. split; [exact H2|]. split; [exact H3|].
  exact (proj2 (month_and_year_start_on_their_first_day utc0 local0 0 H1 H2
                  no_other_format clock clock [] [] H3)).
Defined.

Lemma last_month_witness :
  (forall t, local0 t = t + 0) /\ (forall t, utc0 t = t - 0)
  /\ 100 <= YearFromTime (clock + 0)
  /\ exists start end_,
       getSelectedDateRange utc0 local0 no_other_format (Some (str "month-last"))
         clock clock [] []
       = Some (start, end_)
       /\ forall s e, valueOf start = Some s -> valueOf end_ = Some e ->
            let first := Day (clock + 0) - (DateFromTime (clock + 0) - 1) in
            e + 1 = first * msPerDay - 0
            /\ TimeWithinDay (s + 0) = 0
            /\ Day (s + 0)
               = MakeDay (YearFromTime (clock + 0)) (MonthFromTime (clock + 0) - 1) 1
            /\ 28 <= first - Day (s + 0) <= 31
            /\ s < e /\ e < clock.
Proof.
  assert (H1 : forall t, local0 t = t + 0) by (intros t; unfold local0; lia).
  assert (H2 : forall t, utc0 t = t - 0) by (intros t; unfold utc0; lia).
  assert (H3 : 100 <= YearFromTime (clock + 0)) by (vm_compute; discriminate).
  split; [exact H1|]. split; [exact H2|]. split; [exact H3|].
  exact (last_month_is_a_whole_month utc0 local0 0 H1 H2 no_other_format
           clock clock [] [] H3).
Defined.

(** The custom range from 20 May 2024 to 21 May 2024, five hours behind
    UTC; 20 May 2024 is day 19863 since the epoch. *)
Lemma custom_range_witness :
  (forall t, local_west t = t + west) /\ (forall t, utc_west t = t - west)
  /\ Date_parse no_other_format (str "2024-05-20") = Some (MakeDate 19863 0)
  /\ Date_parse no_other_format (str "2024-05-21") = Some (MakeDate 19864 0)
  /\ getSelectedDateRange utc_west local_west no_other_format (Some (str "custom"))
       clock clock (str "2024-05-20") (str "2024-05-21")
     = Some (mkDate (Some (MakeDate 19862 0 - west)),
             mkDate (Some (MakeDate 19864 0 - 1 - west))).
Proof.
  assert (H1 : forall t, local_west t = t + west) by done.
  assert (H2 : forall t, utc_west t = t - west) by done.
  assert (H3 : Date_parse no_other_format (str "2024-05-20") = Some (MakeDate 19863 0))
    by (vm_compute; reflexivity).
  assert (H4 : Date_parse no_other_format (str "2024-05-21") = Some (MakeDate 19864 0))
    by (vm_compute; reflexivity).
  split; [exact H1|]. split; [exact H2|]. split; [exact H3|]. split; [exact H4|].
  refine (proj1 (custom_range_is_a_day_early_behind_utc utc_west local_west west
                   H1 H2 no_other_format clock clock
                   (str "2024-05-20") (str "2024-05-21") 19863 19864
                   _ _ H3 H4 _ _ _)).
  - discriminate.
  - discriminate.
  - unfold west, msPerDay. lia.
  - vm_compute. discriminate.
  - vm_compute. discriminate.
Defined.

Lemma resolved_date_witness :
  (forall t, local0 t = t + 0) /\ (forall t, utc0 t = t - 0)
  /\ split (str "113/05/20") = [str "113"; str "05"; str "20"]
  /\ (1 <= 5 <= 12) /\ (1 <= 20 <= DaysInMonth (113 + 1911) 5)
  /\ exists date,
       rocToGregorian utc0 (JSString (str "113/05/20")) = Some date
       /\ forall t, valueOf date = Some t ->
            getFullYear local0 date = Some (113 + 1911)
            /\ getMonth local0 date = Some (5 - 1)
            /\ getDate local0 date = Some 20
            /\ TimeWithinDay (local0 t) = 0.
Proof.
  assert (H1 : forall t, local0 t = t + 0) by (intros t; unfold local0; lia).
  assert (H2 : forall t, utc0 t = t - 0) by (intros t; unfold utc0; lia).
  assert (H3 : split (str "113/05/20") = [str "113"; str "05"; str "20"])
    by reflexivity.
  assert (H4 : 1 <= 5 <= 12) by lia.
  assert (H5 : 1 <= 20 <= DaysInMonth (113 + 1911) 5) by (vm_compute; split; discriminate).
  split; [exact H1|]. split; [exact H2|]. split; [exact H3|].
  split; [exact H4|]. split; [exact H5|].
  exact (resolved_date_is_the_day_written utc0 local0 0 H1 H2
           (str "113/05/20") (str "113") (str "05") (str "20") 113 5 20
           H3 eq_refl eq_refl eq_refl H4 H5).
Defined.
